(** * Tokenscope: token-usage and cost accounting for OpenCode sessions

    A shallow embedding of the analysis core of the tokenscope plugin
    (tokenizer manager, model resolver, content collector, analysis engine,
    cost calculator, context analyzer, subagent analyzer, skill analyzer,
    and the tables of the output formatter) together with the properties
    its specification states about it and further properties of the code.

    Conventions of the embedding.
    - A JavaScript string is a [string]: one character per UTF-16 code unit,
      restricted to the code units 0..255.  [String.length] is the [length]
      property.
    - A JavaScript number holding a token count is a [Z]; a number holding a
      price or a cost is a [Qc] (exact rational arithmetic, rounding of
      IEEE doubles is not modelled).
    - An optional field is an [option]; [Number(x) || 0] is [numOr0].
    - An [async] function is a computation of the resumption monad [Async]:
      code between two [await]s runs atomically on the shared state, and
      every [await] gives the other pending computations a turn. *)

From Stdlib Require Import Ascii String ZArith QArith Qcanon Qround Lia Lqa.
From stdpp Require Import base option list strings gmap pretty sorting.

Set Warnings "-register-all".

Local Open Scope string_scope.
Local Open Scope list_scope.
Local Open Scope Z_scope.

(** ** JavaScript strings *)

Module Js.

(** WhiteSpace and LineTerminator code units below 256, as [trim] and the
    regular-expression class [\s] see them. *)
Definition isWhiteSpace (c : ascii) : bool :=
  let n := nat_of_ascii c in
  ((9 <=? n)%nat && (n <=? 13)%nat) || (n =? 32)%nat || (n =? 160)%nat.

(** Line terminators below 256: [.] in a regular expression skips them. *)
Definition isLineTerminator (c : ascii) : bool :=
  let n := nat_of_ascii c in (n =? 10)%nat || (n =? 13)%nat.

(** The regular-expression class [\w]. *)
Definition isWordChar (c : ascii) : bool :=
  let n := nat_of_ascii c in
  ((48 <=? n)%nat && (n <=? 57)%nat) || ((65 <=? n)%nat && (n <=? 90)%nat)
  || ((97 <=? n)%nat && (n <=? 122)%nat) || (n =? 95)%nat.

Fixpoint trimStart (s : string) : string :=
  match s with
  | EmptyString => EmptyString
  | String c r => if isWhiteSpace c then trimStart r else s
  end.

Definition trimEnd (s : string) : string :=
  String.rev (trimStart (String.rev s)).

Definition trim (s : string) : string := trimEnd (trimStart s).

(** Truthiness of a string: non-empty. *)
Definition truthy (s : string) : bool :=
  match s with EmptyString => false | _ => true end.

Definition lowerChar (c : ascii) : ascii :=
  let n := nat_of_ascii c in
  if ((65 <=? n)%nat && (n <=? 90)%nat)
     || ((192 <=? n)%nat && (n <=? 222)%nat && negb (n =? 215)%nat)
  then ascii_of_nat (n + 32) else c.

Fixpoint toLowerCase (s : string) : string :=
  match s with
  | EmptyString => EmptyString
  | String c r => String (lowerChar c) (toLowerCase r)
  end.

Definition upperChar (c : ascii) : ascii :=
  let n := nat_of_ascii c in
  if ((97 <=? n)%nat && (n <=? 122)%nat)
     || ((224 <=? n)%nat && (n <=? 254)%nat && negb (n =? 247)%nat)
  then ascii_of_nat (n - 32) else c.

(** [s.startsWith(p)] *)
Fixpoint startsWith (s p : string) : bool :=
  match p, s with
  | EmptyString, _ => true
  | String a p', String b s' => if decide (a = b) then startsWith s' p' else false
  | String _ _, EmptyString => false
  end.

(** [s.includes(p)] *)
Fixpoint includes (s p : string) : bool :=
  startsWith s p ||
  match s with
  | EmptyString => false
  | String _ r => includes r p
  end.

(** [s.split("/").pop()]: the part of [s] after its last ["/"], all of [s]
    when it has none. *)
Fixpoint afterLastSlash (s : string) : string :=
  match s with
  | EmptyString => EmptyString
  | String c r =>
      if includes r "/" then afterLastSlash r
      else if decide (c = "/"%char) then r else s
  end.

(** [s.substring(0, n)] for [0 <= n]. *)
Fixpoint substring0 (n : nat) (s : string) : string :=
  match n, s with
  | O, _ => EmptyString
  | S n', String c r => String c (substring0 n' r)
  | S _, EmptyString => EmptyString
  end.

(** The longest prefix of [s] whose characters satisfy [p], and the rest. *)
Fixpoint span (p : ascii → bool) (s : string) : string * string :=
  match s with
  | EmptyString => (EmptyString, EmptyString)
  | String c r =>
      if p c then let '(a, b) := span p r in (String c a, b)
      else (EmptyString, s)
  end.

(** A string of white space only (the empty string is one). *)
Fixpoint allWhiteSpace (s : string) : bool :=
  match s with
  | EmptyString => true
  | String c r => isWhiteSpace c && allWhiteSpace r
  end.

(** [Number(x) || 0] for an optional numeric field. *)
Definition numOr0 (x : option Z) : Z := default 0 x.

(** [Math.ceil(n / 4)] on a length. *)
Definition ceilDiv4 (n : nat) : Z := Qceiling (Z.of_nat n # 4).

(** [a.slice(0, e)]: a negative end counts from the end of the array. *)
Definition slice0 {A} (e : Z) (l : list A) : list A :=
  if e <? 0 then take (Z.to_nat (Z.max (Z.of_nat (length l) + e) 0)) l
  else take (Z.to_nat e) l.

(** Array.prototype.sort with the comparator [(a, b) => key b - key a]:
    descending by [key], stable. *)
Fixpoint insertDesc {A} (key : A → Z) (x : A) (l : list A) : list A :=
  match l with
  | [] => [x]
  | y :: r => if key x <? key y then y :: insertDesc key x r else x :: l
  end.

Definition sortDesc {A} (key : A → Z) (l : list A) : list A :=
  foldr (insertDesc key) [] l.

(** The order such a sort establishes: descending keys. *)
Definition desc {A} (key : A → Z) (x y : A) : Prop := key y ≤ key x.

End Js.

(** ** Promises: the resumption monad over a shared state *)

Module Promise.
Section Async.
Context {St : Type}.

(** What an [async] call has become after running its current segment:
    settled with a value, or suspended at an [await]. *)
Inductive Susp (A : Type) : Type :=
| Settled (a : A)
| Pending (resume : St → St * Susp A).
Global Arguments Settled {A} a.
Global Arguments Pending {A} resume.

(** Induction on a suspended computation, with the hypothesis available
    for whatever state it is resumed in. *)
Fixpoint Susp_induction {A} (P : Susp A → Prop)
    (HS : ∀ a, P (Settled a))
    (HP : ∀ k, (∀ s, P (k s).2) → P (Pending k)) (r : Susp A) : P r :=
  match r with
  | Settled a => HS a
  | Pending k => HP k (fun s => Susp_induction P HS HP (k s).2)
  end.

(** An [async] function body: called on the current state, it runs up to its
    first [await]. *)
Definition Async (A : Type) : Type := St → St * Susp A.

Definition ret {A} (a : A) : Async A := fun s => (s, Settled a).

Fixpoint bindSusp {A B} (r : Susp A) (f : A → Async B) : Async B :=
  match r with
  | Settled a => f a
  | Pending k =>
      fun s => (s, Pending (fun s' => let '(s'', r') := k s' in bindSusp r' f s''))
  end.

Definition bind {A B} (t : Async A) (f : A → Async B) : Async B :=
  fun s => let '(s', r) := t s in
           match r with
           | Settled a => f a s'
           | Pending k =>
               (s', Pending (fun s1 => let '(s2, r') := k s1 in bindSusp r' f s2))
           end.

(** A synchronous read or update of the shared state. *)
Definition act {A} (f : St → St * A) : Async A :=
  fun s => let '(s', a) := f s in (s', Settled a).

(** Suspension until the next turn. *)
Definition yield : Async unit := fun s => (s, Pending (fun s' => (s', Settled tt))).

(** [await t]: [t] is called now; the caller resumes in a later turn than
    the one in which [t] settles. *)
Definition await {A} (t : Async A) : Async A :=
  bind t (fun a => bind yield (fun _ => ret a)).

(** Running a suspended computation alone until it settles. *)
Fixpoint drive {A} (r : Susp A) (s : St) : A * St :=
  match r with
  | Settled a => (a, s)
  | Pending k => let '(s', r') := k s in drive r' s'
  end.

(** Running a call alone to completion: what [await]ing it amounts to when
    nothing else is pending. *)
Definition run {A} (t : Async A) (s : St) : A * St :=
  let '(s', r) := t s in drive r s'.

Fixpoint mapSusp {A B} (f : A → B) (r : Susp A) : Susp B :=
  match r with
  | Settled a => Settled (f a)
  | Pending k => Pending (fun s => let '(s', r') := k s in (s', mapSusp f r'))
  end.

(** Two pending computations resumed in turn, first [r1], then [r2]. *)
Fixpoint both {A B} (r1 : Susp A) (r2 : Susp B) : Susp (A * B) :=
  match r1 with
  | Settled a => mapSusp (pair a) r2
  | Pending k1 =>
      Pending (fun s =>
        let '(s1, r1') := k1 s in
        match r2 with
        | Settled b => (s1, both r1' (Settled b))
        | Pending k2 => let '(s2, r2') := k2 s1 in (s2, both r1' r2')
        end)
  end.

(** [Promise.all([t1, t2])]: both calls are started, in order, each running
    up to its first [await]; then they are resumed in turn. *)
Definition all2 {A B} (t1 : Async A) (t2 : Async B) : Async (A * B) :=
  fun s => let '(s1, r1) := t1 s in
           let '(s2, r2) := t2 s1 in
           (s2, both r1 r2).

End Async.
Global Arguments Susp : clear implicits.
Global Arguments Async : clear implicits.

Declare Scope async_scope.
Delimit Scope async_scope with async.
Notation "x <- t ;; k" := (bind t (fun x => k))
  (at level 100, t at next level, right associativity) : async_scope.

(** A sequential [for ... of] loop with an accumulator. *)
Fixpoint forEach {St A B} (l : list A) (body : B → A → Async St B) (acc : B)
    : Async St B :=
  match l with
  | [] => ret acc
  | x :: l' => bind (body acc x) (forEach l' body)
  end.

(** Every value the computation can settle with, in whatever states it is
    resumed, satisfies [P]. *)
Fixpoint SuspAll {St A} (P : A → Prop) (r : Susp St A) : Prop :=
  match r with
  | Settled a => P a
  | Pending k => ∀ s, SuspAll P (k s).2
  end.

Definition AsyncAll {St A} (P : A → Prop) (t : Async St A) : Prop :=
  ∀ s, SuspAll P (t s).2.

End Promise.

(** ** Data model (plugin/tokenscope-lib/types.ts) *)

Module Types.

Record CacheUsage := {
  cu_read : option Z;
  cu_write : option Z }.

Record TokenUsage := {
  tu_input : option Z;
  tu_output : option Z;
  tu_reasoning : option Z;
  tu_cache : option CacheUsage }.

(** [tokens.cache?.read] and [tokens.cache?.write] *)
Definition cacheRead (t : TokenUsage) : option Z := tu_cache t ≫= cu_read.
Definition cacheWrite (t : TokenUsage) : option Z := tu_cache t ≫= cu_write.

(** A value of type [unknown] found in a tool state, as far as the analysis
    looks at it: its truthiness and its rendering by [String(...)]. *)
Inductive JsValue :=
| JNull
| JBool (b : bool)
| JNum (n : Z)
| JStr (s : string)
| JObject (rendering : string).

Inductive ToolStatus := StPending | StRunning | StCompleted | StError.

Record ToolState := {
  ts_status : ToolStatus;
  ts_input : option (list (string * JsValue));
  ts_output : option string;
  ts_title : option string;
  ts_metadata : option (list (string * JsValue)) }.

Inductive SessionMessagePart :=
| TextPart (text : option string)
| ReasoningPart (text : option string)
| ToolPart (tool : string) (state : ToolState)
| OtherPart (type : string).

Record SessionMessageInfo := {
  mi_id : string;
  mi_role : string;
  mi_modelID : option string;
  mi_providerID : option string;
  mi_system : option (list string);
  mi_tokens : option TokenUsage;
  mi_cost : option Qc }.

Record SessionMessage := {
  sm_info : SessionMessageInfo;
  sm_parts : list SessionMessagePart }.

Record CategoryEntry := {
  ce_label : string;
  ce_tokens : Z }.

Record CategorySummary := {
  cs_label : string;
  cs_totalTokens : Z;
  cs_entries : list CategoryEntry;
  cs_allEntries : list CategoryEntry }.

Inductive TokenizerSpec :=
| Tiktoken (model : string)
| Transformers (hub : string)
| Approx.

Record TokenModel := {
  tm_name : string;
  tm_spec : TokenizerSpec }.

Record CategoryEntrySource := {
  src_label : string;
  src_content : string }.

Record ModelPricing := {
  mp_input : Qc;
  mp_output : Qc;
  mp_cacheWrite : Qc;
  mp_cacheRead : Qc }.

Record ChildSession := {
  ch_id : string;
  ch_title : string }.

Record Categories := {
  system : CategorySummary;
  user : CategorySummary;
  assistant : CategorySummary;
  tools : CategorySummary;
  reasoning : CategorySummary }.

(** The analysis as the engine builds it; the optional sections that the
    plugin attaches afterwards are not part of it.  [toolCallCounts] is a
    [Map] in insertion order. *)
Record TokenAnalysis := {
  sessionID : string;
  model : TokenModel;
  categories : Categories;
  totalTokens : Z;
  inputTokens : Z;
  outputTokens : Z;
  reasoningTokens : Z;
  cacheReadTokens : Z;
  cacheWriteTokens : Z;
  assistantMessageCount : Z;
  mostRecentInput : Z;
  mostRecentOutput : Z;
  mostRecentReasoning : Z;
  mostRecentCacheRead : Z;
  mostRecentCacheWrite : Z;
  sessionCost : Qc;
  mostRecentCost : Qc;
  allToolsCalled : list string;
  toolCallCounts : list (string * Z) }.

Record CostEstimate := {
  isSubscription : bool;
  apiSessionCost : Qc;
  apiMostRecentCost : Qc;
  estimatedSessionCost : Qc;
  estimatedInputCost : Qc;
  estimatedOutputCost : Qc;
  estimatedCacheReadCost : Qc;
  estimatedCacheWriteCost : Qc;
  pricePerMillionInput : Qc;
  pricePerMillionOutput : Qc;
  pricePerMillionCacheRead : Qc;
  pricePerMillionCacheWrite : Qc;
  est_inputTokens : Z;
  est_outputTokens : Z;
  est_reasoningTokens : Z;
  est_cacheReadTokens : Z;
  est_cacheWriteTokens : Z }.

End Types.

(** ** TokenizerManager (plugin/tokenscope-lib/tokenizer.ts) *)

Module Tokenizer.
Import Types Promise.
Local Open Scope async_scope.

(** *** The vendored tokenizer packages, as the manager meets them *)

(** A js-tiktoken encoder: [encode] returns the tokens of a text ([Some n]
    for an array of length [n]) or throws ([None]). *)
Record Encoder := { encode : string → option Z }.

(** The js-tiktoken module.  A member that is not a function is [None]; a
    call that throws returns [None]. *)
Record TiktokenModule := {
  encodingForModel : option (string → option Encoder);
  getEncoding : option (string → option Encoder) }.

(** What [tokenizer.encode] of @huggingface/transformers gives back. *)
Inductive Encoding :=
| EncodeThrows
| EncodedArray (length : Z)
| EncodedObject (length : option Z).

(** A loaded tokenizer; [tk_encode] is [None] when it has no function
    [encode]. *)
Record HubTokenizer := { tk_encode : option (string → Encoding) }.

(** The transformers module: [AutoTokenizer.from_pretrained], [None] when
    the load of a hub fails. *)
Record TransformersModule := {
  from_pretrained : string → option HubTokenizer }.

(** What [importFromVendor] finds on disk: [None] when the package is not
    installed (the import is rejected). *)
Record Vendor := {
  js_tiktoken : option TiktokenModule;
  hf_transformers : option TransformersModule }.

(** *** The manager's state *)

(** Calls that reach a backend, recorded for the proofs. *)
Inductive BackendEvent :=
| ImportFromVendor (pkg : string)
| EncodingForModel (model : string)
| GetEncoding (encoding : string)
| FromPretrained (hub : string)
| TiktokenEncode (content : string)
| TransformersEncode (content : string).

Global Instance BackendEvent_eq_dec : EqDecision BackendEvent.
Proof. solve_decision. Defined.

(** The four private fields of the class; a module promise is kept as the
    value it settles to ([Some None]: rejected).  [events] and [calls] are
    ghost fields: the backend calls made so far, latest first, and the
    number of calls of [countTokens]. *)
Record TokenizerManager := {
  tiktokenCache : gmap string Encoder;
  transformerCache : gmap string (option HubTokenizer);
  tiktokenModule : option (option TiktokenModule);
  transformersModule : option (option TransformersModule);
  events : list BackendEvent;
  calls : nat }.

(** [new TokenizerManager()] *)
Definition newTokenizerManager : TokenizerManager :=
  {| tiktokenCache := ∅; transformerCache := ∅;
     tiktokenModule := None; transformersModule := None;
     events := []; calls := 0 |}.

Definition record (e : BackendEvent) (m : TokenizerManager) : TokenizerManager :=
  {| tiktokenCache := tiktokenCache m; transformerCache := transformerCache m;
     tiktokenModule := tiktokenModule m; transformersModule := transformersModule m;
     events := e :: events m; calls := calls m |}.

Definition countCall (m : TokenizerManager) : TokenizerManager :=
  {| tiktokenCache := tiktokenCache m; transformerCache := transformerCache m;
     tiktokenModule := tiktokenModule m; transformersModule := transformersModule m;
     events := events m; calls := S (calls m) |}.

Definition setTiktokenCache (k : string) (e : Encoder) (m : TokenizerManager) :=
  {| tiktokenCache := <[k := e]> (tiktokenCache m); transformerCache := transformerCache m;
     tiktokenModule := tiktokenModule m; transformersModule := transformersModule m;
     events := events m; calls := calls m |}.

Definition setTransformerCache (k : string) (t : option HubTokenizer) (m : TokenizerManager) :=
  {| tiktokenCache := tiktokenCache m; transformerCache := <[k := t]> (transformerCache m);
     tiktokenModule := tiktokenModule m; transformersModule := transformersModule m;
     events := events m; calls := calls m |}.

Definition setTiktokenModule (p : option TiktokenModule) (m : TokenizerManager) :=
  {| tiktokenCache := tiktokenCache m; transformerCache := transformerCache m;
     tiktokenModule := Some p; transformersModule := transformersModule m;
     events := events m; calls := calls m |}.

Definition setTransformersModule (p : option TransformersModule) (m : TokenizerManager) :=
  {| tiktokenCache := tiktokenCache m; transformerCache := transformerCache m;
     tiktokenModule := tiktokenModule m; transformersModule := Some p;
     events := events m; calls := calls m |}.

Section Manager.
Variable vendor : Vendor.

Definition Task : Type → Type := Async TokenizerManager.

Definition approximateTokenCount (content : string) : Z :=
  Js.ceilDiv4 (String.length content).

(** The first call starts the import and stores its promise; every caller
    gets that promise, which settles after the file system has answered. *)
Definition loadTiktokenModule : Task (option TiktokenModule) :=
  p <- act (fun m =>
         match tiktokenModule m with
         | Some p => (m, p)
         | None =>
             let p := js_tiktoken vendor in
             (setTiktokenModule p (record (ImportFromVendor "js-tiktoken") m), p)
         end) ;;
  _ <- yield ;;
  ret p.

Definition loadTransformersModule : Task (option TransformersModule) :=
  p <- act (fun m =>
         match transformersModule m with
         | Some p => (m, p)
         | None =>
             let p := hf_transformers vendor in
             (setTransformersModule p
                (record (ImportFromVendor "@huggingface/transformers") m), p)
         end) ;;
  _ <- yield ;;
  ret p.

(** The encoder returned when the module has no [getEncoding]. *)
Definition fallbackEncoder : Encoder :=
  {| encode := fun text => Some (Js.ceilDiv4 (String.length text)) |}.

(** [None]: the promise is rejected. *)
Definition loadTiktokenEncoder (model : string) : Task (option Encoder) :=
  cached <- act (fun m => (m, tiktokenCache m !! model)) ;;
  match cached with
  | Some e => ret (Some e)
  | None =>
      imported <- await loadTiktokenModule ;;
      match imported with
      | None => ret None
      | Some tiktoken =>
          match getEncoding tiktoken with
          | None => ret (Some fallbackEncoder)
          | Some getEnc =>
              act (fun m =>
                let '(m1, first) :=
                  match encodingForModel tiktoken with
                  | Some forModel => (record (EncodingForModel model) m, forModel model)
                  | None => (m, None)
                  end in
                match first with
                | Some e => (setTiktokenCache model e m1, Some e)
                | None =>
                    let m2 := record (GetEncoding "cl100k_base") m1 in
                    match getEnc "cl100k_base" with
                    | Some e => (setTiktokenCache model e m2, Some e)
                    | None => (m2, None)
                    end
                end)
          end
      end
  end.

Definition countWithTiktoken (content model : string) : Task (option Z) :=
  encoder <- await (loadTiktokenEncoder model) ;;
  match encoder with
  | None => ret None
  | Some e =>
      act (fun m =>
        (record (TiktokenEncode content) m,
         Some (default (approximateTokenCount content) (encode e content))))
  end.

Definition loadTransformersTokenizer (hub : string) : Task (option HubTokenizer) :=
  cached <- act (fun m => (m, transformerCache m !! hub)) ;;
  match cached with
  | Some t => ret t
  | None =>
      imported <- await loadTransformersModule ;;
      match imported with
      | None => act (fun m => (setTransformerCache hub None m, None))
      | Some transformers =>
          loaded <- await (act (fun m =>
                      (record (FromPretrained hub) m, from_pretrained transformers hub))) ;;
          act (fun m => (setTransformerCache hub loaded m, loaded))
      end
  end.

Definition countWithTransformers (content hub : string) : Task Z :=
  tokenizer <- await (loadTransformersTokenizer hub) ;;
  match tokenizer ≫= tk_encode with
  | None => ret (approximateTokenCount content)
  | Some enc =>
      encoding <- await (act (fun m =>
                    (record (TransformersEncode content) m, enc content))) ;;
      ret match encoding with
          | EncodeThrows => approximateTokenCount content
          | EncodedArray n => n
          | EncodedObject len => default (approximateTokenCount content) len
          end
  end.

Definition countTokens (content : string) (model : TokenModel) : Task Z :=
  _ <- act (fun m => (countCall m, tt)) ;;
  if Js.truthy (Js.trim content) then
    match tm_spec model with
    | Approx => ret (approximateTokenCount content)
    | Tiktoken name =>
        counted <- await (countWithTiktoken content name) ;;
        ret (default (approximateTokenCount content) counted)
    | Transformers hub => await (countWithTransformers content hub)
    end
  else ret 0.

End Manager.
End Tokenizer.

(** ** CostCalculator (plugin/tokenscope-lib/cost.ts) *)

Module Cost.
Import Types.
Local Open Scope Qc_scope.

(** [tokens / 1_000_000 * price] *)
Definition perMillion (tokens : Z) (price : Qc) : Qc :=
  Qc_of_Z tokens / Qc_of_Z 1000000 * price.

Section Calculator.
(** The pricing catalog, an object read from models.json: its entries in
    the order of [Object.entries], the keys pairwise distinct. *)
Variable pricingData : list (string * ModelPricing).

(** [pricingData[key]] for a key that is no name of a member of
    [Object.prototype] ([CostSpec.plainName]): for such a name the object
    read from models.json answers with the inherited member, and the
    properties of the lookup are stated for the other names. *)
Definition entry (key : string) : option ModelPricing :=
  snd <$> List.find (fun kv => bool_decide (kv.1 = key)) pricingData.

Definition normalizeModelName (modelName : string) : string :=
  if Js.includes modelName "/" then
    let last := Js.afterLastSlash modelName in
    if Js.truthy last then last else modelName
  else modelName.

Definition builtinPricing : ModelPricing :=
  {| mp_input := Qc_of_Z 1; mp_output := Qc_of_Z 3;
     mp_cacheWrite := Qc_of_Z 0; mp_cacheRead := Qc_of_Z 0 |}.

Definition getPricing (modelName : string) : ModelPricing :=
  let normalizedName := normalizeModelName modelName in
  match entry normalizedName with
  | Some pricing => pricing
  | None =>
      let lowerModel := Js.toLowerCase normalizedName in
      match List.find (fun kv => Js.startsWith lowerModel (Js.toLowerCase kv.1))
                      pricingData with
      | Some kv => kv.2
      | None => default builtinPricing (entry "default")
      end
  end.

Definition calculateCost (analysis : TokenAnalysis) : CostEstimate :=
  let pricing := getPricing (tm_name (model analysis)) in
  let hasActivity :=
    bool_decide (0 < assistantMessageCount analysis)%Z
    && (bool_decide (0 < inputTokens analysis)%Z
        || bool_decide (0 < outputTokens analysis)%Z) in
  let isSubscription := hasActivity && bool_decide (sessionCost analysis = 0) in
  let estimatedInputCost := perMillion (inputTokens analysis) (mp_input pricing) in
  let estimatedOutputCost :=
    perMillion (outputTokens analysis + reasoningTokens analysis) (mp_output pricing) in
  let estimatedCacheReadCost :=
    perMillion (cacheReadTokens analysis) (mp_cacheRead pricing) in
  let estimatedCacheWriteCost :=
    perMillion (cacheWriteTokens analysis) (mp_cacheWrite pricing) in
  let estimatedSessionCost :=
    estimatedInputCost + estimatedOutputCost + estimatedCacheReadCost
    + estimatedCacheWriteCost in
  {| isSubscription := isSubscription;
     apiSessionCost := sessionCost analysis;
     apiMostRecentCost := mostRecentCost analysis;
     estimatedSessionCost := estimatedSessionCost;
     estimatedInputCost := estimatedInputCost;
     estimatedOutputCost := estimatedOutputCost;
     estimatedCacheReadCost := estimatedCacheReadCost;
     estimatedCacheWriteCost := estimatedCacheWriteCost;
     pricePerMillionInput := mp_input pricing;
     pricePerMillionOutput := mp_output pricing;
     pricePerMillionCacheRead := mp_cacheRead pricing;
     pricePerMillionCacheWrite := mp_cacheWrite pricing;
     est_inputTokens := inputTokens analysis;
     est_outputTokens := outputTokens analysis;
     est_reasoningTokens := reasoningTokens analysis;
     est_cacheReadTokens := cacheReadTokens analysis;
     est_cacheWriteTokens := cacheWriteTokens analysis |}.

(** The lookup as the specification words it: among the keys that are a
    case-insensitive prefix of the name, the longest one (the first of
    them in catalog order when several have that length). *)
Definition longestPrefixEntry (lowerModel : string) : option (string * ModelPricing) :=
  foldr (fun kv best =>
           if Js.startsWith lowerModel (Js.toLowerCase kv.1) then
             match best with
             | Some b =>
                 if (String.length b.1 <=? String.length kv.1)%nat
                 then Some kv else Some b
             | None => Some kv
             end
           else best)
        None pricingData.

Definition getPricing_spec (modelName : string) : ModelPricing :=
  let normalizedName := normalizeModelName modelName in
  match entry normalizedName with
  | Some pricing => pricing
  | None =>
      match longestPrefixEntry (Js.toLowerCase normalizedName) with
      | Some kv => kv.2
      | None => default builtinPricing (entry "default")
      end
  end.

End Calculator.
End Cost.

(** ** ContextAnalyzer, the estimate path (plugin/tokenscope-lib/context.ts) *)

Module Context.
Import Types.

Record ExportedPart := {
  ep_type : string;
  ep_tool : option string }.

Inductive ExportedRole := RoleUser | RoleAssistant.

Record ExportedMessageInfo := {
  em_role : ExportedRole;
  em_system : option (list string);
  em_tools : option (list (string * bool));
  em_tokens : option TokenUsage }.

Record ExportedMessage := {
  em_info : ExportedMessageInfo;
  em_parts : list ExportedPart }.

Record ExportedSession := { messages : list ExportedMessage }.

Record ContextComponent := {
  tokens : Z;
  identified : bool }.

(** [ContextBreakdown]; the bucket-specific members ([toolCount],
    [components], [fileCount], [sources]) stand next to their bucket. *)
Record ContextBreakdown := {
  baseSystemPrompt : ContextComponent;
  toolDefinitions : ContextComponent;
  toolCount : Z;
  environmentContext : ContextComponent;
  components : list string;
  projectTree : ContextComponent;
  fileCount : Z;
  customInstructions : ContextComponent;
  sources : list string;
  totalCachedContext : Z }.

(** The breakdown [analyzeContextBreakdown] starts from. *)
Definition emptyBreakdown : ContextBreakdown :=
  {| baseSystemPrompt := {| tokens := 0; identified := false |};
     toolDefinitions := {| tokens := 0; identified := false |};
     toolCount := 0;
     environmentContext := {| tokens := 0; identified := false |};
     components := [];
     projectTree := {| tokens := 0; identified := false |};
     fileCount := 0;
     customInstructions := {| tokens := 0; identified := false |};
     sources := [];
     totalCachedContext := 0 |}.

(** [tools[name] = enabled] on an object literal: the assignment of a
    boolean to [__proto__] makes no key. *)
Definition setTool (name : string) (enabled : bool) (tools : gmap string bool)
    : gmap string bool :=
  if bool_decide (name = "__proto__") then tools else <[name := enabled]> tools.

Definition extractEnabledTools (exported : ExportedSession) : gmap string bool :=
  let tools :=
    foldl (fun tools message =>
             match em_tools (em_info message) with
             | Some entries =>
                 foldl (fun tools kv => setTool kv.1 kv.2 tools) tools entries
             | None => tools
             end)
          (∅ : gmap string bool) (messages exported) in
  if bool_decide (size tools = 0%nat) then
    foldl (fun tools message =>
             foldl (fun tools part =>
                      match ep_tool part with
                      | Some tool =>
                          if bool_decide (ep_type part = "tool") && Js.truthy tool
                          then setTool tool true tools else tools
                      | None => tools
                      end)
                   tools (em_parts message))
          tools (messages exported)
  else tools.

(** What the loop tests of a message:
    [role === "assistant" && tokens?.cache?.write]. *)
Definition written (message : ExportedMessage) : Z :=
  match em_role (em_info message) with
  | RoleAssistant => Js.numOr0 (em_tokens (em_info message) ≫= cacheWrite)
  | RoleUser => 0
  end.

(** The cache-write count of the first assistant message that has a truthy
    one, 0 when there is none. *)
Definition firstCacheWrite (exported : ExportedSession) : Z :=
  default 0 (written <$> List.find (fun message => negb (written message =? 0))
                                   (messages exported)).

Definition estimateContextFromCacheTokens
    (exported : ExportedSession) (breakdown : ContextBreakdown) : ContextBreakdown :=
  let totalCachedTokens := firstCacheWrite exported in
  let enabledTools := extractEnabledTools exported in
  let enabledToolCount := Z.of_nat (size enabledTools) in
  if totalCachedTokens =? 0 then breakdown
  else
    let estimatedToolTokens := enabledToolCount * 350 in
    let remainingTokens := totalCachedTokens - estimatedToolTokens - 150 - 500 in
    {| baseSystemPrompt := {| tokens := Z.max 0 remainingTokens; identified := false |};
       toolDefinitions := {| tokens := estimatedToolTokens; identified := false |};
       toolCount := enabledToolCount;
       environmentContext := {| tokens := 150; identified := false |};
       components := ["working-dir"; "platform"; "git-status"; "date"];
       projectTree := {| tokens := 500; identified := false |};
       fileCount := fileCount breakdown;
       customInstructions := customInstructions breakdown;
       sources := sources breakdown;
       totalCachedContext := totalCachedTokens |}.

(** The sum of the five buckets. *)
Definition bucketSum (b : ContextBreakdown) : Z :=
  tokens (baseSystemPrompt b) + tokens (toolDefinitions b)
  + tokens (environmentContext b) + tokens (projectTree b)
  + tokens (customInstructions b).

End Context.

(** ** SubagentAnalyzer (plugin/tokenscope-lib/subagent.ts) *)

Module Subagent.
Import Types.

Record SubagentSummary := {
  sa_sessionID : string;
  sa_title : string;
  sa_agentType : string;
  sa_inputTokens : Z;
  sa_outputTokens : Z;
  sa_reasoningTokens : Z;
  sa_cacheReadTokens : Z;
  sa_cacheWriteTokens : Z;
  sa_totalTokens : Z;
  sa_apiCost : Qc;
  sa_estimatedCost : Qc;
  sa_assistantMessageCount : Z }.

Record SubagentAnalysis := {
  subagents : list SubagentSummary;
  totalInputTokens : Z;
  totalOutputTokens : Z;
  totalReasoningTokens : Z;
  totalCacheReadTokens : Z;
  totalCacheWriteTokens : Z;
  totalTokens : Z;
  totalApiCost : Qc;
  totalEstimatedCost : Qc;
  totalApiCalls : Z }.

(** The session store behind [client.session]: [None] when the call throws
    or does not answer with an array. *)
Record Client := {
  children : string → option (list ChildSession);
  messages : string → option (list SessionMessage) }.

(** The match of [/@(\w+)\s+subagent/i] in [title]: its first group. *)
Fixpoint matchAgentTag (title : string) : option string :=
  match title with
  | EmptyString => None
  | String c rest =>
      let here :=
        if decide (c = "@"%char) then
          let '(word, afterWord) := Js.span Js.isWordChar rest in
          let '(space, afterSpace) := Js.span Js.isWhiteSpace afterWord in
          if Js.truthy word && Js.truthy space
             && Js.startsWith (Js.toLowerCase afterSpace) "subagent"
          then Some word else None
        else None in
      match here with
      | Some word => Some word
      | None => matchAgentTag rest
      end
  end.

Definition extractAgentType (title : string) : string :=
  match matchAgentTag title with
  | Some tag => tag
  | None =>
      let first := Js.toLowerCase (Js.span (fun c => negb (Js.isWhiteSpace c)) title).1 in
      if Js.truthy first then first else "subagent"
  end.

Definition emptyAnalysis : SubagentAnalysis :=
  {| subagents := []; totalInputTokens := 0; totalOutputTokens := 0;
     totalReasoningTokens := 0; totalCacheReadTokens := 0;
     totalCacheWriteTokens := 0; totalTokens := 0; totalApiCost := 0%Qc;
     totalEstimatedCost := 0%Qc; totalApiCalls := 0 |}.

(** The first block of the loop body: one child's own summary. *)
Definition addSummary (result : SubagentAnalysis) (summary : SubagentSummary) :=
  {| subagents := subagents result ++ [summary];
     totalInputTokens := totalInputTokens result + sa_inputTokens summary;
     totalOutputTokens := totalOutputTokens result + sa_outputTokens summary;
     totalReasoningTokens := totalReasoningTokens result + sa_reasoningTokens summary;
     totalCacheReadTokens := totalCacheReadTokens result + sa_cacheReadTokens summary;
     totalCacheWriteTokens := totalCacheWriteTokens result + sa_cacheWriteTokens summary;
     totalTokens := totalTokens result + sa_totalTokens summary;
     totalApiCost := (totalApiCost result + sa_apiCost summary)%Qc;
     totalEstimatedCost := (totalEstimatedCost result + sa_estimatedCost summary)%Qc;
     totalApiCalls := totalApiCalls result + sa_assistantMessageCount summary |}.

(** The second block of the loop body: the analysis of the child's own
    children. *)
Definition addNested (result nested : SubagentAnalysis) :=
  {| subagents := subagents result ++ subagents nested;
     totalInputTokens := totalInputTokens result + totalInputTokens nested;
     totalOutputTokens := totalOutputTokens result + totalOutputTokens nested;
     totalReasoningTokens := totalReasoningTokens result + totalReasoningTokens nested;
     totalCacheReadTokens := totalCacheReadTokens result + totalCacheReadTokens nested;
     totalCacheWriteTokens := totalCacheWriteTokens result + totalCacheWriteTokens nested;
     totalTokens := totalTokens result + totalTokens nested;
     totalApiCost := (totalApiCost result + totalApiCost nested)%Qc;
     totalEstimatedCost := (totalEstimatedCost result + totalEstimatedCost nested)%Qc;
     totalApiCalls := totalApiCalls result + totalApiCalls nested |}.

Section Analyzer.
Variable client : Client.
Variable pricingData : list (string * ModelPricing).

(** The telemetry of one session summed over its assistant messages. *)
Record Usage := {
  u_input : Z; u_output : Z; u_reasoning : Z; u_cacheRead : Z; u_cacheWrite : Z;
  u_apiCost : Qc; u_assistantMessageCount : Z; u_modelName : string }.

Definition sumUsage (msgs : list SessionMessage) : Usage :=
  foldl (fun u message =>
           let info := sm_info message in
           if bool_decide (mi_role info = "assistant") then
             let t := mi_tokens info in
             {| u_input := u_input u + Js.numOr0 (t ≫= tu_input);
                u_output := u_output u + Js.numOr0 (t ≫= tu_output);
                u_reasoning := u_reasoning u + Js.numOr0 (t ≫= tu_reasoning);
                u_cacheRead := u_cacheRead u + Js.numOr0 (t ≫= cacheRead);
                u_cacheWrite := u_cacheWrite u + Js.numOr0 (t ≫= cacheWrite);
                u_apiCost := (u_apiCost u + default 0%Qc (mi_cost info))%Qc;
                u_assistantMessageCount := u_assistantMessageCount u + 1;
                u_modelName :=
                  match mi_modelID info with
                  | Some id => if Js.truthy id then id else u_modelName u
                  | None => u_modelName u
                  end |}
           else u)
        {| u_input := 0; u_output := 0; u_reasoning := 0; u_cacheRead := 0;
           u_cacheWrite := 0; u_apiCost := 0%Qc; u_assistantMessageCount := 0;
           u_modelName := "unknown" |}
        msgs.

(** [null] is [None]. *)
Definition analyzeChildSession (child : ChildSession) : option SubagentSummary :=
  match messages client (ch_id child) with
  | None | Some [] => None
  | Some msgs =>
      let u := sumUsage msgs in
      let pricing := Cost.getPricing pricingData (u_modelName u) in
      Some {|
        sa_sessionID := ch_id child;
        sa_title := ch_title child;
        sa_agentType := extractAgentType (ch_title child);
        sa_inputTokens := u_input u;
        sa_outputTokens := u_output u;
        sa_reasoningTokens := u_reasoning u;
        sa_cacheReadTokens := u_cacheRead u;
        sa_cacheWriteTokens := u_cacheWrite u;
        sa_totalTokens :=
          u_input u + u_output u + u_reasoning u + u_cacheRead u + u_cacheWrite u;
        sa_apiCost := u_apiCost u;
        sa_estimatedCost :=
          (Cost.perMillion (u_input u) (mp_input pricing)
           + Cost.perMillion (u_output u + u_reasoning u) (mp_output pricing)
           + Cost.perMillion (u_cacheRead u) (mp_cacheRead pricing)
           + Cost.perMillion (u_cacheWrite u) (mp_cacheWrite pricing))%Qc;
        sa_assistantMessageCount := u_assistantMessageCount u |}
  end.

(** The body of the loop over the children; [recurse] is the call of
    [analyzeChildSessions] on a child. *)
Definition visit (recurse : string → option SubagentAnalysis)
    (acc : option SubagentAnalysis) (child : ChildSession)
    : option SubagentAnalysis :=
  result ← acc;
  let result :=
    match analyzeChildSession child with
    | Some summary => addSummary result summary
    | None => result
    end in
  nestedAnalysis ← recurse (ch_id child);
  Some (addNested result nestedAnalysis).

(** The method calls itself on every child without any other bound; [fuel]
    bounds the depth of these calls, and [None] says that it was used up
    before the call returned. *)
Fixpoint analyzeChildSessions (fuel : nat) (parentSessionID : string)
    : option SubagentAnalysis :=
  match fuel with
  | O => None
  | S fuel =>
      match children client parentSessionID with
      | None => Some emptyAnalysis
      | Some kids => foldl (visit (analyzeChildSessions fuel)) (Some emptyAnalysis) kids
      end
  end.

End Analyzer.
End Subagent.

(** ** SkillAnalyzer, the loaded skills (plugin/tokenscope-lib/skill.ts) *)

Module Skill.
Import Types Promise Tokenizer.
Local Open Scope async_scope.

Record LoadedSkill := {
  ls_name : string;
  ls_callCount : Z;
  ls_firstMessageIndex : Z;
  ls_tokens : Z;
  ls_totalTokens : Z;
  ls_content : string }.

(** A value of [skillMap]. *)
Record SkillData := {
  sd_name : string;
  sd_callCount : Z;
  sd_firstMessageIndex : Z;
  sd_tokens : Z;
  sd_content : string }.

(** Truthiness and [String(...)] of a value. *)
Definition valueTruthy (v : JsValue) : bool :=
  match v with
  | JNull => false
  | JBool b => b
  | JNum n => negb (n =? 0)
  | JStr s => Js.truthy s
  | JObject _ => true
  end.

Definition valueString (v : JsValue) : string :=
  match v with
  | JNull => "null"
  | JBool b => if b then "true" else "false"
  | JNum n => pretty n
  | JStr s => s
  | JObject rendering => rendering
  end.

(** [o.name] of an object given by its entries. *)
Definition member (key : string) (o : list (string * JsValue)) : option JsValue :=
  snd <$> List.find (fun kv => bool_decide (kv.1 = key)) o.

(** The match of [/Loaded skill:\s*(.+)/i] in [title]: its first group.
    After the leftmost "loaded skill:" the white space is skipped and the
    group runs to the end of the line; when only white space follows, the
    group is one of its characters, if one of them is not a line
    terminator. *)
Fixpoint matchLoadedSkill (title : string) : option string :=
  match title with
  | EmptyString => None
  | String _ rest =>
      if Js.startsWith (Js.toLowerCase title) "loaded skill:" then
        let after := String.substring 13 (String.length title - 13) title in
        let '(space, text) := Js.span Js.isWhiteSpace after in
        if Js.truthy text then
          Some (Js.span (fun c => negb (Js.isLineTerminator c)) text).1
        else
          let '(_, tail) := Js.span Js.isLineTerminator (String.rev space) in
          match tail with
          | String c _ => Some (String c EmptyString)
          | EmptyString => None
          end
      else matchLoadedSkill rest
  end.

(** [o && typeof o === "object" && o.name], rendered by [String]. *)
Definition truthyName (o : option (list (string * JsValue))) : option string :=
  v ← o ≫= member "name";
  if valueTruthy v then Some (valueString v) else None.

(** [undefined] is [None]. *)
Definition extractSkillName (state : ToolState) : option string :=
  match truthyName (ts_input state) with
  | Some name => Some name
  | None =>
      match truthyName (ts_metadata state) with
      | Some name => Some name
      | None => Js.trim <$> (ts_title state ≫= matchLoadedSkill)
      end
  end.

(** [skillMap.get(name)] *)
Definition getSkill (name : string) (skillMap : list (string * SkillData))
    : option SkillData :=
  snd <$> List.find (fun kv => bool_decide (kv.1 = name)) skillMap.

(** [existing.callCount++] on the entry of [name]. *)
Definition bumpSkill (name : string) (skillMap : list (string * SkillData))
    : list (string * SkillData) :=
  (fun kv : string * SkillData =>
     if bool_decide (kv.1 = name) then
       (kv.1, {| sd_name := sd_name kv.2; sd_callCount := sd_callCount kv.2 + 1;
                 sd_firstMessageIndex := sd_firstMessageIndex kv.2;
                 sd_tokens := sd_tokens kv.2; sd_content := sd_content kv.2 |})
     else kv) <$> skillMap.

Section Analyzer.
Variable vendor : Vendor.

(** The body of the inner loop, for one part of a message. *)
Definition visitPart (tokenModel : TokenModel) (messageIndex : Z)
    (skillMap : list (string * SkillData)) (part : SessionMessagePart)
    : Task (list (string * SkillData)) :=
  match part with
  | ToolPart tool state =>
      if bool_decide (tool = "skill") then
        match ts_status state with
        | StCompleted =>
            match extractSkillName state with
            | Some skillName =>
                let content := Js.trim (default "" (ts_output state)) in
                if Js.truthy skillName && Js.truthy content then
                  match getSkill skillName skillMap with
                  | Some _ => ret (bumpSkill skillName skillMap)
                  | None =>
                      tokens <- await (countTokens vendor content tokenModel) ;;
                      ret (skillMap ++ [(skillName,
                             {| sd_name := skillName;
                                sd_callCount := 1;
                                sd_firstMessageIndex := messageIndex;
                                sd_tokens := tokens;
                                sd_content :=
                                  if (500 <? String.length content)%nat
                                  then Js.substring0 500 content +:+ "..."
                                  else content |})])
                  end
                else ret skillMap
            | None => ret skillMap
            end
        | _ => ret skillMap
        end
      else ret skillMap
  | _ => ret skillMap
  end.

Definition toLoadedSkill (skillData : SkillData) : LoadedSkill :=
  {| ls_name := sd_name skillData;
     ls_callCount := sd_callCount skillData;
     ls_firstMessageIndex := sd_firstMessageIndex skillData;
     ls_tokens := sd_tokens skillData;
     ls_totalTokens := sd_tokens skillData * sd_callCount skillData;
     ls_content := sd_content skillData |}.

(** The loop over the messages: the skill map it builds. *)
Definition collectSkills (msgs : list SessionMessage) (tokenModel : TokenModel)
    : Task (list (string * SkillData)) :=
  st <- forEach msgs
          (fun (st : Z * list (string * SkillData)) message =>
             let role := mi_role (sm_info message) in
             let messageIndex :=
               if bool_decide (role = "user") || bool_decide (role = "assistant")
               then st.1 + 1 else st.1 in
             skillMap <- forEach (sm_parts message)
                           (visitPart tokenModel messageIndex) st.2 ;;
             ret (messageIndex, skillMap))
          (0, []) ;;
  ret st.2.

Definition getLoadedSkills (msgs : list SessionMessage) (tokenModel : TokenModel)
    : Task (list LoadedSkill * Z) :=
  skillMap <- collectSkills msgs tokenModel ;;
  let skills := (fun kv => toLoadedSkill kv.2) <$> skillMap in
  let totalTokens := foldl (fun total skill => total + ls_totalTokens skill) 0 skills in
  ret (Js.sortDesc ls_totalTokens skills, totalTokens).

End Analyzer.
End Skill.

(** ** ContentCollector and TokenAnalysisEngine
       (plugin/tokenscope-lib/analyzer.ts) *)

Module Analyzer.
Import Types Promise Tokenizer.
Local Open Scope async_scope.

(** The separator ["\n\n"]. *)
Definition blankLine : string :=
  String (ascii_of_nat 10) (String (ascii_of_nat 10) EmptyString).

(** *** ContentCollector *)

(** [parts.filter(isTextPart).map(text ?? "").map(trim).filter(Boolean).join("\n\n")] *)
Definition extractText (parts : list SessionMessagePart) : string :=
  let texts :=
    omap (fun part =>
            match part with
            | TextPart text =>
                let t := Js.trim (default "" text) in
                if Js.truthy t then Some t else None
            | _ => None
            end) parts in
  match texts with
  | [] => EmptyString
  | t :: rest => foldl (fun joined u => joined +:+ blankLine +:+ u) t rest
  end.

Definition identifySystemPrompt (content : string) (index : nat) : string :=
  let lower := Js.toLowerCase content in
  let has := Js.includes lower in
  if has "opencode" && has "cli" && (500 <? String.length content)%nat
  then "System#MainPrompt"
  else if has "opencode" && has "cli" && (String.length content <=? 500)%nat
  then "System#ShortPrompt"
  else if has "agent" && has "mode" then "System#AgentMode"
  else if has "permission" || has "allowed" || has "deny" then "System#Permissions"
  else if has "tool" && (has "rule" || has "guideline") then "System#ToolRules"
  else if has "format" || has "style" || has "concise" then "System#Formatting"
  else if has "project" || has "repository" || has "codebase"
  then "System#ProjectContext"
  else if has "session" || has "context" || has "memory" then "System#SessionMgmt"
  else if Js.includes content "@"
          && (Js.includes content ".md" || Js.includes content ".txt")
  then "System#FileRefs"
  else if Js.includes content "name:" && Js.includes content "description:"
  then "System#AgentDef"
  else if has "code" && (has "convention" || has "standard")
  then "System#CodeGuidelines"
  else "System#" +:+ pretty index.

(** [prompts.set(content, content)] on a [Map] in insertion order. *)
Definition addPrompt (prompts : list string) (content : string) : list string :=
  if bool_decide (content ∈ prompts) then prompts else prompts ++ [content].

Definition collectSystemPrompts (msgs : list SessionMessage) : list CategoryEntrySource :=
  let prompts :=
    foldl (fun prompts message =>
             let role := mi_role (sm_info message) in
             let prompts :=
               if bool_decide (role = "system") then
                 let content := extractText (sm_parts message) in
                 if Js.truthy content then addPrompt prompts content else prompts
               else prompts in
             if bool_decide (role = "assistant") then
               foldl (fun prompts prompt =>
                        let trimmed := Js.trim prompt in
                        if Js.truthy trimmed then addPrompt prompts trimmed else prompts)
                     prompts (default [] (mi_system (sm_info message)))
             else prompts)
          [] msgs in
  imap (fun index content =>
          {| src_label := identifySystemPrompt content (index + 1);
             src_content := content |})
       prompts.

Definition capitalize (value : string) : string :=
  match value with
  | EmptyString => value
  | String c rest => String (Js.upperChar c) rest
  end.

Definition collectMessageTexts (msgs : list SessionMessage) (role : string)
    : list CategoryEntrySource :=
  foldl (fun results message =>
           if bool_decide (mi_role (sm_info message) = role) then
             let content := extractText (sm_parts message) in
             if Js.truthy content then
               results ++ [{| src_label := capitalize role +:+ "#"
                                             +:+ pretty (S (length results));
                              src_content := content |}]
             else results
           else results)
        [] msgs.

(** [toolOutputs.set(toolName, existing + separator + output)] on a [Map] in
    insertion order. *)
Fixpoint appendOutput (toolName output : string) (toolOutputs : list (string * string))
    : list (string * string) :=
  match toolOutputs with
  | [] => [(toolName, output)]
  | (name, existing) :: rest =>
      if bool_decide (name = toolName) then
        (name, existing +:+ (if Js.truthy existing then blankLine else "") +:+ output)
        :: rest
      else (name, existing) :: appendOutput toolName output rest
  end.

Definition collectToolOutputs (msgs : list SessionMessage) : list CategoryEntrySource :=
  let toolOutputs :=
    foldl (fun toolOutputs message =>
             foldl (fun toolOutputs part =>
                      match part with
                      | ToolPart tool state =>
                          match ts_status state with
                          | StCompleted =>
                              let output := Js.trim (default "" (ts_output state)) in
                              if Js.truthy output then
                                appendOutput (if Js.truthy tool then tool else "tool")
                                             output toolOutputs
                              else toolOutputs
                          | _ => toolOutputs
                          end
                      | _ => toolOutputs
                      end)
                   toolOutputs (sm_parts message))
          [] msgs in
  (fun kv => {| src_label := kv.1; src_content := kv.2 |}) <$> toolOutputs.

Fixpoint countCallOf (toolName : string) (toolCounts : list (string * Z))
    : list (string * Z) :=
  match toolCounts with
  | [] => [(toolName, 1)]
  | (name, n) :: rest =>
      if bool_decide (name = toolName) then (name, n + 1) :: rest
      else (name, n) :: countCallOf toolName rest
  end.

Definition collectToolCallCounts (msgs : list SessionMessage) : list (string * Z) :=
  foldl (fun toolCounts message =>
           foldl (fun toolCounts part =>
                    match part with
                    | ToolPart tool _ =>
                        countCallOf (if Js.truthy tool then tool else "tool") toolCounts
                    | _ => toolCounts
                    end)
                 toolCounts (sm_parts message))
        [] msgs.

(** [Array.prototype.sort()] on strings: ascending by code units. *)
Fixpoint insertString (x : string) (l : list string) : list string :=
  match l with
  | [] => [x]
  | y :: r => if String.ltb y x then y :: insertString x r else x :: l
  end.

Definition collectAllToolsCalled (msgs : list SessionMessage) : list string :=
  foldr insertString [] (fst <$> collectToolCallCounts msgs).

Definition collectReasoningTexts (msgs : list SessionMessage) : list CategoryEntrySource :=
  foldl (fun results message =>
           foldl (fun results part =>
                    match part with
                    | ReasoningPart text =>
                        let t := Js.trim (default "" text) in
                        if Js.truthy t then
                          results ++ [{| src_label := "Reasoning#"
                                                        +:+ pretty (S (length results));
                                         src_content := t |}]
                        else results
                    | _ => results
                    end)
                 results (sm_parts message))
        [] msgs.

(** *** TokenAnalysisEngine *)

(** [Promise.all] of five calls: started in order, then resumed in turn. *)
Definition all5 {St A} (t1 t2 t3 t4 t5 : Async St A) : Async St (A * A * A * A * A) :=
  r <- all2 t1 (all2 t2 (all2 t3 (all2 t4 t5))) ;;
  let '(a, (b, (c, (d, e)))) := r in
  ret (a, b, c, d, e).

(** The record update [analysis.categories.system = ...]. *)
Definition setSystem (c : Categories) (s : CategorySummary) : Categories :=
  {| system := s; user := user c; assistant := assistant c; tools := tools c;
     reasoning := reasoning c |}.

(** One element of [assistants]. *)
Record Telemetry := {
  t_tokens : option TokenUsage;
  t_cost : Qc }.

(** The sum that decides whether a call had usage. *)
Definition usageSum (t : TokenUsage) : Z :=
  Js.numOr0 (tu_input t) + Js.numOr0 (tu_output t) + Js.numOr0 (tu_reasoning t)
  + Js.numOr0 (cacheRead t) + Js.numOr0 (cacheWrite t).

Definition assistantsOf (msgs : list SessionMessage) : list Telemetry :=
  omap (fun m =>
          let info := sm_info m in
          if bool_decide (mi_role info = "assistant")
             && (bool_decide (is_Some (mi_tokens info))
                 || bool_decide (is_Some (mi_cost info)))
          then Some {| t_tokens := mi_tokens info; t_cost := default 0%Qc (mi_cost info) |}
          else None)
       msgs.

Definition mostRecentWithUsage (assistants : list Telemetry) : option Telemetry :=
  match List.find (fun a => match t_tokens a with
                            | Some t => 0 <? usageSum t
                            | None => false
                            end)
                  (rev assistants) with
  | Some a => Some a
  | None => last assistants
  end.

Definition inferredEntry (inferredSystemTokens : Z) : CategoryEntry :=
  {| ce_label := "System (inferred from API)"; ce_tokens := inferredSystemTokens |}.

Definition applyTelemetryAdjustments (analysis : TokenAnalysis)
    (msgs : list SessionMessage) : TokenAnalysis :=
  let assistants := assistantsOf msgs in
  let total (f : TokenUsage → option Z) :=
    foldl (fun sum a => sum + Js.numOr0 (t_tokens a ≫= f)) 0 assistants in
  let totalCost := foldl (fun sum a => (sum + t_cost a)%Qc) 0%Qc assistants in
  let recent := mostRecentWithUsage assistants in
  let recentOf (f : TokenUsage → option Z) :=
    Js.numOr0 (a ← recent; t ← t_tokens a; f t) in
  let mostRecentCost := default 0%Qc (t_cost <$> recent) in
  let mostRecentInput := recentOf tu_input in
  let mostRecentCacheRead := recentOf cacheRead in
  let cats := categories analysis in
  let recentApiInputTotal := mostRecentInput + mostRecentCacheRead in
  let localUserAndTools := cs_totalTokens (user cats) + cs_totalTokens (tools cats) in
  let inferredSystemTokens := Z.max 0 (recentApiInputTotal - localUserAndTools) in
  let cats' :=
    if (0 <? inferredSystemTokens) && (cs_totalTokens (system cats) =? 0) then
      setSystem cats
        {| cs_label := cs_label (system cats);
           cs_totalTokens := inferredSystemTokens;
           cs_entries := [inferredEntry inferredSystemTokens];
           cs_allEntries := [inferredEntry inferredSystemTokens] |}
    else cats in
  {| sessionID := sessionID analysis;
     model := model analysis;
     categories := cats';
     totalTokens :=
       cs_totalTokens (system cats') + cs_totalTokens (user cats')
       + cs_totalTokens (assistant cats') + cs_totalTokens (tools cats')
       + cs_totalTokens (reasoning cats');
     inputTokens := total tu_input;
     outputTokens := total tu_output;
     reasoningTokens := total tu_reasoning;
     cacheReadTokens := total cacheRead;
     cacheWriteTokens := total cacheWrite;
     assistantMessageCount := Z.of_nat (length assistants);
     mostRecentInput := mostRecentInput;
     mostRecentOutput := recentOf tu_output;
     mostRecentReasoning := recentOf tu_reasoning;
     mostRecentCacheRead := mostRecentCacheRead;
     mostRecentCacheWrite := recentOf cacheWrite;
     sessionCost := totalCost;
     mostRecentCost := mostRecentCost;
     allToolsCalled := allToolsCalled analysis;
     toolCallCounts := toolCallCounts analysis |}.

Section Engine.
Variable vendor : Vendor.

Definition buildCategory (label : string) (sources : list CategoryEntrySource)
    (tokenModel : TokenModel) (entryLimit : Z) : Task CategorySummary :=
  entries <- forEach sources
               (fun (entries : list CategoryEntry) source =>
                  tokens <- await (countTokens vendor (src_content source) tokenModel) ;;
                  ret (if 0 <? tokens
                       then entries ++ [{| ce_label := src_label source; ce_tokens := tokens |}]
                       else entries))
               [] ;;
  let entries := Js.sortDesc ce_tokens entries in
  let limited := Js.slice0 entryLimit entries in
  let totalTokens := foldl (fun sum entry => sum + ce_tokens entry) 0 entries in
  ret {| cs_label := label; cs_totalTokens := totalTokens;
         cs_entries := limited; cs_allEntries := entries |}.

(** The analysis before the telemetry is applied. *)
Definition localAnalysis (sessionID : string) (msgs : list SessionMessage)
    (tokenModel : TokenModel) (cats : Categories) : TokenAnalysis :=
  {| sessionID := sessionID;
     model := tokenModel;
     categories := cats;
     totalTokens :=
       cs_totalTokens (system cats) + cs_totalTokens (user cats)
       + cs_totalTokens (assistant cats) + cs_totalTokens (tools cats)
       + cs_totalTokens (reasoning cats);
     inputTokens := 0; outputTokens := 0; reasoningTokens := 0;
     cacheReadTokens := 0; cacheWriteTokens := 0; assistantMessageCount := 0;
     mostRecentInput := 0; mostRecentOutput := 0; mostRecentReasoning := 0;
     mostRecentCacheRead := 0; mostRecentCacheWrite := 0;
     sessionCost := 0%Qc; mostRecentCost := 0%Qc;
     allToolsCalled := collectAllToolsCalled msgs;
     toolCallCounts := collectToolCallCounts msgs |}.

(** The five categories, tokenized concurrently. *)
Definition buildCategories (msgs : list SessionMessage) (tokenModel : TokenModel)
    (entryLimit : Z) : Task Categories :=
  built <- await (all5
             (buildCategory "system" (collectSystemPrompts msgs) tokenModel entryLimit)
             (buildCategory "user" (collectMessageTexts msgs "user") tokenModel entryLimit)
             (buildCategory "assistant" (collectMessageTexts msgs "assistant")
                            tokenModel entryLimit)
             (buildCategory "tools" (collectToolOutputs msgs) tokenModel entryLimit)
             (buildCategory "reasoning" (collectReasoningTexts msgs) tokenModel entryLimit)) ;;
  let '(system, user, assistant, tools, reasoning) := built in
  ret {| system := system; user := user; assistant := assistant; tools := tools;
         reasoning := reasoning |}.

Definition analyze (sessionID : string) (msgs : list SessionMessage)
    (tokenModel : TokenModel) (entryLimit : Z) : Task TokenAnalysis :=
  cats <- buildCategories msgs tokenModel entryLimit ;;
  ret (applyTelemetryAdjustments (localAnalysis sessionID msgs tokenModel cats) msgs).

End Engine.
End Analyzer.

(** ** The tokenizer tables (plugin/tokenscope-lib/config.ts) *)

Module Config.
Import Types.

Definition DEFAULT_ENTRY_LIMIT : Z := 3.

(** The names that every object literal answers to without having them as
    its own: the members of [Object.prototype]. *)
Definition inherited : list string :=
  [ "constructor"; "__defineGetter__"; "__defineSetter__"; "hasOwnProperty";
    "__lookupGetter__"; "__lookupSetter__"; "isPrototypeOf";
    "propertyIsEnumerable"; "toString"; "valueOf"; "__proto__"; "toLocaleString" ].

(** [record[key]] on an object literal given by its entries, for a key that
    is not [inherited]: the own value, [None] for [undefined]. *)
Definition member {V} (record : list (string * V)) (key : string) : option V :=
  snd <$> List.find (fun kv => bool_decide (kv.1 = key)) record.

Definition OPENAI_MODEL_MAP : list (string * string) :=
  [ ("gpt-5", "gpt-4o");
    ("o4-mini", "gpt-4o");
    ("o3", "gpt-4o");
    ("o3-mini", "gpt-4o");
    ("o1", "gpt-4o");
    ("o1-pro", "gpt-4o");
    ("gpt-4.1", "gpt-4o");
    ("gpt-4.1-mini", "gpt-4o");
    ("gpt-4o", "gpt-4o");
    ("gpt-4o-mini", "gpt-4o-mini");
    ("gpt-4-turbo", "gpt-4");
    ("gpt-4", "gpt-4");
    ("gpt-3.5-turbo", "gpt-3.5-turbo");
    ("text-embedding-3-large", "text-embedding-3-large");
    ("text-embedding-3-small", "text-embedding-3-small");
    ("text-embedding-ada-002", "text-embedding-ada-002") ].

Definition TRANSFORMERS_MODEL_MAP : list (string * string) :=
  [ ("claude-opus-4", "Xenova/claude-tokenizer");
    ("claude-sonnet-4", "Xenova/claude-tokenizer");
    ("claude-3.7-sonnet", "Xenova/claude-tokenizer");
    ("claude-3.5-sonnet", "Xenova/claude-tokenizer");
    ("claude-3.5-haiku", "Xenova/claude-tokenizer");
    ("claude-3-opus", "Xenova/claude-tokenizer");
    ("claude-3-sonnet", "Xenova/claude-tokenizer");
    ("claude-3-haiku", "Xenova/claude-tokenizer");
    ("claude-2.1", "Xenova/claude-tokenizer");
    ("claude-2.0", "Xenova/claude-tokenizer");
    ("claude-instant-1.2", "Xenova/claude-tokenizer");
    ("llama-4", "Xenova/llama4-tokenizer");
    ("llama-3.3", "unsloth/Llama-3.3-70B-Instruct");
    ("llama-3.2", "Xenova/Llama-3.2-Tokenizer");
    ("llama-3.1", "Xenova/Meta-Llama-3.1-Tokenizer");
    ("llama-3", "Xenova/llama3-tokenizer-new");
    ("llama-2", "Xenova/llama2-tokenizer");
    ("code-llama", "Xenova/llama-code-tokenizer");
    ("deepseek-r1", "deepseek-ai/DeepSeek-R1");
    ("deepseek-v3", "deepseek-ai/DeepSeek-V3");
    ("deepseek-v2", "deepseek-ai/DeepSeek-V2");
    ("mistral-large", "Xenova/mistral-tokenizer-v3");
    ("mistral-small", "Xenova/mistral-tokenizer-v3");
    ("mistral-nemo", "Xenova/Mistral-Nemo-Instruct-Tokenizer");
    ("devstral-small", "Xenova/Mistral-Nemo-Instruct-Tokenizer");
    ("codestral", "Xenova/mistral-tokenizer-v3") ].

Definition PROVIDER_DEFAULTS : list (string * TokenizerSpec) :=
  [ ("anthropic", Transformers "Xenova/claude-tokenizer");
    ("meta", Transformers "Xenova/Meta-Llama-3.1-Tokenizer");
    ("mistral", Transformers "Xenova/mistral-tokenizer-v3");
    ("deepseek", Transformers "deepseek-ai/DeepSeek-V3");
    ("google", Transformers "google/gemma-2-9b-it") ].

End Config.

(** ** ModelResolver (plugin/tokenscope-lib/analyzer.ts) *)

Module ModelResolver.
Import Types Config.

Record ModelAndProvider := {
  mp_model : TokenModel;
  mp_providerID : string;
  mp_modelID : string }.

(** [value.split("/").pop().toLowerCase().trim()] *)
Definition canonical (value : string) : string :=
  Js.trim (Js.toLowerCase (Js.afterLastSlash value)).

(** [value?.split("/").pop()?.toLowerCase().trim()] *)
Definition canonicalize (value : option string) : option string :=
  canonical <$> value.

Definition mapOpenAI (modelID : option string) : string :=
  match modelID with
  | Some id =>
      if Js.truthy id then default id (member OPENAI_MODEL_MAP id) else "cl100k_base"
  | None => "cl100k_base"
  end.

(** [undefined] is [None]. *)
Definition resolveOpenAIModel (modelID providerID : option string) : option TokenModel :=
  if bool_decide (providerID = Some "openai") || bool_decide (providerID = Some "opencode")
     || bool_decide (providerID = Some "azure")
  then
    let mapped := mapOpenAI modelID in
    Some {| tm_name := default mapped modelID; tm_spec := Tiktoken mapped |}
  else
    id ← modelID;
    mapped ← member OPENAI_MODEL_MAP id;
    if Js.truthy id && Js.truthy mapped
    then Some {| tm_name := id; tm_spec := Tiktoken mapped |}
    else None.

Definition resolveTransformersModel (modelID providerID : option string)
    : option TokenModel :=
  let fromModelMap :=
    id ← modelID;
    hub ← member TRANSFORMERS_MODEL_MAP id;
    if Js.truthy id && Js.truthy hub
    then Some {| tm_name := id; tm_spec := Transformers hub |}
    else None in
  let fromProvider :=
    provider ← providerID;
    spec ← member PROVIDER_DEFAULTS provider;
    if Js.truthy provider
    then Some {| tm_name := default provider modelID; tm_spec := spec |}
    else None in
  let fromPrefix :=
    id ← modelID;
    if Js.startsWith id "claude" then
      Some {| tm_name := id; tm_spec := Transformers "Xenova/claude-tokenizer" |}
    else if Js.startsWith id "llama" then
      Some {| tm_name := id;
              tm_spec := Transformers (default "Xenova/Meta-Llama-3.1-Tokenizer"
                                               (member TRANSFORMERS_MODEL_MAP id)) |}
    else if Js.startsWith id "mistral" then
      Some {| tm_name := id; tm_spec := Transformers "Xenova/mistral-tokenizer-v3" |}
    else if Js.startsWith id "deepseek" then
      Some {| tm_name := id; tm_spec := Transformers "deepseek-ai/DeepSeek-V3" |}
    else None in
  match fromModelMap with
  | Some found => Some found
  | None =>
      match fromProvider with
      | Some found => Some found
      | None => fromPrefix
      end
  end.

(** The body of the loop of [resolveTokenModel], for one message. *)
Definition resolveMessage (message : SessionMessage) : option TokenModel :=
  let modelID := canonicalize (mi_modelID (sm_info message)) in
  let providerID := canonicalize (mi_providerID (sm_info message)) in
  match resolveOpenAIModel modelID providerID with
  | Some openaiModel => Some openaiModel
  | None => resolveTransformersModel modelID providerID
  end.

(** The loop of [resolveTokenModel] over the messages, latest first. *)
Fixpoint firstResolved (reversed : list SessionMessage) : option TokenModel :=
  match reversed with
  | [] => None
  | message :: rest =>
      match resolveMessage message with
      | Some found => Some found
      | None => firstResolved rest
      end
  end.

Definition approx : TokenModel := {| tm_name := "approx"; tm_spec := Approx |}.

Definition resolveTokenModel (msgs : list SessionMessage) : TokenModel :=
  default approx (firstResolved (rev msgs)).

(** Truthiness of an optional string. *)
Definition given (value : option string) : bool :=
  match value with
  | Some v => Js.truthy v
  | None => false
  end.

(** The loop of [resolveModelAndProvider] over the messages, latest first,
    from the ids detected so far; it stops at a message that has both ids. *)
Fixpoint detect (reversed : list SessionMessage)
    (detectedProviderID detectedModelID : string) : string * string :=
  match reversed with
  | [] => (detectedProviderID, detectedModelID)
  | message :: rest =>
      let providerID := mi_providerID (sm_info message) in
      let modelID := mi_modelID (sm_info message) in
      let detectedProviderID :=
        match providerID with
        | Some provider =>
            if Js.truthy provider && Js.truthy (canonical provider)
            then canonical provider else detectedProviderID
        | None => detectedProviderID
        end in
      let detectedModelID :=
        match modelID with
        | Some id => if Js.truthy id then id else detectedModelID
        | None => detectedModelID
        end in
      if given providerID && given modelID
      then (detectedProviderID, detectedModelID)
      else detect rest detectedProviderID detectedModelID
  end.

Definition resolveModelAndProvider (msgs : list SessionMessage) : ModelAndProvider :=
  let detected := detect (rev msgs) "anthropic" "claude-sonnet-4-20250514" in
  {| mp_model := resolveTokenModel msgs;
     mp_providerID := detected.1;
     mp_modelID := detected.2 |}.

End ModelResolver.

(** ** ContextAnalyzer, the export path (plugin/tokenscope-lib/context.ts) *)

Module ContextTools.
Import Types Context.

(** [prompts.add(prompt)] on a [Set] in insertion order. *)
Definition add (prompts : list string) (prompt : string) : list string :=
  if bool_decide (prompt ∈ prompts) then prompts else prompts ++ [prompt].

Definition extractSystemPrompts (exported : ExportedSession) : list string :=
  foldl (fun prompts message =>
           match em_role (em_info message), em_system (em_info message) with
           | RoleAssistant, Some system =>
               foldl (fun prompts prompt =>
                        if Js.truthy prompt && Js.truthy (Js.trim prompt)
                        then add prompts (Js.trim prompt) else prompts)
                     prompts system
           | _, _ => prompts
           end)
        [] (messages exported).

Record CacheEfficiency := {
  eff_cacheReadTokens : Z;
  eff_freshInputTokens : Z;
  eff_cacheWriteTokens : Z;
  eff_totalInputTokens : Z;
  eff_cacheHitRate : Qc;
  eff_costWithoutCaching : Qc;
  eff_costWithCaching : Qc;
  eff_costSavings : Qc;
  eff_savingsPercent : Qc;
  eff_effectiveRate : Qc;
  eff_standardRate : Qc }.

Definition calculateCacheEfficiency (exported : ExportedSession) (pricing : ModelPricing)
    : CacheEfficiency :=
  let total (f : TokenUsage → option Z) :=
    foldl (fun sum message =>
             match em_role (em_info message), em_tokens (em_info message) with
             | RoleAssistant, Some tokens => sum + Js.numOr0 (f tokens)
             | _, _ => sum
             end)
          0 (messages exported) in
  let totalCacheRead := total cacheRead in
  let totalFreshInput := total tu_input in
  let totalCacheWrite := total cacheWrite in
  let totalInputTokens := totalCacheRead + totalFreshInput in
  let cacheHitRate :=
    if 0 <? totalInputTokens
    then (Qc_of_Z totalCacheRead / Qc_of_Z totalInputTokens * Qc_of_Z 100)%Qc
    else 0%Qc in
  let costWithoutCaching := Cost.perMillion totalInputTokens (mp_input pricing) in
  let costWithCaching :=
    (Cost.perMillion totalFreshInput (mp_input pricing)
     + Cost.perMillion totalCacheRead (mp_cacheRead pricing))%Qc in
  let costSavings := (costWithoutCaching - costWithCaching)%Qc in
  let savingsPercent :=
    if bool_decide (0 < costWithoutCaching)%Qc
    then (costSavings / costWithoutCaching * Qc_of_Z 100)%Qc
    else 0%Qc in
  let effectiveRate :=
    if 0 <? totalInputTokens
    then (costWithCaching / Qc_of_Z totalInputTokens * Qc_of_Z 1000000)%Qc
    else 0%Qc in
  {| eff_cacheReadTokens := totalCacheRead;
     eff_freshInputTokens := totalFreshInput;
     eff_cacheWriteTokens := totalCacheWrite;
     eff_totalInputTokens := totalInputTokens;
     eff_cacheHitRate := cacheHitRate;
     eff_costWithoutCaching := costWithoutCaching;
     eff_costWithCaching := costWithCaching;
     eff_costSavings := costSavings;
     eff_savingsPercent := savingsPercent;
     eff_effectiveRate := effectiveRate;
     eff_standardRate := mp_input pricing |}.

(** A JSON value found as a tool argument, as far as its type goes. *)
Inductive ArgValue := VArray | VObject | VNull | VNumber | VBoolean | VString.




(** What [extractToolCallData] reads of an exported part: its type, its
    tool, and [state?.input] as the entries of that object. *)
Record ToolCallPart := {
  cp_type : string;
  cp_tool : option string;
  cp_input : option (list (string * ArgValue)) }.






End ContextTools.

(** ** OutputFormatter, the tables of the report
       (plugin/tokenscope-lib/formatter.ts) *)

Module Formatter.
Import Types.

Definition collectTopEntries (analysis : TokenAnalysis) (limit : Z) : list CategoryEntry :=
  let cats := categories analysis in
  let pool :=
    Js.sortDesc ce_tokens
      (filter (fun entry => 0 < ce_tokens entry)
              (cs_allEntries (system cats) ++ cs_allEntries (user cats)
               ++ cs_allEntries (assistant cats) ++ cs_allEntries (tools cats)
               ++ cs_allEntries (reasoning cats))) in
  Js.slice0 limit pool.

Record ToolStats := {
  st_tokens : Z;
  st_calls : Z }.

Record ToolEntry := {
  te_label : string;
  te_tokens : Z;
  te_calls : Z }.

(** [toolStats.set(label, stats)] on a [Map] in insertion order. *)
Fixpoint setStats (label : string) (stats : ToolStats) (toolStats : list (string * ToolStats))
    : list (string * ToolStats) :=
  match toolStats with
  | [] => [(label, stats)]
  | (name, existing) :: rest =>
      if bool_decide (name = label) then (name, stats) :: rest
      else (name, existing) :: setStats label stats rest
  end.

(** [toolStats.get(label)] *)
Definition getStats (label : string) (toolStats : list (string * ToolStats))
    : option ToolStats :=
  snd <$> List.find (fun kv => bool_decide (kv.1 = label)) toolStats.

(** The tool rows that [format] hands to [formatVisualOutput]. *)
Definition toolEntries (analysis : TokenAnalysis) : list ToolEntry :=
  let toolStats :=
    foldl (fun toolStats (counted : string * Z) =>
             setStats counted.1 {| st_tokens := 0; st_calls := counted.2 |} toolStats)
          [] (toolCallCounts analysis) in
  let toolStats :=
    foldl (fun toolStats entry =>
             let existing :=
               default {| st_tokens := 0; st_calls := 0 |}
                       (getStats (ce_label entry) toolStats) in
             setStats (ce_label entry)
                      {| st_tokens := ce_tokens entry; st_calls := st_calls existing |}
                      toolStats)
          toolStats (cs_allEntries (tools (categories analysis))) in
  Js.sortDesc te_tokens
    ((fun kv : string * ToolStats =>
        {| te_label := kv.1; te_tokens := st_tokens kv.2; te_calls := st_calls kv.2 |})
       <$> toolStats).

End Formatter.

(** * Specifications and scenarios

    What the properties below speak of: the reading of the code that does
    without its state, the invariants, and the scenarios of the
    specification as data. *)

Module TokenizerSpec.
Import Types Promise Tokenizer.

(** No tokenizer package installed. *)
Definition noVendor : Vendor := {| js_tiktoken := None; hf_transformers := None |}.

Definition approxModel : TokenModel := {| tm_name := "approx"; tm_spec := Approx |}.

Section Pure.
Variable vendor : Vendor.

(** What [loadTiktokenEncoder] settles with ([None]: it rejects). *)
Definition loadedEncoder (name : string) : option Encoder :=
  match js_tiktoken vendor with
  | None => None
  | Some tiktoken =>
      match getEncoding tiktoken with
      | None => Some fallbackEncoder
      | Some getEnc =>
          match encodingForModel tiktoken ≫= (fun forModel => forModel name) with
          | Some e => Some e
          | None => getEnc "cl100k_base"
          end
      end
  end.

(** What [loadTransformersTokenizer] settles with ([None]: [null]). *)
Definition loadedTokenizer (hub : string) : option HubTokenizer :=
  hf_transformers vendor ≫= (fun transformers => from_pretrained transformers hub).

(** The number that [countTokens] returns from a consistent manager,
    whatever its caches hold ([Runs_countTokens]). *)
Definition tokenCount (content : string) (tokenModel : TokenModel) : Z :=
  let approx := approximateTokenCount content in
  if Js.truthy (Js.trim content) then
    match tm_spec tokenModel with
    | Approx => approx
    | Tiktoken name =>
        match loadedEncoder name with
        | Some e => default approx (encode e content)
        | None => approx
        end
    | Transformers hub =>
        match loadedTokenizer hub ≫= tk_encode with
        | Some enc =>
            match enc content with
            | EncodeThrows => approx
            | EncodedArray n => n
            | EncodedObject len => default approx len
            end
        | None => approx
        end
    end
  else 0.

(** The caches and module promises hold what the packages give. *)
Definition consistent (m : TokenizerManager) : Prop :=
  (∀ name e, tiktokenCache m !! name = Some e →
     loadedEncoder name = Some e ∧ ∃ tiktoken getEnc,
       js_tiktoken vendor = Some tiktoken ∧ getEncoding tiktoken = Some getEnc)
  ∧ (∀ hub t, transformerCache m !! hub = Some t → loadedTokenizer hub = t)
  ∧ (∀ p, tiktokenModule m = Some p → p = js_tiktoken vendor)
  ∧ (∀ p, transformersModule m = Some p → p = hf_transformers vendor).

(** Run alone from a consistent manager, [t] returns [a] after [n] calls of
    [countTokens], and leaves the manager consistent. *)
Definition Runs {A} (t : Task A) (a : A) (n : nat) : Prop :=
  ∀ m, consistent m →
    ∃ m', run t m = (a, m') ∧ consistent m' ∧ calls m' = (n + calls m)%nat.

End Pure.

(** How often the backend call [e] was made. *)
Definition loads (e : BackendEvent) (m : TokenizerManager) : nat :=
  length (filter (fun e' => e' = e) (events m)).

(** Both packages installed: an encoder that counts characters and a
    tokenizer that counts words. *)
Definition charEncoder : Encoder :=
  {| encode := fun text => Some (Z.of_nat (String.length text)) |}.

Definition wordTokenizer : HubTokenizer :=
  {| tk_encode := Some (fun text => EncodedArray (Z.of_nat (length (String.words text)))) |}.

Definition installed : Vendor :=
  {| js_tiktoken := Some {| encodingForModel := Some (fun _ => Some charEncoder);
                            getEncoding := Some (fun _ => Some charEncoder) |};
     hf_transformers := Some {| from_pretrained := fun _ => Some wordTokenizer |} |}.

Definition claudeModel : TokenModel :=
  {| tm_name := "claude-sonnet-4"; tm_spec := Transformers "Xenova/claude-tokenizer" |}.

End TokenizerSpec.

Module CostSpec.
Import Types.

Definition price (input output cacheWrite cacheRead : Z) : ModelPricing :=
  {| mp_input := Qc_of_Z input; mp_output := Qc_of_Z output;
     mp_cacheWrite := Qc_of_Z cacheWrite; mp_cacheRead := Qc_of_Z cacheRead |}.

(** A catalog in which a key is a prefix of a later key. *)
Definition gptCatalog : list (string * ModelPricing) :=
  [ ("gpt-4", price 30 60 0 0);
    ("gpt-4o", price 5 15 0 0);
    ("default", price 1 3 0 0) ].

(** The name is no name of a member of [Object.prototype] (constructor,
    toString, __proto__, ...): the lookup [pricingData[name]] sees the
    catalog's own keys only. *)
Definition plainName (name : string) : bool :=
  negb (bool_decide (name ∈ Config.inherited)).

End CostSpec.

Module ContextSpec.
Import Types Context.

(** A session of one assistant turn that wrote [w] tokens to the cache and
    enabled the tools [toolNames]. *)
Definition oneTurn (w : Z) (toolNames : list string) : ExportedSession :=
  {| messages :=
       [ {| em_info := {| em_role := RoleUser; em_system := None;
                          em_tools := Some ((fun n => (n, true)) <$> toolNames);
                          em_tokens := None |};
            em_parts := [] |};
         {| em_info := {| em_role := RoleAssistant; em_system := None;
                          em_tools := None;
                          em_tokens := Some {| tu_input := Some 12; tu_output := Some 40;
                                               tu_reasoning := None;
                                               tu_cache := Some {| cu_read := Some 0;
                                                                   cu_write := Some w |} |} |};
            em_parts := [] |} ] |}.

Definition tenTools : list string :=
  ["bash"; "read"; "write"; "edit"; "glob"; "grep"; "list"; "task"; "webfetch"; "todowrite"].

End ContextSpec.

Module AnalyzerSpec.
Import Types.

(** The invariant of a category summary: the total is the sum of all
    entries, and the top entries are all entries in descending order of
    their token counts (entries of equal count in their original order),
    cut to the entry limit. *)
Definition summaryInvariant (entryLimit : Z) (c : CategorySummary) : Prop :=
  cs_totalTokens c = foldr Z.add 0 (ce_tokens <$> cs_allEntries c)
  ∧ cs_entries c
    = take (Z.to_nat entryLimit) (Js.sortDesc ce_tokens (cs_allEntries c)).

Definition categoriesInvariant (entryLimit : Z) (cats : Categories) : Prop :=
  summaryInvariant entryLimit (system cats)
  ∧ summaryInvariant entryLimit (user cats)
  ∧ summaryInvariant entryLimit (assistant cats)
  ∧ summaryInvariant entryLimit (tools cats)
  ∧ summaryInvariant entryLimit (reasoning cats).

(** Scenario A of the specification: a system prompt, a user turn and an
    assistant turn with telemetry. *)
Definition scenarioA : list SessionMessage :=
  [ {| sm_info := {| mi_id := "m1"; mi_role := "system"; mi_modelID := None;
                     mi_providerID := None; mi_system := None; mi_tokens := None;
                     mi_cost := None |};
       sm_parts := [TextPart (Some "You are an assistant.")] |};
    {| sm_info := {| mi_id := "m2"; mi_role := "user"; mi_modelID := None;
                     mi_providerID := None; mi_system := None; mi_tokens := None;
                     mi_cost := None |};
       sm_parts := [TextPart (Some "Hello")] |};
    {| sm_info := {| mi_id := "m3"; mi_role := "assistant"; mi_modelID := None;
                     mi_providerID := None; mi_system := None;
                     mi_tokens := Some {| tu_input := Some 10; tu_output := Some 5;
                                          tu_reasoning := None;
                                          tu_cache := Some {| cu_read := Some 2;
                                                              cu_write := Some 0 |} |};
                     mi_cost := Some (Q2Qc (1 # 10000)) |};
       sm_parts := [TextPart (Some "Hi there")] |} ].

End AnalyzerSpec.

Module SubagentSpec.
Import Types Subagent.

(** A finite tree of sessions: a session and the trees of its children. *)
Inductive SessionTree :=
| Node (session : ChildSession) (kids : list SessionTree).

Definition root (t : SessionTree) : ChildSession :=
  match t with Node session _ => session end.

Fixpoint depth (t : SessionTree) : nat :=
  match t with
  | Node _ kids => foldr (fun k d => Nat.max (S (depth k)) d) O kids
  end.

(** The proper descendants of the root, depth first: each child is followed
    by its own descendants. *)
Fixpoint descendants (t : SessionTree) : list ChildSession :=
  match t with
  | Node _ kids => flat_map (fun k => root k :: descendants k) kids
  end.

(** Every node of the tree, the root first. *)
Definition nodes (t : SessionTree) : list ChildSession := root t :: descendants t.

Fixpoint SessionTree_induction (P : SessionTree → Prop)
    (H : ∀ session kids, Forall P kids → P (Node session kids))
    (t : SessionTree) : P t :=
  match t with
  | Node session kids =>
      H session kids
        ((fix all (l : list SessionTree) : Forall P l :=
            match l with
            | [] => @List.Forall_nil _ P
            | k :: l' =>
                @List.Forall_cons _ P k l' (SessionTree_induction P H k) (all l')
            end) kids)
  end.

(** The tree is what the store shows below its root: the store lists, for
    every node, exactly the node's children. *)
Inductive Unfolds (client : Client) : SessionTree → Prop :=
| unfolds_node session kids :
    children client (ch_id session) = Some (root <$> kids) →
    Forall (Unfolds client) kids →
    Unfolds client (Node session kids).

(** [child] is listed by the store among the children of [parent]. *)
Definition childOf (client : Client) (parent child : string) : Prop :=
  ∃ kids, children client parent = Some kids ∧ child ∈ ch_id <$> kids.

(** The analysis that adds up a list of summaries. *)
Definition sumAnalysis (summaries : list SubagentSummary) : SubagentAnalysis :=
  foldl addSummary emptyAnalysis summaries.

(** Scenario D of the specification: A has the children B and C, B has the
    child D; every session has one assistant turn of 100 tokens that cost
    $0.01. *)
Definition turn : SessionMessage :=
  {| sm_info := {| mi_id := "m1"; mi_role := "assistant"; mi_modelID := Some "gpt-4o";
                   mi_providerID := Some "openai"; mi_system := None;
                   mi_tokens := Some {| tu_input := Some 60; tu_output := Some 40;
                                        tu_reasoning := None; tu_cache := None |};
                   mi_cost := Some (Q2Qc (1 # 100)) |};
     sm_parts := [TextPart (Some "done")] |}.

Definition session (id : string) : ChildSession :=
  {| ch_id := id; ch_title := id +:+ " (@general subagent)" |}.

Definition scenarioD : Client :=
  {| children := fun id =>
       if decide (id = "A") then Some [session "B"; session "C"]
       else if decide (id = "B") then Some [session "D"]
       else Some [];
     messages := fun id => Some [turn] |}.

Definition treeD : SessionTree :=
  Node (session "A")
       [Node (session "B") [Node (session "D") []]; Node (session "C") []].

(** A store in which session A lists itself as its child. *)
Definition selfLoop : Client :=
  {| children := fun id => Some [session "A"];
     messages := fun id => Some [turn] |}.

End SubagentSpec.

Module SkillSpec.
Import Types Tokenizer Skill TokenizerSpec.

(** A completed call of the skill tool that names a skill and has an
    output that is not blank: the skill's name and the trimmed output. *)
Definition skillCall (part : SessionMessagePart) : option (string * string) :=
  match part with
  | ToolPart tool state =>
      if decide (tool = "skill") then
        match ts_status state with
        | StCompleted =>
            name ← extractSkillName state;
            let content := Js.trim (default "" (ts_output state)) in
            if Js.truthy name && Js.truthy content then Some (name, content) else None
        | _ => None
        end
      else None
  | _ => None
  end.

(** The trimmed outputs of the calls for the skill [s] that are not blank,
    in transcript order. *)
Definition invocationsOf (s : string) (msgs : list SessionMessage) : list string :=
  omap (fun part =>
          call ← skillCall part;
          if decide (call.1 = s) then Some call.2 else None)
       (flat_map sm_parts msgs).

Section Loaded.
Variable vendor : Vendor.
Variable tokenModel : TokenModel.

(** The entry made for the first call of a skill. *)
Definition firstLoad (messageIndex : Z) (call : string * string) : SkillData :=
  {| sd_name := call.1;
     sd_callCount := 1;
     sd_firstMessageIndex := messageIndex;
     sd_tokens := tokenCount vendor call.2 tokenModel;
     sd_content :=
       if (500 <? String.length call.2)%nat
       then Js.substring0 500 call.2 +:+ "..." else call.2 |}.

(** What the loop body does to the skill map for one call. *)
Definition stepSkill (messageIndex : Z) (skillMap : list (string * SkillData))
    (call : string * string) : list (string * SkillData) :=
  match getSkill call.1 skillMap with
  | Some _ => bumpSkill call.1 skillMap
  | None => skillMap ++ [(call.1, firstLoad messageIndex call)]
  end.

Definition stepPart (messageIndex : Z) (skillMap : list (string * SkillData))
    (part : SessionMessagePart) : list (string * SkillData) :=
  match skillCall part with
  | Some call => stepSkill messageIndex skillMap call
  | None => skillMap
  end.

(** The skill map after the messages [msgs], from the message index [idx]
    and the map [skillMap]. *)
Fixpoint stepMessages (idx : Z) (skillMap : list (string * SkillData))
    (msgs : list SessionMessage) : list (string * SkillData) :=
  match msgs with
  | [] => skillMap
  | message :: rest =>
      let role := mi_role (sm_info message) in
      let idx' :=
        if bool_decide (role = "user") || bool_decide (role = "assistant")
        then idx + 1 else idx in
      stepMessages idx' (foldl (stepPart idx') skillMap (sm_parts message)) rest
  end.

Fixpoint indexAfter (idx : Z) (msgs : list SessionMessage) : Z :=
  match msgs with
  | [] => idx
  | message :: rest =>
      let role := mi_role (sm_info message) in
      indexAfter (if bool_decide (role = "user") || bool_decide (role = "assistant")
                  then idx + 1 else idx) rest
  end.

Definition stepIndexed (skillMap : list (string * SkillData))
    (ip : Z * SessionMessagePart) : list (string * SkillData) :=
  stepPart ip.1 skillMap ip.2.

End Loaded.

(** The calls for [s] among indexed parts. *)
Definition callsFor (s : string) (parts : list (Z * SessionMessagePart)) : list string :=
  omap (fun ip : Z * SessionMessagePart =>
          call ← skillCall ip.2;
          if decide (call.1 = s) then Some call.2 else None)
       parts.

Fixpoint indexedParts (idx : Z) (msgs : list SessionMessage)
    : list (Z * SessionMessagePart) :=
  match msgs with
  | [] => []
  | message :: rest =>
      let role := mi_role (sm_info message) in
      let idx' :=
        if bool_decide (role = "user") || bool_decide (role = "assistant")
        then idx + 1 else idx in
      (pair idx' <$> sm_parts message) ++ indexedParts idx' rest
  end.

Definition bumped (d : SkillData) : SkillData :=
  {| sd_name := sd_name d; sd_callCount := sd_callCount d + 1;
     sd_firstMessageIndex := sd_firstMessageIndex d;
     sd_tokens := sd_tokens d; sd_content := sd_content d |}.

(** The keys of the map are pairwise distinct, and every entry carries its
    key as its name. *)
Definition wellKeyed (skillMap : list (string * SkillData)) : Prop :=
  NoDup (fst <$> skillMap) ∧ Forall (fun kv => sd_name kv.2 = kv.1) skillMap.

(** Scenario C of the specification: the skill research is loaded three
    times; its content of 480 characters counts 120 tokens under the
    approx spec. *)
Definition researchContent : string :=
  Nat.iter 120 (fun s => "abcd" +:+ s) "".

Definition loadSkill (name output : string) : SessionMessage :=
  {| sm_info := {| mi_id := "m"; mi_role := "assistant"; mi_modelID := None;
                   mi_providerID := None; mi_system := None; mi_tokens := None;
                   mi_cost := None |};
     sm_parts :=
       [ToolPart "skill"
          {| ts_status := StCompleted;
             ts_input := Some [("name", JStr name)];
             ts_output := Some output;
             ts_title := Some ("Loaded skill: " +:+ name);
             ts_metadata := None |}] |}.

Definition scenarioC : list SessionMessage :=
  [loadSkill "research" researchContent; loadSkill "review" "Review the diff.";
   loadSkill "research" "again"; loadSkill "research" researchContent].

(** Outputs that carry white space: the output of research is padded, and
    that of notes is white space only. *)
Definition paddedOutput : string := "  abcd ".

Definition scenarioPadded : list SessionMessage :=
  [loadSkill "research" paddedOutput; loadSkill "notes" "   "].

End SkillSpec.

Module ResolverSpec.
Import Types Config ModelResolver.

(** A message whose ids, made canonical, are no names of members of
    [Object.prototype]: the lookups in the model maps see own keys only. *)
Definition plainId (value : option string) : bool :=
  match value with
  | Some v => negb (bool_decide (canonical v ∈ inherited))
  | None => true
  end.

Definition plainIds (message : SessionMessage) : bool :=
  plainId (mi_modelID (sm_info message)) && plainId (mi_providerID (sm_info message)).

(** The message names both its provider and its model. *)
Definition hasBoth (message : SessionMessage) : bool :=
  given (mi_providerID (sm_info message)) && given (mi_modelID (sm_info message)).

(** A message of the given role and ids, with no content. *)
Definition tagged (role : string) (providerID modelID : option string) : SessionMessage :=
  {| sm_info := {| mi_id := "m"; mi_role := role; mi_modelID := modelID;
                   mi_providerID := providerID; mi_system := None;
                   mi_tokens := None; mi_cost := None |};
     sm_parts := [] |}.

(** The spec names the backend it asks for: the tiktoken model or the hub
    is not the empty string. *)
Definition namesBackend (spec : TokenizerSpec) : Prop :=
  match spec with
  | Tiktoken tiktokenModel => tiktokenModel ≠ ""
  | Transformers hub => hub ≠ ""
  | Approx => True
  end.

(** The provider and the model that a message gives to the detection: a
    provider that is not empty, made canonical; a model id that is not
    empty, as it is. *)
Definition providerOf (message : SessionMessage) : option string :=
  provider ← mi_providerID (sm_info message);
  if Js.truthy provider && Js.truthy (canonical provider)
  then Some (canonical provider) else None.

Definition modelOf (message : SessionMessage) : option string :=
  id ← mi_modelID (sm_info message);
  if Js.truthy id then Some id else None.

(** The first of the messages, in transcript order, that gives a value. *)
Definition earliest {A} (f : SessionMessage → option A) (msgs : list SessionMessage)
    : option A :=
  head (omap f msgs).

End ResolverSpec.

Module ContextToolsSpec.
Import Types Context ContextTools.

(** The telemetry of the exported session counts no negative number of
    input or cached tokens. *)
Definition nonnegUsage (exported : ExportedSession) : Prop :=
  Forall (fun message =>
            ∀ tokens, em_tokens (em_info message) = Some tokens →
              0 ≤ Js.numOr0 (tu_input tokens) ∧ 0 ≤ Js.numOr0 (cacheRead tokens))
         (messages exported).

(** One assistant turn that read [read] tokens from the cache and took
    [fresh] tokens of new input. *)
Definition cachedTurn (read fresh : Z) : ExportedSession :=
  {| messages :=
       [ {| em_info := {| em_role := RoleAssistant; em_system := None; em_tools := None;
                          em_tokens := Some {| tu_input := Some fresh; tu_output := Some 10;
                                               tu_reasoning := None;
                                               tu_cache := Some {| cu_read := Some read;
                                                                   cu_write := None |} |} |};
            em_parts := [] |} ] |}.


(** A completed call of a tool with the given arguments. *)
Definition called (toolName : string) (input : list (string * ArgValue)) : ToolCallPart :=
  {| cp_type := "tool"; cp_tool := Some toolName; cp_input := Some input |}.



End ContextToolsSpec.

Module CollectorSpec.
Import Types Analyzer.

(** The name under which a call of [tool] is counted: [part.tool || "tool"]. *)
Definition countedAs (tool : string) : string :=
  if Js.truthy tool then tool else "tool".

(** The tools called in a transcript, call by call. *)
Definition toolCalls (msgs : list SessionMessage) : list string :=
  omap (fun part =>
          match part with
          | ToolPart tool _ => Some (countedAs tool)
          | _ => None
          end)
       (flat_map sm_parts msgs).

(** [toolCounts.get(name) || 0] *)
Definition callCount (name : string) (toolCounts : list (string * Z)) : Z :=
  default 0 (snd <$> List.find (fun kv => bool_decide (kv.1 = name)) toolCounts).

(** How often [name] occurs in a list of names. *)
Definition occurrences (name : string) (names : list string) : Z :=
  Z.of_nat (length (filter (fun n => n = name) names)).

(** [texts.join("\n\n")] *)
Definition joinBlank (texts : list string) : string :=
  match texts with
  | [] => ""
  | first :: rest => foldl (fun joined text => joined +:+ blankLine +:+ text) first rest
  end.

(** The text of a part after trimming, when the part is a text part and the
    text is not blank. *)
Definition textOf (part : SessionMessagePart) : option string :=
  match part with
  | TextPart text =>
      let trimmed := Js.trim (default "" text) in
      if Js.truthy trimmed then Some trimmed else None
  | _ => None
  end.

(** The texts of the messages of a role that have one, in order. *)
Definition textsOf (role : string) (msgs : list SessionMessage) : list string :=
  omap (fun message =>
          if bool_decide (mi_role (sm_info message) = role) then
            let content := extractText (sm_parts message) in
            if Js.truthy content then Some content else None
          else None)
       msgs.

(** The reasoning texts of a transcript that are not blank, trimmed. *)
Definition reasoningOf (msgs : list SessionMessage) : list string :=
  omap (fun part =>
          match part with
          | ReasoningPart text =>
              let trimmed := Js.trim (default "" text) in
              if Js.truthy trimmed then Some trimmed else None
          | _ => None
          end)
       (flat_map sm_parts msgs).

(** Sources numbered from 1: the i-th content under the label prefix#i. *)
Definition numbered (prefix : string) (contents : list string) : list CategoryEntrySource :=
  imap (fun index content =>
          {| src_label := prefix +:+ "#" +:+ pretty (S index); src_content := content |})
       contents.

(** The outputs of the completed tool calls that are not blank, each with
    the name its tool is counted as, call by call. *)
Definition completedOutputs (msgs : list SessionMessage) : list (string * string) :=
  omap (fun part =>
          match part with
          | ToolPart tool state =>
              match ts_status state with
              | StCompleted =>
                  let output := Js.trim (default "" (ts_output state)) in
                  if Js.truthy output then Some (countedAs tool, output) else None
              | _ => None
              end
          | _ => None
          end)
       (flat_map sm_parts msgs).

(** The outputs recorded for the tool [name]. *)
Definition outputsOf (name : string) (outputs : list (string * string)) : list string :=
  snd <$> filter (fun kv => kv.1 = name) outputs.

End CollectorSpec.

Module TelemetrySpec.
Import Types Analyzer.

(** No assistant message reports a negative count of tokens. *)
Definition nonnegTelemetry (msgs : list SessionMessage) : Prop :=
  Forall (fun message =>
            ∀ tokens, mi_tokens (sm_info message) = Some tokens →
              0 ≤ Js.numOr0 (tu_input tokens) ∧ 0 ≤ Js.numOr0 (tu_output tokens)
              ∧ 0 ≤ Js.numOr0 (tu_reasoning tokens)
              ∧ 0 ≤ Js.numOr0 (cacheRead tokens) ∧ 0 ≤ Js.numOr0 (cacheWrite tokens))
         msgs.

End TelemetrySpec.

Module ReportSpec.
Import Types Analyzer Formatter.

(** The entries of a category are sources of the category that count a
    positive number of tokens. *)
Definition listsSources (sources : list CategoryEntrySource) (c : CategorySummary) : Prop :=
  Forall (fun entry => 0 < ce_tokens entry ∧ ce_label entry ∈ src_label <$> sources)
         (cs_allEntries c).

(** The total of a category is not negative, and it is 0 exactly when the
    category lists no entry. *)
Definition sumsEntries (c : CategorySummary) : Prop :=
  0 ≤ cs_totalTokens c ∧ (cs_totalTokens c = 0 ↔ cs_allEntries c = []).

(** The entries of the five categories of an analysis. *)
Definition allEntries (analysis : TokenAnalysis) : list CategoryEntry :=
  let cats := categories analysis in
  cs_allEntries (system cats) ++ cs_allEntries (user cats)
  ++ cs_allEntries (assistant cats) ++ cs_allEntries (tools cats)
  ++ cs_allEntries (reasoning cats).

(** The rows of the tool table as pairs of a tool and its number of calls. *)
Definition callsOfRows (rows : list ToolEntry) : list (string * Z) :=
  (fun row => (te_label row, te_calls row)) <$> rows.

(** A row shows the token count of a tools entry. *)
Definition shows (row : ToolEntry) (entry : CategoryEntry) : Prop :=
  te_label row = ce_label entry ∧ te_tokens row = ce_tokens entry.

(** *** The tool table *)

Definition callsOfStats (toolStats : list (string * ToolStats)) : list (string * Z) :=
  (fun kv : string * ToolStats => (kv.1, st_calls kv.2)) <$> toolStats.

End ReportSpec.

Module PricingSpec.
Import Types.

(** No price of the entry is negative. *)
Definition nonnegPricing (pricing : ModelPricing) : Prop :=
  (0 <= mp_input pricing)%Qc ∧ (0 <= mp_output pricing)%Qc
  ∧ (0 <= mp_cacheWrite pricing)%Qc ∧ (0 <= mp_cacheRead pricing)%Qc.

(** No total of the telemetry of the analysis is negative. *)
Definition nonnegTotals (analysis : TokenAnalysis) : Prop :=
  0 ≤ inputTokens analysis ∧ 0 ≤ outputTokens analysis
  ∧ 0 ≤ reasoningTokens analysis ∧ 0 ≤ cacheReadTokens analysis
  ∧ 0 ≤ cacheWriteTokens analysis.

End PricingSpec.

Module StringSpec.

(** Every character of the string satisfies [p]. *)
Fixpoint forallChars (p : ascii → bool) (s : string) : bool :=
  match s with
  | EmptyString => true
  | String c r => p c && forallChars p r
  end.

End StringSpec.

Module SkillListSpec.
Import Types Skill.

(** The content kept for a skill: the output, cut to 500 characters and
    marked when it is longer. *)
Definition preview (content : string) : string :=
  if (500 <? String.length content)%nat
  then Js.substring0 500 content +:+ "..." else content.

End SkillListSpec.

Module PromptSpec.
Import Types Analyzer.

(** The texts that a message offers as system prompts: its own text when
    it is a system message, and the trimmed prompts it carries when it is
    an assistant message. *)
Definition promptCandidates (message : SessionMessage) : list string :=
  let role := mi_role (sm_info message) in
  (if bool_decide (role = "system") then [extractText (sm_parts message)] else [])
  ++ (if bool_decide (role = "assistant")
      then Js.trim <$> default [] (mi_system (sm_info message)) else []).

(** Adding the candidates that are not empty, one by one. *)
Definition addAll (prompts candidates : list string) : list string :=
  foldl (fun prompts content =>
           if Js.truthy content then addPrompt prompts content else prompts)
        prompts candidates.

End PromptSpec.

(** * Properties *)

(** ** Promises *)

Module PromiseFacts.
Import Promise.
Local Open Scope async_scope.

Section Run.
Context {St : Type}.
Implicit Types s : St.

Lemma drive_bindSusp {A B} (r : Susp St A) (f : A → Async St B) s :
  run (bindSusp r f) s = let '(a, s1) := drive r s in run (f a) s1.
Proof.
  revert s. induction r as [a|k IH] using Susp_induction; intros s; simpl.
  - reflexivity.
  - unfold run; simpl. specialize (IH s).
    destruct (k s) as [s1 r1]; simpl in *. exact (IH s1).
Qed.

(** Run alone, a sequence is the composition of its parts. *)
Lemma run_bind {A B} (t : Async St A) (f : A → Async St B) s :
  run (bind t f) s = let '(a, s1) := run t s in run (f a) s1.
Proof.
  unfold run at 1 2, bind. destruct (t s) as [s1 [a|k]]; simpl.
  - reflexivity.
  - destruct (k s1) as [s2 r2] eqn:Hk; simpl.
    pose proof (drive_bindSusp r2 f s2) as H. unfold run in H. exact H.
Qed.

Lemma run_ret {A} (a : A) s : run (ret a) s = (a, s).
Proof. reflexivity. Qed.

Lemma run_act {A} (f : St → St * A) s : run (act f) s = ((f s).2, (f s).1).
Proof. unfold run, act. destruct (f s); reflexivity. Qed.

Lemma run_yield s : run yield s = (tt, s).
Proof. reflexivity. Qed.

(** Nothing else pending, an [await] is the call itself. *)
Lemma run_await {A} (t : Async St A) s : run (await t) s = run t s.
Proof.
  unfold await. rewrite run_bind. destruct (run t s) as [a s1].
  rewrite run_bind, run_yield. apply run_ret.
Qed.

End Run.

Section All.
Context {St : Type}.

Lemma SuspAll_mono {A} (P Q : A → Prop) (r : Susp St A) :
  (∀ a, P a → Q a) → SuspAll P r → SuspAll Q r.
Proof.
  intros HPQ. induction r as [a|k IH] using Susp_induction; simpl; auto.
Qed.

Lemma AsyncAll_mono {A} (P Q : A → Prop) (t : Async St A) :
  (∀ a, P a → Q a) → AsyncAll P t → AsyncAll Q t.
Proof. intros HPQ Ht s. eapply SuspAll_mono; [exact HPQ|apply Ht]. Qed.

Lemma SuspAll_bindSusp {A B} (P : A → Prop) (Q : B → Prop)
    (r : Susp St A) (f : A → Async St B) :
  SuspAll P r → (∀ a, P a → AsyncAll Q (f a)) → AsyncAll Q (bindSusp r f).
Proof.
  intros Hr Hf. induction r as [a|k IH] using Susp_induction; simpl in *.
  - auto.
  - intros s s'. simpl. specialize (IH s' (Hr s')).
    destruct (k s') as [s1 r1]; simpl in *. apply IH.
Qed.

Lemma AsyncAll_bind {A B} (P : A → Prop) (Q : B → Prop)
    (t : Async St A) (f : A → Async St B) :
  AsyncAll P t → (∀ a, P a → AsyncAll Q (f a)) → AsyncAll Q (bind t f).
Proof.
  intros Ht Hf s. unfold bind. specialize (Ht s).
  destruct (t s) as [s1 [a|k]]; simpl in *.
  - apply Hf, Ht.
  - intros s2. specialize (Ht s2).
    pose proof (SuspAll_bindSusp P Q (k s2).2 f Ht Hf (k s2).1) as H.
    destruct (k s2) as [s3 r3]; exact H.
Qed.

Lemma AsyncAll_ret {A} (P : A → Prop) (a : A) : P a → AsyncAll (St:=St) P (ret a).
Proof. intros H s. exact H. Qed.

Lemma AsyncAll_await {A} (P : A → Prop) (t : Async St A) :
  AsyncAll P t → AsyncAll P (await t).
Proof.
  intros H. unfold await. eapply AsyncAll_bind; [exact H|].
  intros a Ha. eapply AsyncAll_bind with (P := fun _ => True).
  - intros s. simpl. auto.
  - intros _ _. apply AsyncAll_ret, Ha.
Qed.

Lemma SuspAll_mapSusp {A B} (P : B → Prop) (f : A → B) (r : Susp St A) :
  SuspAll (fun a => P (f a)) r → SuspAll P (mapSusp f r).
Proof.
  induction r as [a|k IH] using Susp_induction; simpl; auto.
  intros H s. specialize (IH s (H s)). destruct (k s); exact IH.
Qed.

Lemma SuspAll_both {A B} (P : A → Prop) (Q : B → Prop)
    (r1 : Susp St A) (r2 : Susp St B) :
  SuspAll P r1 → SuspAll Q r2 → SuspAll (fun ab => P ab.1 ∧ Q ab.2) (both r1 r2).
Proof.
  revert r2. induction r1 as [a|k1 IH] using Susp_induction; intros r2 H1 H2; simpl in *.
  - apply SuspAll_mapSusp. eapply SuspAll_mono; [|exact H2]. simpl. auto.
  - intros s. specialize (H1 s). specialize (IH s).
    destruct (k1 s) as [s1 r1']; simpl in *.
    destruct r2 as [b|k2]; simpl in *.
    + apply IH; auto.
    + specialize (H2 s1). destruct (k2 s1) as [s2 r2']; simpl in *. apply IH; auto.
Qed.

Lemma AsyncAll_all2 {A B} (P : A → Prop) (Q : B → Prop)
    (t1 : Async St A) (t2 : Async St B) :
  AsyncAll P t1 → AsyncAll Q t2 → AsyncAll (fun ab => P ab.1 ∧ Q ab.2) (all2 t1 t2).
Proof.
  intros H1 H2 s. unfold all2. specialize (H1 s).
  destruct (t1 s) as [s1 r1]. specialize (H2 s1).
  destruct (t2 s1) as [s2 r2]. simpl in *. apply SuspAll_both; assumption.
Qed.

Lemma SuspAll_drive {A} (P : A → Prop) (r : Susp St A) s :
  SuspAll P r → P (drive r s).1.
Proof.
  revert s. induction r as [a|k IH] using Susp_induction; intros s H; simpl in *.
  - exact H.
  - pose proof (IH s) as IH'. specialize (H s).
    destruct (k s) as [s1 r1]; simpl in *. apply IH', H.
Qed.

(** What holds of every possible outcome holds of the outcome of a run. *)
Lemma AsyncAll_run {A} (P : A → Prop) (t : Async St A) s :
  AsyncAll P t → P (run t s).1.
Proof.
  intros H. unfold run. specialize (H s). destruct (t s) as [s1 r1].
  apply SuspAll_drive, H.
Qed.

End All.
End PromiseFacts.

(** ** JavaScript strings, numbers and arrays *)

Module JsFacts.
Import Js.

Lemma ceilDiv4_bounds (n : nat) :
  4 * (ceilDiv4 n - 1) < Z.of_nat n ≤ 4 * ceilDiv4 n.
Proof.
  unfold ceilDiv4, Qceiling, Qfloor, Qopp; simpl.
  pose proof (Z.div_mod (- Z.of_nat n) 4 ltac:(lia)) as Hdm.
  pose proof (Z.mod_pos_bound (- Z.of_nat n) 4 ltac:(lia)) as Hb.
  lia.
Qed.

(** [ceilDiv4 n] is the least integer that is at least [n / 4]. *)
Lemma ceilDiv4_unique (n : nat) (c : Z) :
  4 * (c - 1) < Z.of_nat n ≤ 4 * c → ceilDiv4 n = c.
Proof. pose proof (ceilDiv4_bounds n). lia. Qed.

Lemma ceilDiv4_mono (n m : nat) : (n ≤ m)%nat → ceilDiv4 n ≤ ceilDiv4 m.
Proof.
  intros Hnm. pose proof (ceilDiv4_bounds n). pose proof (ceilDiv4_bounds m). lia.
Qed.

(** *** [trim] *)

Lemma allWhiteSpace_rev_app (s1 s2 : string) :
  allWhiteSpace (String.rev_app s1 s2) = allWhiteSpace s1 && allWhiteSpace s2.
Proof.
  revert s2. induction s1 as [|c s1 IH]; intros s2; simpl.
  - reflexivity.
  - rewrite IH. simpl. destruct (isWhiteSpace c), (allWhiteSpace s1); reflexivity.
Qed.

Lemma allWhiteSpace_rev (s : string) : allWhiteSpace (String.rev s) = allWhiteSpace s.
Proof. unfold String.rev. rewrite allWhiteSpace_rev_app. simpl. apply andb_true_r. Qed.

Lemma trimStart_blank (s : string) : allWhiteSpace s = true → trimStart s = "".
Proof.
  induction s as [|c s IH]; simpl; [reflexivity|].
  intros [Hc Hs]%andb_true_iff. rewrite Hc. auto.
Qed.

Lemma allWhiteSpace_trimStart (s : string) :
  allWhiteSpace (trimStart s) = allWhiteSpace s.
Proof.
  induction s as [|c s IH]; simpl; [reflexivity|].
  destruct (isWhiteSpace c) eqn:Hc; simpl; [exact IH|]. rewrite Hc. reflexivity.
Qed.

Lemma allWhiteSpace_trim (s : string) : allWhiteSpace (trim s) = allWhiteSpace s.
Proof.
  unfold trim, trimEnd.
  rewrite allWhiteSpace_rev, allWhiteSpace_trimStart, allWhiteSpace_rev.
  apply allWhiteSpace_trimStart.
Qed.

(** [!content.trim()] holds exactly of the strings of white space. *)
Lemma truthy_trim (s : string) : truthy (trim s) = negb (allWhiteSpace s).
Proof.
  destruct (allWhiteSpace s) eqn:Hs; simpl.
  - unfold trim. rewrite (trimStart_blank s Hs). reflexivity.
  - rewrite <- allWhiteSpace_trim in Hs. destruct (trim s); [discriminate|reflexivity].
Qed.

(** *** [sort] with a descending comparator *)

Section Sort.
Context {A : Type} (key : A → Z).

Local Abbreviation desc := (Js.desc key).

Lemma insertDesc_perm x (l : list A) : insertDesc key x l ≡ₚ x :: l.
Proof.
  induction l as [|y l IH]; simpl; [reflexivity|].
  destruct (key x <? key y); [|reflexivity].
  rewrite IH. apply Permutation_swap.
Qed.

Lemma sortDesc_perm (l : list A) : sortDesc key l ≡ₚ l.
Proof.
  induction l as [|x l IH]; simpl; [reflexivity|].
  rewrite insertDesc_perm. by f_equiv.
Qed.

Lemma insertDesc_sorted x (l : list A) :
  StronglySorted desc l → StronglySorted desc (insertDesc key x l).
Proof.
  induction l as [|y l IH]; simpl; intros Hl.
  - repeat constructor.
  - inversion Hl as [|? ? Hl' Hy]; subst.
    destruct (key x <? key y) eqn:Hxy.
    + constructor; [auto|].
      rewrite insertDesc_perm. constructor; [|exact Hy].
      unfold Js.desc. lia.
    + constructor; [exact Hl|].
      constructor; [unfold Js.desc; lia|].
      eapply Forall_impl; [exact Hy|]. unfold Js.desc. intros; lia.
Qed.

Lemma sortDesc_sorted (l : list A) : StronglySorted desc (sortDesc key l).
Proof.
  induction l as [|x l IH]; simpl; [constructor|]. by apply insertDesc_sorted.
Qed.

Lemma insertDesc_filter v x (l : list A) :
  filter (fun y => key y = v) (insertDesc key x l)
  = filter (fun y => key y = v) (x :: l).
Proof.
  induction l as [|y l IH]; simpl; [reflexivity|].
  destruct (key x <? key y) eqn:Hxy; [|reflexivity].
  rewrite filter_cons, IH, !filter_cons.
  destruct (decide (key y = v)), (decide (key x = v)); try reflexivity. lia.
Qed.

(** Stability: the entries of equal key keep their order. *)
Lemma sortDesc_stable v (l : list A) :
  filter (fun y => key y = v) (sortDesc key l) = filter (fun y => key y = v) l.
Proof.
  induction l as [|x l IH]; simpl; [reflexivity|].
  rewrite insertDesc_filter, !filter_cons, IH. reflexivity.
Qed.

Lemma sortDesc_of_sorted (l : list A) : StronglySorted desc l → sortDesc key l = l.
Proof.
  induction 1 as [|x l Hl IH Hx]; simpl; [reflexivity|].
  rewrite IH. destruct l as [|y l]; simpl; [reflexivity|].
  inversion Hx; subst. unfold Js.desc in *.
  destruct (key x <? key y) eqn:Hxy; [lia|reflexivity].
Qed.

Lemma sortDesc_idem (l : list A) : sortDesc key (sortDesc key l) = sortDesc key l.
Proof. apply sortDesc_of_sorted, sortDesc_sorted. Qed.

(** [reduce((sum, x) => sum + key x, 0)] *)
Lemma foldl_sum (l : list A) (z : Z) :
  foldl (fun sum x => sum + key x) z l = z + foldr Z.add 0 (key <$> l).
Proof.
  revert z. induction l as [|x l IH]; intros z; [simpl; lia|].
  rewrite fmap_cons. cbn [foldl foldr]. rewrite IH. lia.
Qed.

End Sort.
End JsFacts.

(** ** Context Analyzer: the estimate path *)

Module ContextFacts.
Import Types Context ContextSpec.

(** The loop stops at the first assistant message whose cache-write count
    is not zero. *)
Lemma firstCacheWrite_first (pre post : list ExportedMessage) (m : ExportedMessage) :
  Forall (fun m' => written m' = 0) pre → written m ≠ 0 →
  firstCacheWrite {| messages := pre ++ m :: post |} = written m.
Proof.
  intros Hpre Hm. unfold firstCacheWrite; simpl.
  induction Hpre as [|m' pre Hm' _ IH]; simpl.
  - destruct (written m =? 0) eqn:E; [lia|reflexivity].
  - rewrite Hm'. simpl. exact IH.
Qed.

Lemma firstCacheWrite_none (msgs : list ExportedMessage) :
  Forall (fun m => written m = 0) msgs → firstCacheWrite {| messages := msgs |} = 0.
Proof.
  intros H. unfold firstCacheWrite; simpl.
  induction H as [|m l Hm _ IH]; simpl; [reflexivity|]. rewrite Hm. exact IH.
Qed.

(** Scenario B of the specification: 5000 cached tokens, ten tools. *)
Example estimate_scenario_B :
  let b := estimateContextFromCacheTokens (oneTurn 5000 tenTools) emptyBreakdown in
  tokens (toolDefinitions b) = 3500 ∧ tokens (environmentContext b) = 150
  ∧ tokens (projectTree b) = 500 ∧ tokens (baseSystemPrompt b) = 850
  ∧ tokens (customInstructions b) = 0 ∧ bucketSum b = 5000
  ∧ totalCachedContext b = 5000.
Proof. vm_compute. repeat split. Qed.

(** C1, as stated, fails: a first cache write of 100 tokens with no tool
    enabled gives the buckets 0 + 0 + 150 + 500 + 0 = 650, not 100. *)
Lemma estimate_buckets_exceed_total :
  0 < firstCacheWrite (oneTurn 100 [])
  ∧ bucketSum (estimateContextFromCacheTokens (oneTurn 100 []) emptyBreakdown) = 650
  ∧ totalCachedContext (estimateContextFromCacheTokens (oneTurn 100 []) emptyBreakdown) = 100
  ∧ bucketSum (estimateContextFromCacheTokens (oneTurn 100 []) emptyBreakdown)
    ≠ totalCachedContext (estimateContextFromCacheTokens (oneTurn 100 []) emptyBreakdown).
Proof. vm_compute. repeat split; discriminate. Qed.

(** C1, amended: on the estimate path, for a positive first cache write
    [total] and [n] enabled tools, toolDefinitions = n * 350,
    environmentContext = 150, projectTree = 500, customInstructions = 0,
    baseSystemPrompt = max(0, total - n * 350 - 150 - 500), every bucket has
    identified = false and totalCachedContext = total.  The buckets sum to
    max(total, n * 350 + 650): to totalCachedContext exactly when
    total >= n * 350 + 650, and to more than it otherwise. *)
Theorem estimate_buckets (exported : ExportedSession) :
  let b := estimateContextFromCacheTokens exported emptyBreakdown in
  let total := firstCacheWrite exported in
  let n := Z.of_nat (size (extractEnabledTools exported)) in
  0 < total →
  tokens (toolDefinitions b) = n * 350
  ∧ tokens (environmentContext b) = 150
  ∧ tokens (projectTree b) = 500
  ∧ tokens (customInstructions b) = 0
  ∧ tokens (baseSystemPrompt b) = Z.max 0 (total - n * 350 - 150 - 500)
  ∧ identified (baseSystemPrompt b) = false
  ∧ identified (toolDefinitions b) = false
  ∧ identified (environmentContext b) = false
  ∧ identified (projectTree b) = false
  ∧ identified (customInstructions b) = false
  ∧ totalCachedContext b = total
  ∧ bucketSum b = Z.max total (n * 350 + 650)
  ∧ (n * 350 + 650 ≤ total ↔ bucketSum b = totalCachedContext b).
Proof.
  intros b total n Hpos. subst b. unfold estimateContextFromCacheTokens.
  fold total. fold n.
  destruct (total =? 0) eqn:E; [lia|].
  unfold bucketSum; simpl. repeat split; try reflexivity; try lia.
Qed.

Lemma estimate_buckets_witness :
  let b := estimateContextFromCacheTokens (oneTurn 5000 tenTools) emptyBreakdown in
  0 < firstCacheWrite (oneTurn 5000 tenTools)
  ∧ bucketSum b = Z.max 5000 (10 * 350 + 650).
Proof.
  assert (Hpos : 0 < firstCacheWrite (oneTurn 5000 tenTools))
    by (vm_compute; reflexivity).
  split; [exact Hpos|].
  destruct (estimate_buckets (oneTurn 5000 tenTools) Hpos)
    as (_ & _ & _ & _ & _ & _ & _ & _ & _ & _ & _ & Hsum & _).
  exact Hsum.
Defined.

End ContextFacts.

(** ** Cost Calculator *)

Module CostFacts.
Import Types Cost CostSpec.

(** C7: [calculateCost] reports a subscription exactly when the analysis
    has an assistant turn, input or output tokens, and a provider-reported
    session cost of exactly 0; in every other case it reports none. *)
Theorem isSubscription_iff (pricingData : list (string * ModelPricing))
    (analysis : TokenAnalysis) :
  isSubscription (calculateCost pricingData analysis) = true
  ↔ 0 < assistantMessageCount analysis
    ∧ (0 < inputTokens analysis ∨ 0 < outputTokens analysis)
    ∧ sessionCost analysis = 0%Qc.
Proof.
  unfold calculateCost; simpl.
  rewrite !andb_true_iff, orb_true_iff, !bool_decide_eq_true. tauto.
Qed.

(** *** The pricing lookup *)

Lemma append_cons (c : ascii) (s1 s2 : string) :
  String c s1 +:+ s2 = String c (s1 +:+ s2).
Proof. reflexivity. Qed.

Lemma includes_slash_app (vendor name : string) :
  Js.includes (vendor +:+ String "/" name) "/" = true.
Proof.
  induction vendor as [|c v IH].
  - simpl. destruct (decide ("/"%char = "/"%char)); [|congruence].
    destruct name; reflexivity.
  - rewrite append_cons. cbn [Js.includes]. rewrite IH. apply orb_true_r.
Qed.

Lemma afterLastSlash_app (vendor name : string) :
  Js.includes name "/" = false →
  Js.afterLastSlash (vendor +:+ String "/" name) = name.
Proof.
  intros Hname. induction vendor as [|c v IH].
  - change ("" +:+ String "/" name) with (String "/" name).
    cbn [Js.afterLastSlash]. rewrite Hname.
    destruct (decide ("/"%char = "/"%char)); [reflexivity|congruence].
  - rewrite append_cons. cbn [Js.afterLastSlash].
    rewrite includes_slash_app. exact IH.
Qed.

(** The normalization strips the vendor prefix: of [vendor/name] it keeps
    [name], and a name without a slash is kept as it is. *)
Lemma normalizeModelName_strips (vendor name : string) :
  Js.includes name "/" = false → name ≠ "" →
  normalizeModelName (vendor +:+ String "/" name) = name.
Proof.
  intros Hname Hne. unfold normalizeModelName.
  rewrite includes_slash_app, afterLastSlash_app by exact Hname.
  destruct name; [congruence|reflexivity].
Qed.

Lemma normalizeModelName_plain (name : string) :
  Js.includes name "/" = false → normalizeModelName name = name.
Proof. intros H. unfold normalizeModelName. rewrite H. reflexivity. Qed.

Lemma find_first {A} (p : A → bool) (pre post : list A) (x : A) :
  Forall (fun y => p y = false) pre → p x = true →
  List.find p (pre ++ x :: post) = Some x.
Proof.
  intros Hpre Hx. induction Hpre as [|y pre Hy _ IH]; simpl.
  - rewrite Hx. reflexivity.
  - rewrite Hy. exact IH.
Qed.

Lemma find_none {A} (p : A → bool) (l : list A) :
  Forall (fun y => p y = false) l → List.find p l = None.
Proof.
  intros H. induction H as [|y l Hy _ IH]; simpl; [reflexivity|]. rewrite Hy. exact IH.
Qed.

(** C2, as stated, fails: for the name openai/gpt-4o-mini neither key is
    an exact match, both gpt-4 and gpt-4o are prefixes, and the lookup
    returns the entry of gpt-4, the first in catalog order, where the
    longest prefix is gpt-4o. *)
Lemma getPricing_not_longest_prefix :
  normalizeModelName "openai/gpt-4o-mini" = "gpt-4o-mini"
  ∧ getPricing gptCatalog "openai/gpt-4o-mini" = price 30 60 0 0
  ∧ getPricing_spec gptCatalog "openai/gpt-4o-mini" = price 5 15 0 0
  ∧ getPricing gptCatalog "openai/gpt-4o-mini"
    ≠ getPricing_spec gptCatalog "openai/gpt-4o-mini".
Proof.
  repeat split; try (vm_compute; reflexivity).
  intros H. apply (f_equal (fun p => Qnum (this (mp_input p)))) in H.
  vm_compute in H. discriminate.
Qed.

(** C2, amended: for a model name whose normalized form is no name of a
    member of [Object.prototype], [getPricing] normalizes the name by
    stripping the vendor prefix and returns the catalog entry of the
    normalized name if there is one; otherwise the first entry, in catalog
    order, whose key is a case-insensitive prefix of the normalized name;
    otherwise the catalog's [default] entry (and input 1, output 3, cache 0
    when the catalog has none).  (For the name of an inherited member, such
    as constructor, the catalog object answers with that member.) *)
Theorem getPricing_first_prefix (pricingData : list (string * ModelPricing))
    (modelName : string) :
  plainName (normalizeModelName modelName) = true →
  let name := normalizeModelName modelName in
  let isPrefix (kv : string * ModelPricing) :=
    Js.startsWith (Js.toLowerCase name) (Js.toLowerCase kv.1) in
  match entry pricingData name with
  | Some pricing => getPricing pricingData modelName = pricing
  | None =>
      (∀ pre kv post,
         pricingData = pre ++ kv :: post →
         Forall (fun kv' => isPrefix kv' = false) pre → isPrefix kv = true →
         getPricing pricingData modelName = kv.2)
      ∧ (Forall (fun kv => isPrefix kv = false) pricingData →
         getPricing pricingData modelName
         = default builtinPricing (entry pricingData "default"))
  end.
Proof.
  intros _ name isPrefix. unfold getPricing. fold name.
  destruct (entry pricingData name) as [pricing|] eqn:He; [reflexivity|].
  subst isPrefix. split.
  - intros pre kv post -> Hpre Hkv.
    rewrite (find_first _ pre post kv Hpre Hkv). reflexivity.
  - intros Hnone. rewrite (find_none _ pricingData Hnone). reflexivity.
Qed.

Lemma getPricing_first_prefix_witness :
  plainName (normalizeModelName "openai/gpt-4o-mini") = true
  ∧ entry gptCatalog (normalizeModelName "openai/gpt-4o-mini") = None
  ∧ getPricing gptCatalog "openai/gpt-4o-mini" = price 30 60 0 0.
Proof.
  split; [vm_compute; reflexivity|]. split; [vm_compute; reflexivity|].
  pose proof (getPricing_first_prefix gptCatalog "openai/gpt-4o-mini"
                ltac:(vm_compute; reflexivity)) as H.
  cbv zeta in H.
  change (entry gptCatalog (normalizeModelName "openai/gpt-4o-mini")) with
    (@None ModelPricing) in H.
  destruct H as [H _].
  apply (H [] ("gpt-4", price 30 60 0 0)
           [("gpt-4o", price 5 15 0 0); ("default", price 1 3 0 0)]).
  - reflexivity.
  - constructor.
  - vm_compute. reflexivity.
Defined.

End CostFacts.

(** ** Tokenizer Manager *)

Module TokenizerFacts.
Import Types Promise Tokenizer TokenizerSpec PromiseFacts JsFacts.

(** *** Blank content and the approximation *)

(** Blank content is answered at once, in the caller's own turn, with no
    other change of the manager than the count of the call. *)
Lemma countTokens_blank vendor content tokenModel manager :
  Js.allWhiteSpace content = true →
  countTokens vendor content tokenModel manager = (countCall manager, Settled 0).
Proof.
  intros Hblank. unfold countTokens, bind, act.
  rewrite truthy_trim, Hblank. reflexivity.
Qed.

Lemma countTokens_approx vendor content tokenModel manager :
  Js.allWhiteSpace content = false → tm_spec tokenModel = Approx →
  countTokens vendor content tokenModel manager
  = (countCall manager, Settled (Js.ceilDiv4 (String.length content))).
Proof.
  intros Hblank Hspec. unfold countTokens, bind, act.
  rewrite truthy_trim, Hblank, Hspec. reflexivity.
Qed.

(** C4, as stated, fails: four spaces have length 4, and [countTokens]
    answers 0 for them, not ceil(4/4) = 1; and the answer is not monotonic
    in the length, since the shorter string "a" counts 1. *)
Lemma countTokens_blank_not_ceil :
  (run (countTokens noVendor "    " approxModel) newTokenizerManager).1 = 0
  ∧ Js.ceilDiv4 (String.length "    ") = 1
  ∧ (String.length "a" ≤ String.length "    ")%nat
  ∧ (run (countTokens noVendor "a" approxModel) newTokenizerManager).1 = 1.
Proof. repeat split; vm_compute; try reflexivity. lia. Qed.

(** C4, amended: under the approx spec [countTokens] returns
    ceil(length/4) for every string that is not blank (empty or white space
    only), and among these strings the result is monotonic non-decreasing
    in the length; for blank content it returns 0 under every spec, at
    once and without a call to any backend (the caches, the module
    promises and the record of backend calls are as before). *)
Theorem countTokens_approx_ceil (vendor : Vendor) (manager : TokenizerManager)
    (tokenModel : TokenModel) (content : string) :
  (Js.allWhiteSpace content = true →
     countTokens vendor content tokenModel manager = (countCall manager, Settled 0)
     ∧ events (run (countTokens vendor content tokenModel) manager).2 = events manager)
  ∧ (Js.allWhiteSpace content = false → tm_spec tokenModel = Approx →
     let n := (run (countTokens vendor content tokenModel) manager).1 in
     n = Js.ceilDiv4 (String.length content)
     ∧ 4 * (n - 1) < Z.of_nat (String.length content) ≤ 4 * n
     ∧ ∀ longer, Js.allWhiteSpace longer = false →
         (String.length content ≤ String.length longer)%nat →
         n ≤ (run (countTokens vendor longer tokenModel) manager).1).
Proof.
  split.
  - intros Hblank. unfold run.
    rewrite (countTokens_blank vendor content tokenModel manager Hblank). auto.
  - intros Hblank Hspec n. subst n. unfold run.
    rewrite (countTokens_approx vendor content tokenModel manager Hblank Hspec); simpl.
    split; [reflexivity|]. split; [apply ceilDiv4_bounds|].
    intros longer Hlonger Hlen.
    rewrite (countTokens_approx vendor longer tokenModel manager Hlonger Hspec); simpl.
    by apply ceilDiv4_mono.
Qed.

Lemma countTokens_approx_ceil_witness :
  Js.allWhiteSpace "   " = true
  ∧ countTokens noVendor "   " approxModel newTokenizerManager
    = (countCall newTokenizerManager, Settled 0)
  ∧ Js.allWhiteSpace "Hello, world" = false
  ∧ (run (countTokens noVendor "Hello, world" approxModel) newTokenizerManager).1 = 3.
Proof.
  pose proof (countTokens_approx_ceil noVendor newTokenizerManager approxModel "   ")
    as [Hblank _].
  pose proof (countTokens_approx_ceil noVendor newTokenizerManager approxModel
                "Hello, world") as [_ Happrox].
  split; [reflexivity|]. split; [apply Hblank; reflexivity|].
  split; [reflexivity|].
  destruct (Happrox eq_refl eq_refl) as [-> _]. reflexivity.
Defined.

(** *** The count as a function of the installed packages *)

Section Pure.
Variable vendor : Vendor.

Local Abbreviation loadedEncoder := (TokenizerSpec.loadedEncoder vendor).
Local Abbreviation loadedTokenizer := (TokenizerSpec.loadedTokenizer vendor).
Local Abbreviation tokenCount := (TokenizerSpec.tokenCount vendor).
Local Abbreviation consistent := (TokenizerSpec.consistent vendor).
Local Abbreviation Runs := (TokenizerSpec.Runs vendor).

Lemma consistent_new : consistent newTokenizerManager.
Proof. repeat split; intros; simplify_map_eq. Qed.

Lemma Runs_ret {A} (a : A) : Runs (ret a) a 0.
Proof. intros m Hm. exists m. auto. Qed.

Lemma Runs_bind {A B} (t : Task A) (f : A → Task B) a b n1 n2 :
  Runs t a n1 → Runs (f a) b n2 → Runs (bind t f) b (n1 + n2).
Proof.
  intros Ht Hf m Hm. destruct (Ht m Hm) as (m1 & Hr1 & Hm1 & Hc1).
  destruct (Hf m1 Hm1) as (m2 & Hr2 & Hm2 & Hc2).
  exists m2. rewrite run_bind, Hr1, Hr2.
  split; [reflexivity|]. split; [exact Hm2|lia].
Qed.

Lemma Runs_await {A} (t : Task A) a n : Runs t a n → Runs (await t) a n.
Proof.
  intros Ht m Hm. destruct (Ht m Hm) as (m1 & Hr1 & Hm1 & Hc1).
  exists m1. rewrite run_await. auto.
Qed.

Lemma Runs_act {A} (f : TokenizerManager → TokenizerManager * A) a n :
  (∀ m, consistent m →
     (f m).2 = a ∧ consistent (f m).1 ∧ calls (f m).1 = (n + calls m)%nat) →
  Runs (act f) a n.
Proof.
  intros Hf m Hm. exists (f m).1. rewrite run_act.
  destruct (Hf m Hm) as (<- & ? & ?). auto.
Qed.

Lemma Runs_yield : Runs yield tt 0.
Proof. intros m Hm. exists m. auto. Qed.

Lemma Runs_loadTiktokenModule :
  Runs (loadTiktokenModule vendor) (js_tiktoken vendor) 0.
Proof.
  unfold loadTiktokenModule.
  change 0%nat with (0 + (0 + 0))%nat.
  eapply Runs_bind; [|eapply Runs_bind; [apply Runs_yield|apply Runs_ret]].
  apply Runs_act. intros m Hm.
  destruct (tiktokenModule m) as [p|] eqn:Hp; simpl.
  - pose proof Hm as (_ & _ & H3 & _). rewrite (H3 p Hp). auto.
  - destruct Hm as (H1 & H2 & H3 & H4).
    split; [reflexivity|]. split; [|reflexivity].
    split; [exact H1|]. split; [exact H2|]. split; [|exact H4].
    simpl. intros p [= <-]. reflexivity.
Qed.

Lemma Runs_loadTransformersModule :
  Runs (loadTransformersModule vendor) (hf_transformers vendor) 0.
Proof.
  unfold loadTransformersModule.
  change 0%nat with (0 + (0 + 0))%nat.
  eapply Runs_bind; [|eapply Runs_bind; [apply Runs_yield|apply Runs_ret]].
  apply Runs_act. intros m Hm.
  destruct (transformersModule m) as [p|] eqn:Hp; simpl.
  - pose proof Hm as (_ & _ & _ & H4). rewrite (H4 p Hp). auto.
  - destruct Hm as (H1 & H2 & H3 & H4).
    split; [reflexivity|]. split; [|reflexivity].
    split; [exact H1|]. split; [exact H2|]. split; [exact H3|].
    simpl. intros p [= <-]. reflexivity.
Qed.

Lemma consistent_setTiktokenCache name e m tiktoken getEnc :
  consistent m → loadedEncoder name = Some e →
  js_tiktoken vendor = Some tiktoken → getEncoding tiktoken = Some getEnc →
  consistent (setTiktokenCache name e m).
Proof.
  intros (H1 & H2 & H3 & H4) He Htk Hge.
  split; [|split; [exact H2|split; [exact H3|exact H4]]].
  simpl. intros k e' Hk. destruct (decide (name = k)) as [->|Hne].
  - rewrite lookup_insert_eq in Hk. injection Hk as <-. eauto.
  - rewrite lookup_insert_ne in Hk by exact Hne. eauto.
Qed.

Lemma consistent_setTransformerCache hub m :
  consistent m → consistent (setTransformerCache hub (loadedTokenizer hub) m).
Proof.
  intros (H1 & H2 & H3 & H4).
  split; [exact H1|split; [|split; [exact H3|exact H4]]].
  simpl. intros k t Hk. destruct (decide (hub = k)) as [->|Hne].
  - rewrite lookup_insert_eq in Hk. by injection Hk as <-.
  - rewrite lookup_insert_ne in Hk by exact Hne. eauto.
Qed.

Lemma Runs_loadTiktokenEncoder name :
  Runs (loadTiktokenEncoder vendor name) (loadedEncoder name) 0.
Proof.
  intros m Hm. unfold loadTiktokenEncoder. rewrite run_bind, run_act. cbn [fst snd].
  destruct (tiktokenCache m !! name) as [e|] eqn:Hc.
  - exists m. rewrite run_ret. destruct Hm as (H1 & Hrest).
    rewrite (proj1 (H1 _ _ Hc)). split; [reflexivity|]. split; [|reflexivity].
    split; assumption.
  - clear Hc. revert m Hm. fold (TokenizerSpec.Runs vendor (A := option Encoder)).
    change 0%nat with (0 + 0)%nat.
    eapply Runs_bind; [apply Runs_await, Runs_loadTiktokenModule|].
    unfold loadedEncoder.
    destruct (js_tiktoken vendor) as [tiktoken|] eqn:Htk; [|apply Runs_ret].
    destruct (getEncoding tiktoken) as [getEnc|] eqn:Hge; [|apply Runs_ret].
    apply Runs_act. intros m Hm.
    assert (Hload : ∀ e, loadedEncoder name = Some e →
              consistent (setTiktokenCache name e m))
      by (intros e He; eapply consistent_setTiktokenCache; eauto).
    unfold loadedEncoder in Hload. rewrite Htk, Hge in Hload.
    destruct (encodingForModel tiktoken) as [forModel|]; simpl in *.
    + destruct (forModel name) as [e|]; simpl in *.
      * split; [reflexivity|]. split; [|reflexivity].
        apply (Hload e eq_refl).
      * destruct (getEnc "cl100k_base") as [e|]; simpl.
        -- split; [reflexivity|]. split; [|reflexivity]. apply (Hload e eq_refl).
        -- split; [reflexivity|]. split; [exact Hm|reflexivity].
    + destruct (getEnc "cl100k_base") as [e|]; simpl.
      * split; [reflexivity|]. split; [|reflexivity]. apply (Hload e eq_refl).
      * split; [reflexivity|]. split; [exact Hm|reflexivity].
Qed.

Lemma Runs_loadTransformersTokenizer hub :
  Runs (loadTransformersTokenizer vendor hub) (loadedTokenizer hub) 0.
Proof.
  intros m Hm. unfold loadTransformersTokenizer. rewrite run_bind, run_act.
  cbn [fst snd].
  destruct (transformerCache m !! hub) as [t|] eqn:Hc.
  - exists m. rewrite run_ret. pose proof Hm as (_ & H2 & _).
    rewrite (H2 _ _ Hc). auto.
  - clear Hc. revert m Hm. fold (TokenizerSpec.Runs vendor (A := option HubTokenizer)).
    change 0%nat with (0 + 0)%nat.
    eapply Runs_bind; [apply Runs_await, Runs_loadTransformersModule|].
    pose proof (consistent_setTransformerCache hub) as Hset.
    unfold loadedTokenizer in *.
    destruct (hf_transformers vendor) as [transformers|] eqn:Htr; simpl in *.
    + change 0%nat with (0 + 0)%nat.
      eapply Runs_bind.
      * apply Runs_await, Runs_act. intros m Hm. simpl.
        split; [reflexivity|]. split; [exact Hm|reflexivity].
      * apply Runs_act. intros m Hm; simpl.
        split; [reflexivity|]. split; [apply Hset, Hm|reflexivity].
    + apply Runs_act. intros m Hm; simpl.
      split; [reflexivity|]. split; [apply Hset, Hm|reflexivity].
Qed.

(** From a consistent manager, [countTokens] returns [tokenCount]. *)
Lemma Runs_countTokens content tokenModel :
  Runs (countTokens vendor content tokenModel) (tokenCount content tokenModel) 1.
Proof.
  unfold countTokens, tokenCount.
  change 1%nat with (1 + 0)%nat.
  eapply Runs_bind.
  { apply Runs_act. intros m Hm. simpl. split; [reflexivity|].
    split; [exact Hm|reflexivity]. }
  destruct (Js.truthy (Js.trim content)); [|apply Runs_ret].
  destruct (tm_spec tokenModel) as [name|hub|]; [| |apply Runs_ret].
  - pose proof (Runs_loadTiktokenEncoder name) as Hload.
    assert (Hcount : Runs (countWithTiktoken vendor content name)
              (match loadedEncoder name with
               | Some e => Some (default (approximateTokenCount content)
                                         (encode e content))
               | None => None
               end) 0).
    { unfold countWithTiktoken. change 0%nat with (0 + 0)%nat.
      eapply Runs_bind; [apply Runs_await, Hload|].
      destruct (loadedEncoder name) as [e|]; [|apply Runs_ret].
      apply Runs_act. intros m Hm; simpl.
      split; [reflexivity|]. split; [exact Hm|reflexivity]. }
    change 0%nat with (0 + 0)%nat.
    eapply Runs_bind; [apply Runs_await, Hcount|].
    destruct (loadedEncoder name) as [e|]; apply Runs_ret.
  - apply Runs_await. unfold countWithTransformers.
    change 0%nat with (0 + 0)%nat.
    eapply Runs_bind; [apply Runs_await, Runs_loadTransformersTokenizer|].
    destruct (loadedTokenizer hub ≫= tk_encode) as [enc|]; [|apply Runs_ret].
    change 0%nat with (0 + 0)%nat.
    eapply Runs_bind; [|apply Runs_ret].
    apply Runs_await, Runs_act. intros m Hm; simpl.
    split; [reflexivity|]. split; [exact Hm|reflexivity].
Qed.

End Pure.

(** *** Concurrent first requests *)

Ltac evaluate :=
  cbv [run all2 countTokens bind act await yield ret bindSusp both mapSusp drive
       countWithTransformers loadTransformersTokenizer loadTransformersModule
       countWithTiktoken loadTiktokenEncoder loadTiktokenModule tm_spec
       newTokenizerManager countCall record setTransformersModule setTransformerCache
       setTiktokenModule setTiktokenCache
       tiktokenCache transformerCache tiktokenModule transformersModule events calls
       fst snd].

Ltac count_events :=
  repeat (rewrite filter_cons;
          first [rewrite decide_True by reflexivity
                |rewrite decide_False by discriminate]);
  rewrite ?filter_nil; reflexivity.

(** Two first requests for one hub, made together as [Promise.all] makes
    them: both find the cache empty before either has filled it, and each
    calls [from_pretrained]; only the import of the module is shared.  One
    after the other, the second request finds the tokenizer cached. *)
Lemma transformers_loaded_per_request vendor transformers hub name c1 c2 :
  hf_transformers vendor = Some transformers →
  Js.allWhiteSpace c1 = false → Js.allWhiteSpace c2 = false →
  let tokenModel := {| tm_name := name; tm_spec := Transformers hub |} in
  let concurrent :=
    (run (all2 (countTokens vendor c1 tokenModel) (countTokens vendor c2 tokenModel))
         newTokenizerManager).2 in
  let sequential :=
    (run (bind (countTokens vendor c1 tokenModel)
               (fun _ => countTokens vendor c2 tokenModel))
         newTokenizerManager).2 in
  loads (FromPretrained hub) concurrent = 2%nat
  ∧ loads (ImportFromVendor "@huggingface/transformers") concurrent = 1%nat
  ∧ loads (FromPretrained hub) sequential = 1%nat.
Proof.
  intros Htr H1 H2 tokenModel concurrent sequential.
  subst concurrent sequential tokenModel. unfold loads.
  evaluate. rewrite !truthy_trim, H1, H2. cbn [negb].
  rewrite !lookup_empty, Htr. cbn beta iota zeta.
  destruct (from_pretrained transformers hub ≫= tk_encode) as [enc|] eqn:Henc;
    evaluate; rewrite ?lookup_insert_eq; evaluate; rewrite ?Henc; evaluate.
  all: repeat split; count_events.
Qed.

Lemma tiktoken_loaded_per_request vendor tiktoken forModel getEnc name alias c1 c2 :
  js_tiktoken vendor = Some tiktoken →
  encodingForModel tiktoken = Some forModel → getEncoding tiktoken = Some getEnc →
  Js.allWhiteSpace c1 = false → Js.allWhiteSpace c2 = false →
  let tokenModel := {| tm_name := name; tm_spec := Tiktoken alias |} in
  let concurrent :=
    (run (all2 (countTokens vendor c1 tokenModel) (countTokens vendor c2 tokenModel))
         newTokenizerManager).2 in
  loads (EncodingForModel alias) concurrent = 2%nat
  ∧ loads (ImportFromVendor "js-tiktoken") concurrent = 1%nat.
Proof.
  intros Htk Hfor Hget H1 H2 tokenModel concurrent.
  subst concurrent tokenModel. unfold loads.
  evaluate. rewrite !truthy_trim, H1, H2. cbn [negb].
  rewrite !lookup_empty, Htk. cbn beta iota zeta. rewrite Hget, Hfor.
  cbn beta iota zeta.
  destruct (forModel alias) as [e|]; [|destruct (getEnc "cl100k_base") as [e|]];
    evaluate.
  all: repeat split; count_events.
Qed.

(** C9 fails on the code: concurrent first requests for one backend key
    make one load each.  For every installed package, key and pair of
    non-blank contents, two requests made together from a new manager call
    [from_pretrained] (or [encodingForModel]) twice for the one key; the
    import of the package alone is made once. *)
Theorem concurrent_first_requests_load_twice (vendor : Vendor) (name c1 c2 : string) :
  Js.allWhiteSpace c1 = false → Js.allWhiteSpace c2 = false →
  let together (tokenModel : TokenModel) :=
    (run (all2 (countTokens vendor c1 tokenModel) (countTokens vendor c2 tokenModel))
         newTokenizerManager).2 in
  (∀ transformers hub,
     hf_transformers vendor = Some transformers →
     loads (FromPretrained hub)
           (together {| tm_name := name; tm_spec := Transformers hub |}) = 2%nat
     ∧ loads (ImportFromVendor "@huggingface/transformers")
             (together {| tm_name := name; tm_spec := Transformers hub |}) = 1%nat)
  ∧ (∀ tiktoken forModel getEnc alias,
       js_tiktoken vendor = Some tiktoken →
       encodingForModel tiktoken = Some forModel →
       getEncoding tiktoken = Some getEnc →
       loads (EncodingForModel alias)
             (together {| tm_name := name; tm_spec := Tiktoken alias |}) = 2%nat
       ∧ loads (ImportFromVendor "js-tiktoken")
               (together {| tm_name := name; tm_spec := Tiktoken alias |}) = 1%nat).
Proof.
  intros H1 H2 together. subst together. split.
  - intros transformers hub Htr.
    destruct (transformers_loaded_per_request vendor transformers hub name c1 c2
                Htr H1 H2) as (Ha & Hb & _).
    split; assumption.
  - intros tiktoken forModel getEnc alias Htk Hfor Hget.
    exact (tiktoken_loaded_per_request vendor tiktoken forModel getEnc name alias
             c1 c2 Htk Hfor Hget H1 H2).
Qed.

Lemma concurrent_first_requests_load_twice_witness :
  Js.allWhiteSpace "Hello" = false ∧ Js.allWhiteSpace "Hi there" = false
  ∧ loads (FromPretrained "Xenova/claude-tokenizer")
          (run (all2 (countTokens installed "Hello" claudeModel)
                     (countTokens installed "Hi there" claudeModel))
               newTokenizerManager).2 = 2%nat.
Proof.
  split; [reflexivity|]. split; [reflexivity|].
  destruct (concurrent_first_requests_load_twice installed "claude-sonnet-4"
              "Hello" "Hi there" eq_refl eq_refl) as [Hhub _].
  destruct (Hhub {| from_pretrained := fun _ => Some wordTokenizer |}
              "Xenova/claude-tokenizer" eq_refl) as [Htwo _].
  exact Htwo.
Defined.

End TokenizerFacts.

(** ** Token Analysis Engine *)

Module AnalyzerFacts.
Import Types Promise Tokenizer Analyzer TokenizerSpec AnalyzerSpec PromiseFacts JsFacts.

Lemma AsyncAll_True {St A} (t : Async St A) : AsyncAll (fun _ => True) t.
Proof.
  intros s. generalize (t s).2.
  induction s0 as [a|k IH] using Susp_induction; simpl; auto.
Qed.

Lemma slice0_take {A} (e : Z) (l : list A) :
  0 ≤ e → Js.slice0 e l = take (Z.to_nat e) l.
Proof. intros He. unfold Js.slice0. destruct (e <? 0) eqn:E; [lia|reflexivity]. Qed.

Section Engine.
Variable vendor : Vendor.

(** What [buildCategory] returns, whatever the tokenizer answers and
    whatever runs between its awaits. *)
Lemma buildCategory_invariant label sources tokenModel entryLimit :
  0 ≤ entryLimit →
  AsyncAll (fun c => summaryInvariant entryLimit c
                     ∧ StronglySorted (Js.desc ce_tokens) (cs_allEntries c)
                     ∧ cs_label c = label)
           (buildCategory vendor label sources tokenModel entryLimit).
Proof.
  intros Hlimit. unfold buildCategory.
  eapply AsyncAll_bind; [apply AsyncAll_True|].
  intros entries _. apply AsyncAll_ret. unfold summaryInvariant; simpl.
  rewrite sortDesc_idem, foldl_sum, slice0_take by exact Hlimit.
  repeat split; try lia. apply sortDesc_sorted.
Qed.

(** The entries of a category are the sources with a positive token count,
    sorted. *)
Lemma buildCategory_sources label sources tokenModel entryLimit :
  AsyncAll (fun c => ∃ raw,
              cs_allEntries c = Js.sortDesc ce_tokens raw
              ∧ ce_label <$> raw `sublist_of` src_label <$> sources
              ∧ Forall (fun e => 0 < ce_tokens e) raw)
           (buildCategory vendor label sources tokenModel entryLimit).
Proof.
  unfold buildCategory.
  assert (Hloop : ∀ srcs acc,
    AsyncAll (fun raw => ∃ new, raw = acc ++ new
                ∧ ce_label <$> new `sublist_of` src_label <$> srcs
                ∧ Forall (fun e => 0 < ce_tokens e) new)
      (forEach srcs
         (fun (entries : list CategoryEntry) source =>
            bind (await (countTokens vendor (src_content source) tokenModel))
              (fun tokens =>
                 ret (if 0 <? tokens
                      then entries ++ [{| ce_label := src_label source;
                                          ce_tokens := tokens |}]
                      else entries)))
         acc)).
  { induction srcs as [|src srcs IH]; intros acc; simpl.
    - apply AsyncAll_ret. exists []. rewrite app_nil_r. repeat split; constructor.
    - eapply AsyncAll_bind.
      + eapply AsyncAll_bind; [apply AsyncAll_True|].
        intros tokens _. apply AsyncAll_ret.
        instantiate (1 := fun acc' => ∃ new, acc' = acc ++ new
          ∧ ce_label <$> new `sublist_of` [src_label src]
          ∧ Forall (fun e => 0 < ce_tokens e) new).
        destruct (0 <? tokens) eqn:E.
        * eexists [_]. repeat split; [reflexivity|].
          constructor; [simpl; lia|constructor].
        * exists []. rewrite app_nil_r. repeat split; [|constructor].
          apply sublist_nil_l.
      + intros acc' (new & -> & Hsub & Hpos).
        eapply AsyncAll_mono; [|apply IH]. clear IH.
        intros raw (new' & -> & Hsub' & Hpos').
        exists (new ++ new'). rewrite app_assoc. repeat split.
        * rewrite fmap_app.
          apply (sublist_app _ [src_label src] _ _ Hsub Hsub').
        * by apply Forall_app. }
  eapply AsyncAll_bind; [apply (Hloop sources [])|].
  intros entries (new & -> & Hsub & Hpos). apply AsyncAll_ret. simpl.
  exists new. auto.
Qed.

Lemma buildCategories_invariant msgs tokenModel entryLimit :
  0 ≤ entryLimit →
  AsyncAll (categoriesInvariant entryLimit)
           (buildCategories vendor msgs tokenModel entryLimit).
Proof.
  intros Hlimit. unfold buildCategories.
  eapply AsyncAll_bind.
  - apply AsyncAll_await. unfold all5. eapply AsyncAll_bind.
    + apply AsyncAll_all2; [apply (buildCategory_invariant _ _ _ _ Hlimit)|].
      apply AsyncAll_all2; [apply (buildCategory_invariant _ _ _ _ Hlimit)|].
      apply AsyncAll_all2; [apply (buildCategory_invariant _ _ _ _ Hlimit)|].
      apply AsyncAll_all2; apply (buildCategory_invariant _ _ _ _ Hlimit).
    + intros (a & b & c & d & e) (Ha & Hb & Hc & Hd & He); simpl in *.
      apply AsyncAll_ret.
      instantiate (1 := fun built =>
        let '(a, b, c, d, e) := built in
        categoriesInvariant entryLimit
          {| system := a; user := b; assistant := c; tools := d; reasoning := e |}).
      unfold categoriesInvariant; simpl. tauto.
  - intros ((((a & b) & c) & d) & e) H. apply AsyncAll_ret. exact H.
Qed.

End Engine.

(** Reconciliation keeps the invariant, for an entry limit of at least 1. *)
Lemma applyTelemetryAdjustments_invariant entryLimit analysis msgs :
  1 ≤ entryLimit →
  categoriesInvariant entryLimit (categories analysis) →
  categoriesInvariant entryLimit
    (categories (applyTelemetryAdjustments analysis msgs)).
Proof.
  intros Hlimit Hinv. unfold applyTelemetryAdjustments; simpl.
  match goal with |- context [if ?c then _ else _] => destruct c end; [|exact Hinv].
  destruct Hinv as (_ & Hu & Ha & Ht & Hr).
  unfold categoriesInvariant; simpl.
  split; [|tauto]. unfold summaryInvariant; simpl. split; [lia|].
  destruct (Z.to_nat entryLimit) as [|[|n]] eqn:E; [lia|reflexivity..].
Qed.

(** C6: every category summary the engine builds satisfies the invariant,
    before the telemetry reconciliation ([buildCategories]) and after it
    ([analyze]): totalTokens is the sum of the token counts of allEntries,
    and the top entries are allEntries sorted descending by token count,
    ties in their original order, cut to the entry limit.  The entry limit
    is at least 1, as the tool's argument schema has it (1 to 10, 3 by
    default). *)
Theorem category_invariant (vendor : Vendor) (sessionID : string)
    (msgs : list SessionMessage) (tokenModel : TokenModel) (entryLimit : Z)
    (manager : TokenizerManager) :
  1 ≤ entryLimit →
  categoriesInvariant entryLimit
    (run (buildCategories vendor msgs tokenModel entryLimit) manager).1
  ∧ categoriesInvariant entryLimit
      (categories (run (analyze vendor sessionID msgs tokenModel entryLimit) manager).1).
Proof.
  intros Hlimit.
  assert (Hb : AsyncAll (categoriesInvariant entryLimit)
                 (buildCategories vendor msgs tokenModel entryLimit))
    by (apply buildCategories_invariant; lia).
  split; [apply AsyncAll_run, Hb|].
  apply (AsyncAll_run (fun a => categoriesInvariant entryLimit (categories a))).
  unfold analyze. eapply AsyncAll_bind; [exact Hb|].
  intros cats Hcats. apply AsyncAll_ret.
  apply applyTelemetryAdjustments_invariant; [exact Hlimit|exact Hcats].
Qed.

Example analyze_scenario_A :
  let a := (run (analyze noVendor "s" scenarioA
                   approxModel 3) newTokenizerManager).1 in
  inputTokens a = 10 ∧ outputTokens a = 5 ∧ cacheReadTokens a = 2
  ∧ mostRecentInput a = 10 ∧ mostRecentOutput a = 5 ∧ mostRecentCacheRead a = 2
  ∧ assistantMessageCount a = 1
  ∧ this (sessionCost a) = (1 # 10000)%Q
  ∧ cs_entries (system (categories a))
    = [{| ce_label := "System#1"; ce_tokens := 6 |}]
  ∧ cs_entries (user (categories a)) = [{| ce_label := "User#1"; ce_tokens := 2 |}]
  ∧ totalTokens a = 10.
Proof. vm_compute. repeat split. Qed.

(** The categories of one analysis are tokenized together: on a new manager
    each of the three non-empty categories of scenario A loads the
    tokenizer of the one hub. *)
Example analyze_loads_per_category :
  loads (FromPretrained "Xenova/claude-tokenizer")
    (run (analyze installed "s" scenarioA
            claudeModel 3) newTokenizerManager).2 = 3%nat
  ∧ loads (ImportFromVendor "@huggingface/transformers")
      (run (analyze installed "s" scenarioA
              claudeModel 3) newTokenizerManager).2 = 1%nat.
Proof. split; vm_compute; reflexivity. Qed.

Lemma category_invariant_witness :
  1 ≤ 3
  ∧ categoriesInvariant 3
      (categories (run (analyze noVendor "s" scenarioA
                          approxModel 3) newTokenizerManager).1).
Proof.
  split; [lia|].
  apply (category_invariant noVendor "s" scenarioA
           approxModel 3 newTokenizerManager). lia.
Defined.

(** C10: [applyTelemetryAdjustments] leaves the user, assistant, tools and
    reasoning summaries as they are, and with them the session id, the
    model and the tool-call data.  The system summary changes only when its
    local total is 0 and the inferred count is positive: its total becomes
    the inferred count and its entries the single synthetic entry.
    [totalTokens] is recomputed from the five category totals. *)
Theorem applyTelemetryAdjustments_frame (analysis : TokenAnalysis)
    (msgs : list SessionMessage) :
  let after := applyTelemetryAdjustments analysis msgs in
  let before := categories analysis in
  let inferred :=
    Z.max 0 (mostRecentInput after + mostRecentCacheRead after
             - (cs_totalTokens (user before) + cs_totalTokens (tools before))) in
  user (categories after) = user before
  ∧ assistant (categories after) = assistant before
  ∧ tools (categories after) = tools before
  ∧ reasoning (categories after) = reasoning before
  ∧ sessionID after = sessionID analysis
  ∧ model after = model analysis
  ∧ allToolsCalled after = allToolsCalled analysis
  ∧ toolCallCounts after = toolCallCounts analysis
  ∧ system (categories after)
    = (if decide (cs_totalTokens (system before) = 0 ∧ 0 < inferred)
       then {| cs_label := cs_label (system before);
               cs_totalTokens := inferred;
               cs_entries := [inferredEntry inferred];
               cs_allEntries := [inferredEntry inferred] |}
       else system before)
  ∧ totalTokens after
    = cs_totalTokens (system (categories after))
      + cs_totalTokens (user (categories after))
      + cs_totalTokens (assistant (categories after))
      + cs_totalTokens (tools (categories after))
      + cs_totalTokens (reasoning (categories after)).
Proof.
  intros after before inferred. subst after before inferred.
  unfold applyTelemetryAdjustments; simpl.
  match goal with |- context [if (?a <? ?b) && (?c =? ?d) then _ else _] =>
    destruct (Z.ltb_spec a b); destruct (Z.eqb_spec c d) end; simpl;
  case_decide; repeat split; try reflexivity; lia.
Qed.

End AnalyzerFacts.

(** ** Subagent Analyzer *)

Module SubagentFacts.
Import Types Subagent CostSpec SubagentSpec.

(** *** Adding up summaries *)

Lemma analysis_eq (r1 r2 : SubagentAnalysis) :
  subagents r1 = subagents r2 →
  totalInputTokens r1 = totalInputTokens r2 →
  totalOutputTokens r1 = totalOutputTokens r2 →
  totalReasoningTokens r1 = totalReasoningTokens r2 →
  totalCacheReadTokens r1 = totalCacheReadTokens r2 →
  totalCacheWriteTokens r1 = totalCacheWriteTokens r2 →
  totalTokens r1 = totalTokens r2 →
  totalApiCost r1 = totalApiCost r2 →
  totalEstimatedCost r1 = totalEstimatedCost r2 →
  totalApiCalls r1 = totalApiCalls r2 →
  r1 = r2.
Proof. destruct r1, r2; simpl; intros; subst; reflexivity. Qed.

Lemma addNested_empty r : addNested r emptyAnalysis = r.
Proof.
  apply analysis_eq; simpl; try lia; try ring. apply app_nil_r.
Qed.

Lemma addNested_addSummary r a x :
  addNested r (addSummary a x) = addSummary (addNested r a) x.
Proof.
  apply analysis_eq; simpl; try lia; try ring. apply app_assoc.
Qed.

Lemma sumAnalysis_snoc l x : sumAnalysis (l ++ [x]) = addSummary (sumAnalysis l) x.
Proof. unfold sumAnalysis. apply foldl_snoc. Qed.

(** Merging a nested analysis is adding its summaries one by one. *)
Lemma addNested_sumAnalysis r l : addNested r (sumAnalysis l) = foldl addSummary r l.
Proof.
  induction l as [|x l IH] using rev_ind.
  - apply addNested_empty.
  - rewrite sumAnalysis_snoc, addNested_addSummary, IH, foldl_snoc. reflexivity.
Qed.

Lemma sumAnalysis_app l1 l2 :
  addNested (sumAnalysis l1) (sumAnalysis l2) = sumAnalysis (l1 ++ l2).
Proof. rewrite addNested_sumAnalysis. unfold sumAnalysis. by rewrite foldl_app. Qed.

(** The totals of [sumAnalysis] are the sums of the summaries' members. *)
Lemma sumAnalysis_totals l :
  subagents (sumAnalysis l) = l
  ∧ totalInputTokens (sumAnalysis l) = foldr Z.add 0 (sa_inputTokens <$> l)
  ∧ totalOutputTokens (sumAnalysis l) = foldr Z.add 0 (sa_outputTokens <$> l)
  ∧ totalReasoningTokens (sumAnalysis l) = foldr Z.add 0 (sa_reasoningTokens <$> l)
  ∧ totalCacheReadTokens (sumAnalysis l) = foldr Z.add 0 (sa_cacheReadTokens <$> l)
  ∧ totalCacheWriteTokens (sumAnalysis l) = foldr Z.add 0 (sa_cacheWriteTokens <$> l)
  ∧ totalTokens (sumAnalysis l) = foldr Z.add 0 (sa_totalTokens <$> l)
  ∧ totalApiCost (sumAnalysis l) = foldr Qcplus 0%Qc (sa_apiCost <$> l)
  ∧ totalEstimatedCost (sumAnalysis l) = foldr Qcplus 0%Qc (sa_estimatedCost <$> l)
  ∧ totalApiCalls (sumAnalysis l) = foldr Z.add 0 (sa_assistantMessageCount <$> l).
Proof.
  induction l as [|x l IH] using rev_ind; [repeat split|].
  rewrite sumAnalysis_snoc. rewrite !fmap_app, !foldr_app. simpl.
  destruct IH as (H0 & H1 & H2 & H3 & H4 & H5 & H6 & H7 & H8 & H9).
  rewrite H0, H1, H2, H3, H4, H5, H6, H7, H8, H9.
  assert (HZ : ∀ (v : Z) (m : list Z), foldr Z.add (v + 0) m = foldr Z.add 0 m + v).
  { intros v m. induction m as [|y m IHm]; simpl; lia. }
  assert (HQ : ∀ (v : Qc) (m : list Qc),
             foldr Qcplus (v + 0)%Qc m = (foldr Qcplus 0%Qc m + v)%Qc).
  { intros v m. induction m as [|y m IHm]; simpl; [ring|]. rewrite IHm. ring. }
  rewrite !HZ, !HQ. repeat split.
Qed.

Section Traversal.
Variable client : Client.
Variable pricingData : list (string * ModelPricing).

Local Abbreviation analyze := (analyzeChildSessions client pricingData).
Local Abbreviation own := (omap (analyzeChildSession client pricingData)).
Local Abbreviation visit := (Subagent.visit client pricingData).

Lemma analyze_succ fuel id :
  analyze (S fuel) id =
  match children client id with
  | None => Some emptyAnalysis
  | Some kids => foldl (visit (analyze fuel)) (Some emptyAnalysis) kids
  end.
Proof. reflexivity. Qed.

Lemma visit_sum fuel acc child nested :
  analyze fuel (ch_id child) = Some (sumAnalysis nested) →
  visit (analyze fuel) (Some (sumAnalysis acc)) child
  = Some (sumAnalysis (acc ++ own [child] ++ nested)).
Proof.
  intros Hn. unfold Subagent.visit; simpl. rewrite Hn; simpl. f_equal.
  destruct (analyzeChildSession client pricingData child) as [summary|]; simpl.
  - rewrite <- sumAnalysis_snoc, sumAnalysis_app, <- app_assoc. reflexivity.
  - apply sumAnalysis_app.
Qed.

Lemma loop_sum fuel (kids : list SessionTree) acc :
  Forall (fun k => analyze fuel (ch_id (root k))
                   = Some (sumAnalysis (own (descendants k)))) kids →
  foldl (visit (analyze fuel)) (Some (sumAnalysis acc)) (root <$> kids)
  = Some (sumAnalysis
            (acc ++ own (flat_map (fun k => root k :: descendants k) kids))).
Proof.
  intros H. revert acc. induction H as [|k kids Hk _ IH]; intros acc.
  - simpl. by rewrite app_nil_r.
  - rewrite fmap_cons. cbn [foldl flat_map].
    rewrite (visit_sum fuel acc (root k) _ Hk), IH. do 2 f_equal.
    rewrite <- !app_assoc. f_equal.
    change (root k :: descendants k) with ([root k] ++ descendants k).
    by rewrite !omap_app, <- app_assoc.
Qed.

Lemma depth_kid session kids k :
  k ∈ kids → (S (depth k) ≤ depth (Node session kids))%nat.
Proof.
  simpl. induction 1 as [k kids|k k' kids _ IH]; simpl; lia.
Qed.

(** On a finite tree the traversal returns, with the summaries of the
    proper descendants added up in depth-first order. *)
Lemma analyze_tree (t : SessionTree) :
  Unfolds client t → ∀ fuel, (depth t < fuel)%nat →
  analyze fuel (ch_id (root t)) = Some (sumAnalysis (own (descendants t))).
Proof.
  induction t as [session kids IH] using SessionTree_induction.
  intros Hu fuel Hfuel. inversion Hu as [? ? Hkids Hsub]; subst.
  destruct fuel as [|fuel]; [lia|].
  rewrite analyze_succ; simpl. rewrite Hkids.
  change emptyAnalysis with (sumAnalysis []). rewrite loop_sum; [reflexivity|].
  rewrite Forall_forall in IH, Hsub. apply Forall_forall. intros k Hk.
  apply IH; [exact Hk|by apply Hsub|].
  pose proof (depth_kid session kids k Hk). lia.
Qed.

(** *** Returning means that every child returned *)

Lemma foldl_visit_None fuel kids : foldl (visit (analyze fuel)) None kids = None.
Proof. induction kids as [|k kids IH]; simpl; [reflexivity|exact IH]. Qed.

Lemma foldl_visit_Some fuel kids acc r :
  foldl (visit (analyze fuel)) acc kids = Some r →
  ∀ k, k ∈ kids → is_Some (analyze fuel (ch_id k)).
Proof.
  revert acc. induction kids as [|k kids IH]; intros acc Hr k' Hk'.
  - by apply elem_of_nil in Hk'.
  - simpl in Hr. apply elem_of_cons in Hk' as [->|Hk'].
    + destruct (visit (analyze fuel) acc k) as [r'|] eqn:Hv;
        [|by rewrite foldl_visit_None in Hr].
      unfold Subagent.visit in Hv. destruct acc as [a|]; simpl in Hv; [|discriminate].
      destruct (analyze fuel (ch_id k)); [eauto|discriminate].
    + eapply IH; eauto.
Qed.

Lemma analyze_child fuel parent child :
  is_Some (analyze fuel parent) → childOf client parent child →
  ∃ fuel', fuel = S fuel' ∧ is_Some (analyze fuel' child).
Proof.
  intros [r Hr] (kids & Hkids & Hin).
  destruct fuel as [|fuel]; [discriminate|]. exists fuel. split; [reflexivity|].
  rewrite analyze_succ, Hkids in Hr.
  apply list_elem_of_fmap in Hin as (k & -> & Hk).
  eapply foldl_visit_Some; eauto.
Qed.

Lemma analyze_path n fuel a b :
  nsteps (childOf client) n a b → is_Some (analyze fuel a) →
  ∃ fuel', fuel = (n + fuel')%nat ∧ is_Some (analyze fuel' b).
Proof.
  intros Hpath. revert fuel.
  induction Hpath as [a|n a c b Hac _ IH]; intros fuel Hsome.
  - exists fuel. auto.
  - destruct (analyze_child fuel a c Hsome Hac) as (fuel1 & -> & H1).
    destruct (IH fuel1 H1) as (fuel2 & -> & H2). exists fuel2. auto.
Qed.

(** A session that is among its own descendants is never done with. *)
Lemma analyze_cycle x :
  tc (childOf client) x x → ∀ fuel, analyze fuel x = None.
Proof.
  intros (n & Hn & Hpath)%tc_nsteps fuel.
  induction fuel as [fuel IH] using lt_wf_ind.
  destruct (analyze fuel x) eqn:Hx; [|reflexivity].
  destruct (analyze_path n fuel x x Hpath) as (fuel' & -> & [r Hr]); [eauto|].
  rewrite IH in Hr by lia. discriminate.
Qed.

End Traversal.

Lemma scenarioD_unfolds : Unfolds scenarioD treeD.
Proof.
  repeat (constructor; try reflexivity).
Qed.

Lemma selfLoop_childOf : childOf selfLoop "A" "A".
Proof. exists [session "A"]. split; [reflexivity|]. simpl. apply list_elem_of_here. Qed.

(** C3, as stated, fails on scenario D: the four sessions have 400 tokens
    and $0.04 of their own, and [analyzeChildSessions] on the root A
    returns 300 tokens and $0.03, the totals of B, D and C: the root's own
    usage is not part of what it returns. *)
Lemma scenarioD_leaves_out_the_root :
  Unfolds scenarioD treeD
  ∧ foldr Z.add 0 (sa_totalTokens
                     <$> omap (analyzeChildSession scenarioD gptCatalog)
                              (nodes treeD)) = 400
  ∧ (totalTokens <$> analyzeChildSessions scenarioD gptCatalog 3 "A")
    = Some 300
  ∧ ((fun r => this (totalApiCost r))
       <$> analyzeChildSessions scenarioD gptCatalog 3 "A")
    = Some (3 # 100)%Q
  ∧ ((fun r => sa_sessionID <$> subagents r)
       <$> analyzeChildSessions scenarioD gptCatalog 3 "A")
    = Some ["B"; "D"; "C"].
Proof.
  split; [exact scenarioD_unfolds|]. repeat split; vm_compute; reflexivity.
Qed.

(** C3, amended: for every finite session tree that the store shows below
    a root, [analyzeChildSessions] on the root returns the summaries of the
    proper descendants that have messages, flattened depth first, and
    totals (tokens per class, API cost, estimated cost, assistant turns)
    equal to the sums over these summaries; the root's own usage is not
    included.  On scenario D: 300 tokens, $0.03, and the list B, D, C. *)
Theorem analyzeChildSessions_sums (client : Client)
    (pricingData : list (string * ModelPricing)) (t : SessionTree) (fuel : nat) :
  Unfolds client t → (depth t < fuel)%nat →
  let summaries := omap (analyzeChildSession client pricingData) (descendants t) in
  ∃ r, analyzeChildSessions client pricingData fuel (ch_id (root t)) = Some r
       ∧ subagents r = summaries
       ∧ totalInputTokens r = foldr Z.add 0 (sa_inputTokens <$> summaries)
       ∧ totalOutputTokens r = foldr Z.add 0 (sa_outputTokens <$> summaries)
       ∧ totalReasoningTokens r = foldr Z.add 0 (sa_reasoningTokens <$> summaries)
       ∧ totalCacheReadTokens r = foldr Z.add 0 (sa_cacheReadTokens <$> summaries)
       ∧ totalCacheWriteTokens r = foldr Z.add 0 (sa_cacheWriteTokens <$> summaries)
       ∧ totalTokens r = foldr Z.add 0 (sa_totalTokens <$> summaries)
       ∧ totalApiCost r = foldr Qcplus 0%Qc (sa_apiCost <$> summaries)
       ∧ totalEstimatedCost r = foldr Qcplus 0%Qc (sa_estimatedCost <$> summaries)
       ∧ totalApiCalls r = foldr Z.add 0 (sa_assistantMessageCount <$> summaries).
Proof.
  intros Hu Hfuel summaries. exists (sumAnalysis summaries).
  split; [by apply analyze_tree|]. apply sumAnalysis_totals.
Qed.

Lemma analyzeChildSessions_sums_witness :
  Unfolds scenarioD treeD ∧ (depth treeD < 3)%nat
  ∧ ∃ r, analyzeChildSessions scenarioD gptCatalog 3 "A" = Some r
         ∧ totalTokens r = 300.
Proof.
  split; [exact scenarioD_unfolds|]. split; [vm_compute; lia|].
  destruct (analyzeChildSessions_sums scenarioD gptCatalog treeD 3%nat
              scenarioD_unfolds ltac:(vm_compute; lia))
    as (r & Hr & _ & _ & _ & _ & _ & _ & Htotal & _).
  exists r. split; [exact Hr|]. rewrite Htotal. vm_compute. reflexivity.
Defined.

(** C8, as stated, fails: when session A is listed as its own child, no
    depth of calls is enough for [analyzeChildSessions] to return. *)
Lemma selfLoop_never_returns :
  childOf selfLoop "A" "A"
  ∧ ∀ fuel, analyzeChildSessions selfLoop gptCatalog fuel "A" = None.
Proof.
  split; [exact selfLoop_childOf|].
  apply analyze_cycle. apply tc_once. exact selfLoop_childOf.
Qed.

(** C8, amended: [analyzeChildSessions] keeps no record of the sessions it
    has visited.  It returns whenever the store shows a finite tree below
    the root (a call depth above the depth of the tree is enough), and it
    does not return when the root reaches a session that is among its own
    descendants. *)
Theorem analyzeChildSessions_returns (client : Client)
    (pricingData : list (string * ModelPricing)) :
  (∀ t fuel, Unfolds client t → (depth t < fuel)%nat →
     is_Some (analyzeChildSessions client pricingData fuel (ch_id (root t))))
  ∧ (∀ top x, rtc (childOf client) top x → tc (childOf client) x x →
       ∀ fuel, analyzeChildSessions client pricingData fuel top = None).
Proof.
  split.
  - intros t fuel Hu Hfuel. rewrite (analyze_tree client pricingData t Hu fuel Hfuel).
    eauto.
  - intros top x (n & Hpath)%rtc_nsteps Hcycle fuel.
    destruct (analyzeChildSessions client pricingData fuel top) eqn:Htop; [|reflexivity].
    destruct (analyze_path client pricingData n fuel top x Hpath) as (fuel' & _ & [r Hr]);
      [eauto|].
    rewrite (analyze_cycle client pricingData x Hcycle) in Hr. discriminate.
Qed.

Lemma analyzeChildSessions_returns_witness :
  is_Some (analyzeChildSessions scenarioD gptCatalog 3 "A")
  ∧ analyzeChildSessions selfLoop gptCatalog 1000 "A" = None.
Proof.
  split.
  - apply (proj1 (analyzeChildSessions_returns scenarioD gptCatalog) treeD 3%nat
             scenarioD_unfolds).
    vm_compute; lia.
  - apply (proj2 (analyzeChildSessions_returns selfLoop gptCatalog) "A" "A").
    + apply rtc_refl.
    + apply tc_once. exact selfLoop_childOf.
Defined.

End SubagentFacts.

(** ** Skill Analyzer *)

Module SkillFacts.
Import Types Promise Tokenizer Skill TokenizerSpec SkillSpec PromiseFacts JsFacts
  TokenizerFacts.

Section Loaded.
Variable vendor : Vendor.
Variable tokenModel : TokenModel.

Local Abbreviation firstLoad := (SkillSpec.firstLoad vendor tokenModel).
Local Abbreviation stepSkill := (SkillSpec.stepSkill vendor tokenModel).
Local Abbreviation stepPart := (SkillSpec.stepPart vendor tokenModel).
Local Abbreviation stepMessages := (SkillSpec.stepMessages vendor tokenModel).
Local Abbreviation stepIndexed := (SkillSpec.stepIndexed vendor tokenModel).

Lemma length_bumpSkill name skillMap :
  length (bumpSkill name skillMap) = length skillMap.
Proof. unfold bumpSkill. apply length_fmap. Qed.

Lemma length_stepPart idx skillMap part :
  (length skillMap ≤ length (stepPart idx skillMap part))%nat.
Proof.
  unfold stepPart, stepSkill. destruct (skillCall part) as [call|]; [|lia].
  destruct (getSkill call.1 skillMap).
  - rewrite length_bumpSkill. lia.
  - rewrite length_app. lia.
Qed.

(** One part: the task does what [stepPart] says, with one call of
    [countTokens] for a skill seen for the first time. *)
Lemma Runs_visitPart idx skillMap part :
  Runs vendor (visitPart vendor tokenModel idx skillMap part)
       (stepPart idx skillMap part)
       (length (stepPart idx skillMap part) - length skillMap).
Proof.
  unfold visitPart, stepPart, skillCall.
  destruct part as [text|text|tool state|type];
    try (rewrite Nat.sub_diag; apply Runs_ret).
  rewrite bool_decide_decide.
  destruct (decide (tool = "skill")) as [->|Hne];
    [|rewrite Nat.sub_diag; apply Runs_ret].
  destruct (ts_status state); try (rewrite Nat.sub_diag; apply Runs_ret).
  destruct (extractSkillName state) as [name|]; simpl;
    [|rewrite Nat.sub_diag; apply Runs_ret].
  destruct (Js.truthy name && Js.truthy (Js.trim (default "" (ts_output state))));
    [|rewrite Nat.sub_diag; apply Runs_ret].
  unfold stepSkill, firstLoad; simpl.
  destruct (getSkill name skillMap) as [d|].
  - rewrite length_bumpSkill, Nat.sub_diag. apply Runs_ret.
  - rewrite length_app; simpl.
    replace (length skillMap + 1 - length skillMap)%nat with (1 + 0)%nat by lia.
    eapply Runs_bind; [apply Runs_await, Runs_countTokens|apply Runs_ret].
Qed.

Lemma length_stepParts idx parts skillMap :
  (length skillMap ≤ length (foldl (stepPart idx) skillMap parts))%nat.
Proof.
  revert skillMap. induction parts as [|part parts IH]; intros skillMap; simpl; [lia|].
  etrans; [apply (length_stepPart idx skillMap part)|apply IH].
Qed.

Lemma Runs_parts idx parts skillMap :
  Runs vendor (forEach parts (visitPart vendor tokenModel idx) skillMap)
       (foldl (stepPart idx) skillMap parts)
       (length (foldl (stepPart idx) skillMap parts) - length skillMap).
Proof.
  revert skillMap. induction parts as [|part parts IH]; intros skillMap; simpl.
  - rewrite Nat.sub_diag. apply Runs_ret.
  - pose proof (length_stepPart idx skillMap part).
    pose proof (length_stepParts idx parts (stepPart idx skillMap part)).
    match goal with |- Runs _ _ _ ?n =>
      replace n with
        ((length (stepPart idx skillMap part) - length skillMap)
         + (length (foldl (stepPart idx) (stepPart idx skillMap part) parts)
            - length (stepPart idx skillMap part)))%nat by lia end.
    eapply Runs_bind; [apply Runs_visitPart|apply IH].
Qed.

Lemma length_stepMessages idx msgs skillMap :
  (length skillMap ≤ length (stepMessages idx skillMap msgs))%nat.
Proof.
  revert idx skillMap. induction msgs as [|message rest IH]; intros idx skillMap;
    simpl; [lia|].
  etrans; [|apply IH]. apply length_stepParts.
Qed.

Lemma Runs_messages msgs idx skillMap :
  Runs vendor
       (forEach msgs
          (fun (st : Z * list (string * SkillData)) message =>
             let role := mi_role (sm_info message) in
             let messageIndex :=
               if bool_decide (role = "user") || bool_decide (role = "assistant")
               then st.1 + 1 else st.1 in
             bind (forEach (sm_parts message)
                     (visitPart vendor tokenModel messageIndex) st.2)
                  (fun skillMap => ret (messageIndex, skillMap)))
          (idx, skillMap))
       (indexAfter idx msgs, stepMessages idx skillMap msgs)
       (length (stepMessages idx skillMap msgs) - length skillMap).
Proof.
  revert idx skillMap. induction msgs as [|message rest IH]; intros idx skillMap.
  - simpl. rewrite Nat.sub_diag. apply Runs_ret.
  - cbn [forEach stepMessages indexAfter fst snd].
    set (idx' := if bool_decide (mi_role (sm_info message) = "user")
                    || bool_decide (mi_role (sm_info message) = "assistant")
                 then idx + 1 else idx).
    pose proof (length_stepParts idx' (sm_parts message) skillMap).
    pose proof (length_stepMessages idx' rest
                  (foldl (stepPart idx') skillMap (sm_parts message))).
    match goal with |- Runs _ _ _ ?n =>
      replace n with
        ((length (foldl (stepPart idx') skillMap (sm_parts message))
          - length skillMap + 0)
         + (length (stepMessages idx'
                      (foldl (stepPart idx') skillMap (sm_parts message)) rest)
            - length (foldl (stepPart idx') skillMap (sm_parts message))))%nat
        by lia end.
    eapply Runs_bind; [|apply IH].
    eapply Runs_bind; [apply Runs_parts|apply Runs_ret].
Qed.

Lemma Runs_collectSkills msgs :
  Runs vendor (collectSkills vendor msgs tokenModel)
       (stepMessages 0 [] msgs) (length (stepMessages 0 [] msgs)).
Proof.
  unfold collectSkills.
  replace (length (stepMessages 0 [] msgs))
    with (length (stepMessages 0 [] msgs) - length (@nil (string * SkillData)) + 0)%nat
    by (simpl; lia).
  eapply Runs_bind; [apply Runs_messages|apply Runs_ret].
Qed.

(** *** The skill map as a function of the calls *)

Lemma stepMessages_indexed msgs idx skillMap :
  stepMessages idx skillMap msgs = foldl stepIndexed skillMap (indexedParts idx msgs).
Proof.
  revert idx skillMap. induction msgs as [|message rest IH]; intros idx skillMap;
    [reflexivity|].
  cbn [stepMessages indexedParts]. rewrite foldl_app, IH. f_equal.
  generalize (sm_parts message). intros parts. revert skillMap.
  induction parts as [|part parts IHp]; intros skillMap; [reflexivity|].
  simpl. apply IHp.
Qed.

Lemma callsFor_pair s idx (parts : list SessionMessagePart) :
  callsFor s (pair idx <$> parts)
  = omap (fun part => call ← skillCall part;
                      if decide (call.1 = s) then Some call.2 else None) parts.
Proof.
  unfold callsFor. induction parts as [|part parts IHp]; [reflexivity|].
  csimpl. rewrite IHp. reflexivity.
Qed.

Lemma callsFor_indexed s msgs idx :
  callsFor s (indexedParts idx msgs) = invocationsOf s msgs.
Proof.
  unfold invocationsOf. revert idx.
  induction msgs as [|message rest IH]; intros idx; [reflexivity|].
  cbn [indexedParts flat_map]. unfold callsFor at 1.
  rewrite !omap_app. fold (callsFor s (indexedParts
    (if bool_decide (mi_role (sm_info message) = "user")
        || bool_decide (mi_role (sm_info message) = "assistant")
     then idx + 1 else idx) rest)).
  rewrite IH. f_equal. apply callsFor_pair.
Qed.

Lemma callsFor_cons s idx part parts :
  callsFor s ((idx, part) :: parts)
  = match skillCall part with
    | Some call =>
        if decide (call.1 = s) then call.2 :: callsFor s parts else callsFor s parts
    | None => callsFor s parts
    end.
Proof.
  unfold callsFor. csimpl. destruct (skillCall part) as [call|]; [|reflexivity].
  simpl. destruct (decide (call.1 = s)); reflexivity.
Qed.

Lemma stepIndexed_cons skillMap idx part parts :
  foldl stepIndexed skillMap ((idx, part) :: parts)
  = foldl stepIndexed
      (match skillCall part with
       | Some call => stepSkill idx skillMap call
       | None => skillMap
       end) parts.
Proof. reflexivity. Qed.

Lemma getSkill_bump_same s skillMap d :
  getSkill s skillMap = Some d → getSkill s (bumpSkill s skillMap) = Some (bumped d).
Proof.
  unfold getSkill, bumpSkill.
  induction skillMap as [|[k d0] skillMap IH]; simpl; [discriminate|].
  destruct (bool_decide (k = s)) eqn:E; simpl.
  - rewrite E. simpl. intros [= <-]. reflexivity.
  - rewrite E. exact IH.
Qed.

Lemma getSkill_bump_other s n skillMap :
  n ≠ s → getSkill s (bumpSkill n skillMap) = getSkill s skillMap.
Proof.
  intros Hne. unfold getSkill, bumpSkill.
  induction skillMap as [|[k d0] skillMap IH]; simpl; [reflexivity|].
  destruct (bool_decide (k = n)) eqn:En; simpl.
  - apply bool_decide_eq_true in En as ->.
    rewrite bool_decide_eq_false_2 by exact Hne. exact IH.
  - destruct (bool_decide (k = s)); [reflexivity|exact IH].
Qed.

Lemma getSkill_snoc s n d skillMap :
  getSkill s (skillMap ++ [(n, d)])
  = match getSkill s skillMap with
    | Some x => Some x
    | None => if decide (n = s) then Some d else None
    end.
Proof.
  unfold getSkill. induction skillMap as [|[k d0] skillMap IH]; simpl.
  - rewrite bool_decide_decide. destruct (decide (n = s)); reflexivity.
  - destruct (bool_decide (k = s)); [reflexivity|exact IH].
Qed.

(** A skill already in the map: every further call adds one to its count
    and leaves its token count alone. *)
Lemma fold_present s parts skillMap d :
  getSkill s skillMap = Some d →
  ∃ d', getSkill s (foldl stepIndexed skillMap parts) = Some d'
        ∧ sd_callCount d' = sd_callCount d + Z.of_nat (length (callsFor s parts))
        ∧ sd_tokens d' = sd_tokens d.
Proof.
  revert skillMap d. induction parts as [|[idx part] parts IH]; intros skillMap d Hd.
  - exists d. simpl. repeat split; [exact Hd|lia].
  - rewrite stepIndexed_cons, callsFor_cons.
    destruct (skillCall part) as [[n c]|]; cbn [fst snd].
    + unfold stepSkill; cbn [fst snd]. destruct (decide (n = s)) as [->|Hne].
      * rewrite Hd.
        destruct (IH _ _ (getSkill_bump_same s skillMap d Hd)) as (d' & H1 & H2 & H3).
        exists d'. cbn [length bumped sd_callCount sd_tokens] in *.
        repeat split; [exact H1|lia|exact H3].
      * assert (Hstill : getSkill s
                  (match getSkill n skillMap with
                   | Some _ => bumpSkill n skillMap
                   | None => skillMap ++ [(n, firstLoad idx (n, c))]
                   end) = Some d).
        { destruct (getSkill n skillMap).
          - by rewrite getSkill_bump_other.
          - by rewrite getSkill_snoc, Hd. }
        destruct (IH _ _ Hstill) as (d' & H1 & H2 & H3). eauto.
    + destruct (IH _ _ Hd) as (d' & H1 & H2 & H3). eauto.
Qed.

(** A skill not yet in the map: its first call decides the token count,
    and the count of calls is the number of its calls. *)
Lemma fold_absent s parts skillMap :
  getSkill s skillMap = None →
  match callsFor s parts with
  | [] => getSkill s (foldl stepIndexed skillMap parts) = None
  | first :: rest =>
      ∃ d, getSkill s (foldl stepIndexed skillMap parts) = Some d
           ∧ sd_callCount d = Z.of_nat (length (first :: rest))
           ∧ sd_tokens d = tokenCount vendor first tokenModel
  end.
Proof.
  revert skillMap. induction parts as [|[idx part] parts IH]; intros skillMap Hnone.
  - exact Hnone.
  - rewrite stepIndexed_cons, callsFor_cons.
    destruct (skillCall part) as [[n c]|]; cbn [fst snd]; [|by apply IH].
    unfold stepSkill; cbn [fst snd]. destruct (decide (n = s)) as [->|Hne].
    + rewrite Hnone.
      destruct (fold_present s parts (skillMap ++ [(s, firstLoad idx (s, c))])
                  (firstLoad idx (s, c))) as (d' & H1 & H2 & H3);
        [rewrite getSkill_snoc, Hnone, decide_True by reflexivity; reflexivity|].
      exists d'. cbn [length firstLoad sd_callCount sd_tokens fst snd] in *.
      repeat split; [exact H1|lia|exact H3].
    + apply IH. destruct (getSkill n skillMap).
      * by rewrite getSkill_bump_other.
      * by rewrite getSkill_snoc, Hnone, decide_False.
Qed.

(** *** One entry per skill *)

Lemma getSkill_None s skillMap : getSkill s skillMap = None → s ∉ fst <$> skillMap.
Proof.
  unfold getSkill. induction skillMap as [|[k d] skillMap IH]; simpl.
  - intros _. apply not_elem_of_nil.
  - rewrite bool_decide_decide. destruct (decide (k = s)) as [->|Hne]; [discriminate|].
    intros H. apply not_elem_of_cons. split; [congruence|]. auto.
Qed.

Lemma keys_bumpSkill n skillMap : fst <$> bumpSkill n skillMap = fst <$> skillMap.
Proof.
  unfold bumpSkill. rewrite <- list_fmap_compose. apply list_fmap_ext.
  intros i [k d] _. simpl. destruct (bool_decide (k = n)); reflexivity.
Qed.

Lemma wellKeyed_step skillMap ip : wellKeyed skillMap → wellKeyed (stepIndexed skillMap ip).
Proof.
  intros [Hdup Hname]. unfold stepIndexed, stepPart.
  destruct (skillCall ip.2) as [call|]; [|by split].
  unfold stepSkill. destruct (getSkill call.1 skillMap) eqn:Hg.
  - split; [by rewrite keys_bumpSkill|].
    unfold bumpSkill. apply Forall_fmap. eapply Forall_impl; [exact Hname|].
    intros [k d] Hk; simpl in *. destruct (bool_decide (k = call.1)); exact Hk.
  - split.
    + rewrite fmap_app. apply NoDup_app. split; [exact Hdup|].
      split; [|apply NoDup_singleton].
      intros x Hx Hx'. apply list_elem_of_singleton in Hx'. subst x.
      by apply (getSkill_None _ _ Hg).
    + apply Forall_app. split; [exact Hname|]. by constructor.
Qed.

Lemma wellKeyed_fold parts skillMap :
  wellKeyed skillMap → wellKeyed (foldl stepIndexed skillMap parts).
Proof.
  revert skillMap. induction parts as [|ip parts IH]; intros skillMap H; [exact H|].
  simpl. apply IH, wellKeyed_step, H.
Qed.

Lemma getSkill_cons s k d skillMap :
  getSkill s ((k, d) :: skillMap)
  = if decide (k = s) then Some d else getSkill s skillMap.
Proof.
  unfold getSkill. cbn [List.find fst]. rewrite bool_decide_decide.
  destruct (decide (k = s)); reflexivity.
Qed.

Lemma filter_none s skillMap :
  s ∉ fst <$> skillMap → Forall (fun kv => sd_name kv.2 = kv.1) skillMap →
  filter (fun skill => ls_name skill = s)
         ((fun kv : string * SkillData => toLoadedSkill kv.2) <$> skillMap)
  = [].
Proof.
  induction skillMap as [|[k d] skillMap IH]; intros Hnot Hname; [reflexivity|].
  rewrite fmap_cons in Hnot. apply not_elem_of_cons in Hnot as [Hne Hnot].
  apply Forall_cons in Hname as [Hk Hname]. cbn [fst snd] in *.
  rewrite fmap_cons, filter_cons. cbn [toLoadedSkill ls_name snd].
  rewrite decide_False by congruence. by apply IH.
Qed.

(** In a well-keyed map the entries of name [s] are the one that the
    lookup finds. *)
Lemma filter_one s skillMap d :
  wellKeyed skillMap → getSkill s skillMap = Some d →
  filter (fun skill => ls_name skill = s)
         ((fun kv : string * SkillData => toLoadedSkill kv.2) <$> skillMap)
  = [toLoadedSkill d].
Proof.
  intros [Hdup Hname].
  induction skillMap as [|[k d0] skillMap IH]; [discriminate|].
  rewrite fmap_cons in Hdup. apply NoDup_cons in Hdup as [Hk Hdup].
  apply Forall_cons in Hname as [Hk0 Hname]. cbn [fst snd] in *.
  rewrite getSkill_cons, fmap_cons, filter_cons. cbn [toLoadedSkill ls_name snd].
  destruct (decide (k = s)) as [->|Hne].
  - intros [= <-]. rewrite decide_True by exact Hk0.
    by rewrite (filter_none s skillMap Hk Hname).
  - rewrite decide_False by congruence. by apply IH.
Qed.

Lemma Runs_getLoadedSkills msgs :
  let skillMap := stepMessages 0 [] msgs in
  let skills := (fun kv : string * SkillData => toLoadedSkill kv.2) <$> skillMap in
  Runs vendor (getLoadedSkills vendor msgs tokenModel)
       (Js.sortDesc ls_totalTokens skills,
        foldl (fun total skill => total + ls_totalTokens skill) 0 skills)
       (length skillMap).
Proof.
  intros skillMap skills. unfold getLoadedSkills.
  replace (length skillMap) with (length skillMap + 0)%nat by lia.
  eapply Runs_bind; [apply Runs_collectSkills|apply Runs_ret].
Qed.

End Loaded.

Example getLoadedSkills_scenario_C :
  (fun skill => (ls_name skill, ls_callCount skill, ls_tokens skill, ls_totalTokens skill))
    <$> (run (getLoadedSkills noVendor scenarioC approxModel) newTokenizerManager).1.1
  = [("research", 3, 120, 360); ("review", 1, 4, 4)].
Proof. vm_compute. reflexivity. Qed.

(** C5, as stated, fails: the one call for research has the output
    [paddedOutput] of 7 characters, which counts 2 tokens under the approx
    spec, and the entry for research has tokensPerCall 1, the count of the
    trimmed output abcd; and the call for notes is completed with an output
    that is not empty (three spaces), yet notes has no entry. *)
Lemma loaded_skill_counts_trimmed_output :
  (run (countTokens noVendor paddedOutput approxModel) newTokenizerManager).1 = 2
  ∧ Forall (fun message =>
              Forall (fun part =>
                        match part with
                        | ToolPart tool state =>
                            tool = "skill" ∧ ts_status state = StCompleted
                            ∧ ts_output state ≠ None ∧ ts_output state ≠ Some ""
                        | _ => False
                        end) (sm_parts message))
           scenarioPadded
  ∧ (fun skill => (ls_name skill, ls_callCount skill, ls_tokens skill, ls_totalTokens skill))
      <$> (run (getLoadedSkills noVendor scenarioPadded approxModel) newTokenizerManager).1.1
    = [("research", 1, 1, 1)].
Proof.
  split; [vm_compute; reflexivity|]. split; [|vm_compute; reflexivity].
  repeat (apply List.Forall_cons; [|try apply List.Forall_nil]);
    repeat (apply List.Forall_cons; [|apply List.Forall_nil]);
    repeat split; discriminate.
Qed.

(** C5, amended: when a transcript has k >= 1 completed calls of the skill
    tool for the skill s whose output is not blank (not empty after
    trimming), the loaded skills have exactly one entry for s; its
    tokensPerCall is the token count of the trimmed output of the first of
    these calls, its callCount is k, and its totalTokens is
    tokensPerCall * k.  The tokenizer is called once for each listed skill,
    so once for s. *)
Theorem loaded_skill_multiplier (vendor : Vendor) (msgs : list SessionMessage)
    (tokenModel : TokenModel) (manager : TokenizerManager)
    (s first : string) (rest : list string) :
  consistent vendor manager →
  invocationsOf s msgs = first :: rest →
  let result := run (getLoadedSkills vendor msgs tokenModel) manager in
  ∃ entry,
    filter (fun skill => ls_name skill = s) result.1.1 = [entry]
    ∧ ls_callCount entry = Z.of_nat (length (first :: rest))
    ∧ ls_tokens entry = tokenCount vendor first tokenModel
    ∧ ls_totalTokens entry = ls_tokens entry * ls_callCount entry
    ∧ calls result.2 = (length result.1.1 + calls manager)%nat.
Proof.
  intros Hm Hinv result. subst result.
  destruct (Runs_getLoadedSkills vendor tokenModel msgs manager Hm)
    as (manager' & -> & _ & Hcalls). cbn [fst snd].
  pose proof (fold_absent vendor tokenModel s (indexedParts 0 msgs) [] eq_refl) as Hs.
  rewrite callsFor_indexed, Hinv, <- stepMessages_indexed in Hs.
  destruct Hs as (d & Hd & Hcount & Htokens).
  assert (Hwell : wellKeyed (stepMessages vendor tokenModel 0 [] msgs)).
  { rewrite stepMessages_indexed. apply wellKeyed_fold.
    split; [apply NoDup_nil_2|constructor]. }
  exists (toLoadedSkill d). split; [|split; [exact Hcount|split; [exact Htokens|]]].
  - apply Permutation_singleton_r.
    rewrite (sortDesc_perm ls_totalTokens).
    by rewrite (filter_one s _ d Hwell Hd).
  - split; [reflexivity|].
    rewrite Hcalls, (Permutation_length (sortDesc_perm ls_totalTokens _)), length_fmap.
    reflexivity.
Qed.

Lemma loaded_skill_multiplier_witness :
  consistent noVendor newTokenizerManager
  ∧ invocationsOf "research" scenarioC = [researchContent; "again"; researchContent]
  ∧ ∃ entry,
      filter (fun skill => ls_name skill = "research")
        (run (getLoadedSkills noVendor scenarioC approxModel) newTokenizerManager).1.1
      = [entry]
      ∧ ls_callCount entry = 3
      ∧ ls_totalTokens entry = ls_tokens entry * ls_callCount entry.
Proof.
  assert (Hinv : invocationsOf "research" scenarioC
                 = [researchContent; "again"; researchContent])
    by (vm_compute; reflexivity).
  split; [apply consistent_new|]. split; [exact Hinv|].
  destruct (loaded_skill_multiplier noVendor scenarioC approxModel newTokenizerManager
              "research" researchContent ["again"; researchContent]
              (consistent_new noVendor) Hinv)
    as (entry & Hone & Hcount & _ & Htotal & _).
  exists entry. split; [exact Hone|]. split; [exact Hcount|exact Htotal].
Defined.

End SkillFacts.

(** ** The model of a transcript *)

Module ResolverFacts.
Import Types Config ModelResolver ResolverSpec.

Lemma firstResolved_app pre post :
  firstResolved (pre ++ post)
  = match firstResolved pre with
    | Some found => Some found
    | None => firstResolved post
    end.
Proof.
  induction pre as [|m pre IH]; simpl; [reflexivity|].
  destruct (resolveMessage m); [reflexivity|exact IH].
Qed.

Lemma firstResolved_none l :
  Forall (fun m => resolveMessage m = None) l → firstResolved l = None.
Proof. induction 1 as [|m l Hm _ IH]; simpl; [reflexivity|]. by rewrite Hm. Qed.

(** X1: the tokenizer model is decided by the latest message that names a
    known provider or model: when such a message resolves to [found] and no
    later message resolves, [resolveTokenModel] returns [found], whatever
    came before; when no message resolves, and in particular when no message
    carries a model or provider id, it returns the approx model. *)
Theorem resolveTokenModel_latest (msgs : list SessionMessage) :
  (∀ pre m post found,
     msgs = pre ++ m :: post → resolveMessage m = Some found →
     Forall (fun m' => resolveMessage m' = None) post →
     resolveTokenModel msgs = found)
  ∧ (Forall (fun m => resolveMessage m = None) msgs → resolveTokenModel msgs = approx)
  ∧ (Forall (fun m => mi_modelID (sm_info m) = None ∧ mi_providerID (sm_info m) = None)
            msgs →
     resolveTokenModel msgs = approx).
Proof.
  assert (Hnone : Forall (fun m => resolveMessage m = None) msgs →
                  resolveTokenModel msgs = approx).
  { intros H. unfold resolveTokenModel.
    rewrite firstResolved_none; [reflexivity|]. by apply Forall_rev. }
  split; [|split; [exact Hnone|]].
  - intros pre m post found -> Hm Hpost. unfold resolveTokenModel.
    rewrite rev_app_distr. cbn [rev]. rewrite <- app_assoc, firstResolved_app.
    rewrite firstResolved_none by (by apply Forall_rev).
    cbn [app firstResolved]. rewrite Hm. reflexivity.
  - intros H. apply Hnone. eapply Forall_impl; [exact H|].
    intros m [Hmodel Hprovider]. unfold resolveMessage. rewrite Hmodel, Hprovider.
    reflexivity.
Qed.

Lemma resolveTokenModel_latest_witness :
  resolveTokenModel
    [tagged "assistant" (Some "openai") (Some "gpt-4.1");
     tagged "assistant" (Some "Anthropic") (Some "anthropic/Claude-Opus-4");
     tagged "user" None None]
  = {| tm_name := "claude-opus-4"; tm_spec := Transformers "Xenova/claude-tokenizer" |}
  ∧ resolveTokenModel [tagged "user" None None; tagged "assistant" None None] = approx.
Proof.
  split.
  - apply (proj1 (resolveTokenModel_latest _)
             [tagged "assistant" (Some "openai") (Some "gpt-4.1")]
             (tagged "assistant" (Some "Anthropic") (Some "anthropic/Claude-Opus-4"))
             [tagged "user" None None]).
    + reflexivity.
    + vm_compute. reflexivity.
    + repeat constructor.
  - apply (proj2 (proj2 (resolveTokenModel_latest _))). repeat constructor.
Defined.

(** *** Backend keys *)

Lemma member_value {V} (P : V → Prop) (record : list (string * V)) key v :
  Forall (fun kv => P kv.2) record → member record key = Some v → P v.
Proof.
  unfold member. intros Hall. induction Hall as [|kv l Hkv _ IH]; simpl; [discriminate|].
  destruct (bool_decide (kv.1 = key)); simpl; [intros [= <-]; exact Hkv|exact IH].
Qed.

Lemma truthy_ne s : Js.truthy s = true → s ≠ "".
Proof. destruct s; [discriminate|discriminate]. Qed.

Lemma resolveMessage_names m found :
  resolveMessage m = Some found → namesBackend (tm_spec found).
Proof.
  unfold resolveMessage.
  generalize (canonicalize (mi_modelID (sm_info m))) as modelID.
  generalize (canonicalize (mi_providerID (sm_info m))) as providerID.
  intros providerID modelID.
  destruct (resolveOpenAIModel modelID providerID) as [openaiModel|] eqn:Ho.
  - intros [= <-]. unfold resolveOpenAIModel in Ho.
    destruct (_ || _) in Ho.
    + injection Ho as <-. simpl. unfold mapOpenAI.
      destruct modelID as [id|]; [|discriminate].
      destruct (Js.truthy id) eqn:Hid; [|discriminate].
      destruct (member OPENAI_MODEL_MAP id) as [mapped|] eqn:Hmap; simpl.
      * revert Hmap. apply (member_value (fun v : string => v ≠ "")).
        repeat constructor; discriminate.
      * by apply truthy_ne.
    + destruct modelID as [id|]; simpl in Ho; [|discriminate].
      destruct (member OPENAI_MODEL_MAP id) as [mapped|]; simpl in Ho; [|discriminate].
      destruct (Js.truthy id && Js.truthy mapped) eqn:Ht; [|discriminate].
      injection Ho as <-. simpl. apply andb_true_iff in Ht as [_ Ht]. by apply truthy_ne.
  - clear Ho. unfold resolveTransformersModel.
    destruct modelID as [id|]; simpl.
    + destruct (member TRANSFORMERS_MODEL_MAP id) as [hub|] eqn:Hhub; simpl.
      * destruct (Js.truthy id && Js.truthy hub) eqn:Ht.
        { intros [= <-]. simpl. apply andb_true_iff in Ht as [_ Ht]. by apply truthy_ne. }
        destruct providerID as [provider|]; simpl.
        -- destruct (member PROVIDER_DEFAULTS provider) as [spec|] eqn:Hspec; simpl.
           ++ destruct (Js.truthy provider).
              ** intros [= <-]. simpl. revert Hspec.
                 apply (member_value namesBackend). repeat constructor; discriminate.
              ** repeat (case_match; try discriminate); intros [= <-]; simpl;
                   try discriminate.
                 revert Hhub. apply (member_value (fun v : string => v ≠ "")).
                 repeat constructor; discriminate.
           ++ repeat (case_match; try discriminate); intros [= <-]; simpl;
                try discriminate.
              revert Hhub. apply (member_value (fun v : string => v ≠ "")).
              repeat constructor; discriminate.
        -- repeat (case_match; try discriminate); intros [= <-]; simpl;
             try discriminate.
           revert Hhub. apply (member_value (fun v : string => v ≠ "")).
           repeat constructor; discriminate.
      * destruct providerID as [provider|]; simpl.
        -- destruct (member PROVIDER_DEFAULTS provider) as [spec|] eqn:Hspec; simpl.
           ++ destruct (Js.truthy provider).
              ** intros [= <-]. simpl. revert Hspec.
                 apply (member_value namesBackend). repeat constructor; discriminate.
              ** repeat (case_match; try discriminate); intros [= <-]; simpl; discriminate.
           ++ repeat (case_match; try discriminate); intros [= <-]; simpl; discriminate.
        -- repeat (case_match; try discriminate); intros [= <-]; simpl; discriminate.
    + destruct providerID as [provider|]; simpl; [|discriminate].
      destruct (member PROVIDER_DEFAULTS provider) as [spec|] eqn:Hspec; simpl;
        [|discriminate].
      destruct (Js.truthy provider); [|discriminate].
      intros [= <-]. simpl. revert Hspec.
      apply (member_value namesBackend). repeat constructor; discriminate.
Qed.

Lemma firstResolved_elem l found :
  firstResolved l = Some found → ∃ m, m ∈ l ∧ resolveMessage m = Some found.
Proof.
  induction l as [|m l IH]; simpl; [discriminate|].
  destruct (resolveMessage m) as [t|] eqn:Hm.
  - intros [= <-]. exists m. split; [apply list_elem_of_here|exact Hm].
  - intros H. destruct (IH H) as (m' & Hin & Hm'). exists m'.
    split; [by apply list_elem_of_further|exact Hm'].
Qed.

(** X2: the spec that [resolveTokenModel] returns always names its backend:
    a tiktoken model and a hub are never the empty string (a missing or
    empty model id under an OpenAI provider gives cl100k_base).  The ids of
    the messages are no names of members of [Object.prototype], for which
    the lookups in the model maps would answer with an inherited member. *)
Theorem resolveTokenModel_names_backend (msgs : list SessionMessage) :
  forallb plainIds msgs = true → namesBackend (tm_spec (resolveTokenModel msgs)).
Proof.
  intros _. unfold resolveTokenModel.
  destruct (firstResolved (rev msgs)) as [found|] eqn:Hf; simpl; [|exact I].
  destruct (firstResolved_elem _ _ Hf) as (m & _ & Hm).
  by apply (resolveMessage_names m).
Qed.

Lemma resolveTokenModel_names_backend_witness :
  namesBackend (tm_spec (resolveTokenModel [tagged "assistant" (Some "azure") (Some "")])).
Proof.
  apply resolveTokenModel_names_backend. reflexivity.
Defined.

(** *** The provider and model ids *)

Lemma detect_app l r a b :
  Forall (fun m => hasBoth m = false) l →
  detect (l ++ r) a b = detect r (detect l a b).1 (detect l a b).2.
Proof.
  intros H. revert a b. induction H as [|m l Hm _ IH]; intros a b; [reflexivity|].
  cbn [app detect]. unfold hasBoth in Hm. rewrite Hm. apply IH.
Qed.

Lemma earliest_snoc {A} (f : SessionMessage → option A) l x :
  earliest f (l ++ [x])
  = match earliest f l with Some y => Some y | None => f x end.
Proof.
  unfold earliest. rewrite omap_app. cbn [omap].
  destruct (omap f l); simpl; [destruct (f x)|]; reflexivity.
Qed.

Lemma earliest_cons {A} (f : SessionMessage → option A) x l :
  earliest f (x :: l)
  = match f x with Some y => Some y | None => earliest f l end.
Proof. unfold earliest. simpl. destruct (f x); reflexivity. Qed.

Lemma detect_step m a b :
  hasBoth m = false →
  detect [m] a b = (default a (providerOf m), default b (modelOf m)).
Proof.
  intros Hm. cbn [detect]. unfold hasBoth in Hm. rewrite Hm.
  unfold providerOf, modelOf.
  destruct (mi_providerID (sm_info m)) as [p|], (mi_modelID (sm_info m)) as [i|]; simpl;
    repeat case_match; reflexivity.
Qed.

Lemma detect_earliest l a b :
  Forall (fun m => hasBoth m = false) l →
  detect (rev l) a b
  = (default a (earliest providerOf l), default b (earliest modelOf l)).
Proof.
  intros H. revert a b. induction l as [|x l IH] using rev_ind; intros a b; [reflexivity|].
  apply Forall_app in H as [Hl Hx]. rewrite Forall_singleton in Hx.
  rewrite rev_unit. change (x :: rev l) with ([x] ++ rev l).
  rewrite detect_app by (by constructor). rewrite detect_step by exact Hx.
  cbn [fst snd]. rewrite (IH Hl), !earliest_snoc.
  destruct (earliest providerOf l), (earliest modelOf l); reflexivity.
Qed.

(** X3: the provider and model ids that [resolveModelAndProvider] reports.
    The latest message that names both a provider and a model ends the
    search: the model id is that message's id as it is written (not made
    canonical), the messages before it are never looked at, and the
    provider is its provider made canonical.  Among messages that name only
    one of the two, and where the canonical provider is empty, the value
    of the earliest such message is the one that stays; without any, the
    ids are anthropic and claude-sonnet-4-20250514. *)
Theorem resolveModelAndProvider_ids (msgs : list SessionMessage) :
  (∀ pre m post id,
     msgs = pre ++ m :: post → hasBoth m = true → mi_modelID (sm_info m) = Some id →
     Forall (fun m' => hasBoth m' = false) post →
     mp_modelID (resolveModelAndProvider msgs) = id
     ∧ mp_providerID (resolveModelAndProvider msgs)
       = default "anthropic" (earliest providerOf (m :: post))
     ∧ mp_providerID (resolveModelAndProvider msgs)
       = mp_providerID (resolveModelAndProvider (m :: post)))
  ∧ (Forall (fun m => hasBoth m = false) msgs →
     mp_providerID (resolveModelAndProvider msgs)
     = default "anthropic" (earliest providerOf msgs)
     ∧ mp_modelID (resolveModelAndProvider msgs)
       = default "claude-sonnet-4-20250514" (earliest modelOf msgs)).
Proof.
  split.
  - intros pre m post id -> Hm Hid Hpost.
    assert (Hdetect : ∀ before,
      detect (rev (before ++ m :: post)) "anthropic" "claude-sonnet-4-20250514"
      = (default "anthropic" (earliest providerOf (m :: post)), id)).
    { intros before. rewrite rev_app_distr. cbn [rev]. rewrite <- app_assoc.
      rewrite detect_app by (by apply Forall_rev).
      rewrite detect_earliest by exact Hpost. cbn [fst snd app detect].
      unfold hasBoth in Hm. rewrite Hm, Hid.
      apply andb_true_iff in Hm as [Hp Hi]. rewrite Hid in Hi. simpl in Hi. rewrite Hi.
      f_equal. rewrite earliest_cons. unfold providerOf.
      destruct (mi_providerID (sm_info m)) as [p|]; simpl; [|discriminate].
      destruct (Js.truthy p && Js.truthy (canonical p)); reflexivity. }
    unfold resolveModelAndProvider; cbn [mp_modelID mp_providerID].
    rewrite (Hdetect pre). pose proof (Hdetect []) as Hnil. cbn [app] in Hnil.
    rewrite Hnil. auto.
  - intros H. unfold resolveModelAndProvider; cbn [mp_modelID mp_providerID].
    rewrite detect_earliest by exact H. auto.
Qed.

Lemma resolveModelAndProvider_ids_witness :
  let msgs := [tagged "assistant" (Some "openai") (Some "gpt-4.1");
               tagged "assistant" (Some "Anthropic") (Some "anthropic/Claude-Opus-4");
               tagged "assistant" (Some "google") None] in
  mp_modelID (resolveModelAndProvider msgs) = "anthropic/Claude-Opus-4"
  ∧ mp_providerID (resolveModelAndProvider msgs) = "anthropic".
Proof.
  destruct (proj1 (resolveModelAndProvider_ids
                     [tagged "assistant" (Some "openai") (Some "gpt-4.1");
                      tagged "assistant" (Some "Anthropic") (Some "anthropic/Claude-Opus-4");
                      tagged "assistant" (Some "google") None])
              [tagged "assistant" (Some "openai") (Some "gpt-4.1")]
              (tagged "assistant" (Some "Anthropic") (Some "anthropic/Claude-Opus-4"))
              [tagged "assistant" (Some "google") None]
              "anthropic/Claude-Opus-4" eq_refl eq_refl eq_refl
              ltac:(repeat constructor)) as (Hid & Hprovider & _).
  split; [exact Hid|]. rewrite Hprovider. vm_compute. reflexivity.
Defined.

End ResolverFacts.

(** ** Rational arithmetic *)

Module QcFacts.

Lemma this_plus (a b : Qc) : (this (a + b)%Qc == this a + this b)%Q.
Proof. apply Qred_correct. Qed.

Lemma this_mult (a b : Qc) : (this (a * b)%Qc == this a * this b)%Q.
Proof. apply Qred_correct. Qed.

Lemma this_opp (a : Qc) : (this (- a)%Qc == - this a)%Q.
Proof. apply Qred_correct. Qed.

Lemma this_minus (a b : Qc) : (this (a - b)%Qc == this a - this b)%Q.
Proof. unfold Qcminus. rewrite this_plus, this_opp. reflexivity. Qed.

Lemma this_inv (a : Qc) : (this (/ a)%Qc == / this a)%Q.
Proof. apply Qred_correct. Qed.

Lemma this_div (a b : Qc) : (this (a / b)%Qc == this a / this b)%Q.
Proof. unfold Qcdiv. rewrite this_mult, this_inv. reflexivity. Qed.

Lemma this_of_Z (z : Z) : this (Qc_of_Z z) = inject_Z z.
Proof. reflexivity. Qed.

(** Order and arithmetic of [Qc] read in [Q]. *)
Ltac to_Q :=
  unfold Qcle, Qclt in *;
  repeat first [rewrite this_plus in * | rewrite this_minus in *
               | rewrite this_mult in * | rewrite this_div in *
               | rewrite this_opp in * | rewrite this_inv in *
               | rewrite this_of_Z in *];
  change (this 0%Qc) with 0%Q in *.

(** A part of a whole, scaled: between 0 and the scale. *)
Lemma ratio_bounds (r t c : Q) :
  (0 <= r)%Q → (r <= t)%Q → (0 < t)%Q → (0 <= c)%Q →
  (0 <= r / t * c)%Q ∧ (r / t * c <= c)%Q.
Proof.
  intros Hr Hrt Ht Hc.
  assert (H0 : (0 <= r / t)%Q) by (apply Qle_shift_div_l; [exact Ht|lra]).
  assert (H1 : (r / t <= 1)%Q) by (apply Qle_shift_div_r; [exact Ht|lra]).
  split; nra.
Qed.

Lemma perMillion_0 (price : Qc) : Cost.perMillion 0 price = 0%Qc.
Proof. unfold Cost.perMillion. apply Qc_is_canon. to_Q. field. Qed.

Lemma perMillion_nonneg (n : Z) (price : Qc) :
  0 ≤ n → (0 <= price)%Qc → (0 <= Cost.perMillion n price)%Qc.
Proof.
  intros Hn Hp. unfold Cost.perMillion. to_Q.
  apply Qmult_le_0_compat; [|exact Hp].
  apply Qle_shift_div_l; [reflexivity|]. rewrite Qmult_0_l.
  change 0%Q with (inject_Z 0). by rewrite <- Zle_Qle.
Qed.

End QcFacts.

(** ** Cache efficiency, tool estimates and system prompts of an export *)

Module ContextToolsFacts.
Import Types Context ContextTools ContextToolsSpec QcFacts.

Lemma total_nonneg (f : TokenUsage → option Z) (msgs : list ExportedMessage) (z : Z) :
  Forall (fun message => ∀ tokens, em_tokens (em_info message) = Some tokens →
                           0 ≤ Js.numOr0 (f tokens)) msgs →
  0 ≤ z →
  0 ≤ foldl (fun sum message =>
               match em_role (em_info message), em_tokens (em_info message) with
               | RoleAssistant, Some tokens => sum + Js.numOr0 (f tokens)
               | _, _ => sum
               end) z msgs.
Proof.
  intros H. revert z. induction H as [|m l Hm _ IH]; intros z Hz; simpl; [exact Hz|].
  apply IH. destruct (em_role (em_info m)); [exact Hz|].
  destruct (em_tokens (em_info m)) as [t|]; [|exact Hz].
  specialize (Hm t eq_refl). lia.
Qed.

(** X4: cache efficiency.  For telemetry without negative counts and a
    cache-read price between 0 and the input price: the hit rate is a
    percentage between 0 and 100; the savings are the cached tokens priced
    at the difference of the two prices, so caching never costs more than
    not caching; the savings percentage lies between 0 and 100; and the
    effective rate lies between 0 and the standard rate.  With no input
    tokens at all every rate is 0 (no division is made). *)
Theorem cacheEfficiency_bounds (exported : ExportedSession) (pricing : ModelPricing) :
  nonnegUsage exported →
  (0 <= mp_cacheRead pricing)%Qc → (mp_cacheRead pricing <= mp_input pricing)%Qc →
  let e := calculateCacheEfficiency exported pricing in
  0 ≤ eff_cacheReadTokens e ∧ 0 ≤ eff_freshInputTokens e
  ∧ eff_totalInputTokens e = eff_cacheReadTokens e + eff_freshInputTokens e
  ∧ (0 <= eff_cacheHitRate e)%Qc ∧ (eff_cacheHitRate e <= Qc_of_Z 100)%Qc
  ∧ eff_costSavings e
    = Cost.perMillion (eff_cacheReadTokens e)
                      (mp_input pricing - mp_cacheRead pricing)%Qc
  ∧ (0 <= eff_costSavings e)%Qc
  ∧ (eff_costWithCaching e <= eff_costWithoutCaching e)%Qc
  ∧ (0 <= eff_savingsPercent e)%Qc ∧ (eff_savingsPercent e <= Qc_of_Z 100)%Qc
  ∧ (0 <= eff_effectiveRate e)%Qc ∧ (eff_effectiveRate e <= eff_standardRate e)%Qc
  ∧ (eff_totalInputTokens e = 0 →
     eff_cacheHitRate e = 0%Qc ∧ eff_savingsPercent e = 0%Qc
     ∧ eff_effectiveRate e = 0%Qc).
Proof.
  intros Husage Hread Hle e. subst e. unfold calculateCacheEfficiency.
  cbn [eff_cacheReadTokens eff_freshInputTokens eff_totalInputTokens eff_cacheHitRate
       eff_costSavings eff_costWithCaching eff_costWithoutCaching eff_savingsPercent
       eff_effectiveRate eff_standardRate].
  match goal with |- context [foldl ?g 0 (messages exported)] =>
    match g with context [cacheRead] => set (R := foldl g 0 (messages exported)) end end.
  match goal with |- context [foldl ?g 0 (messages exported)] =>
    match g with context [tu_input] => set (F := foldl g 0 (messages exported)) end end.
  assert (HR : 0 ≤ R).
  { apply total_nonneg; [|lia]. eapply Forall_impl; [exact Husage|].
    intros m Hm t Ht. by apply Hm. }
  assert (HF : 0 ≤ F).
  { apply total_nonneg; [|lia]. eapply Forall_impl; [exact Husage|].
    intros m Hm t Ht. by apply Hm. }
  clearbody R F. clear Husage.
  set (pi := mp_input pricing) in *. set (pc := mp_cacheRead pricing) in *.
  clearbody pi pc.
  assert (Hsave : (Cost.perMillion (R + F) pi
                   - (Cost.perMillion F pi + Cost.perMillion R pc))%Qc
                  = Cost.perMillion R (pi - pc)%Qc).
  { unfold Cost.perMillion. apply Qc_is_canon. to_Q.
    rewrite inject_Z_plus. field. }
  assert (Hsave0 : (0 <= Cost.perMillion R (pi - pc))%Qc).
  { apply perMillion_nonneg; [exact HR|]. to_Q. lra. }
  assert (Hwith0 : (0 <= Cost.perMillion F pi + Cost.perMillion R pc)%Qc).
  { pose proof (perMillion_nonneg F pi HF) as H1.
    pose proof (perMillion_nonneg R pc HR Hread) as H2.
    assert (Hpi : (0 <= pi)%Qc) by (to_Q; lra). specialize (H1 Hpi).
    revert H1 H2. generalize (Cost.perMillion F pi) (Cost.perMillion R pc).
    intros x y Hx Hy. to_Q. lra. }
  rewrite Hsave.
  assert (HwithLe : (Cost.perMillion F pi + Cost.perMillion R pc
                     <= Cost.perMillion (R + F) pi)%Qc).
  { apply Qcle_minus_iff. fold (Qcminus (Cost.perMillion (R + F) pi)
                                         (Cost.perMillion F pi + Cost.perMillion R pc)).
    rewrite Hsave. exact Hsave0. }
  assert (Hhit : (0 <= (if 0 <? R + F
                        then Qc_of_Z R / Qc_of_Z (R + F) * Qc_of_Z 100 else 0))%Qc
                 ∧ ((if 0 <? R + F
                     then Qc_of_Z R / Qc_of_Z (R + F) * Qc_of_Z 100 else 0)
                    <= Qc_of_Z 100)%Qc).
  { destruct (Z.ltb_spec 0 (R + F)) as [Hpos|_]; [|split; [apply Qcle_refl|done]].
    to_Q. apply ratio_bounds.
    - change 0%Q with (inject_Z 0). by rewrite <- Zle_Qle.
    - rewrite <- Zle_Qle. lia.
    - change 0%Q with (inject_Z 0). by rewrite <- Zlt_Qlt.
    - done. }
  assert (Hpercent :
    (0 <= (if bool_decide (0 < Cost.perMillion (R + F) pi)%Qc
           then Cost.perMillion R (pi - pc) / Cost.perMillion (R + F) pi * Qc_of_Z 100
           else 0))%Qc
    ∧ ((if bool_decide (0 < Cost.perMillion (R + F) pi)%Qc
        then Cost.perMillion R (pi - pc) / Cost.perMillion (R + F) pi * Qc_of_Z 100
        else 0) <= Qc_of_Z 100)%Qc).
  { case_bool_decide as Hpos; [|split; [apply Qcle_refl|done]].
    rewrite <- Hsave in *. revert Hpos Hsave0 Hwith0.
    generalize (Cost.perMillion (R + F) pi)
               (Cost.perMillion F pi + Cost.perMillion R pc)%Qc.
    intros without with_ Hpos Hsave0 Hwith0. to_Q.
    apply ratio_bounds; [exact Hsave0|lra|exact Hpos|done]. }
  assert (Hrate :
    (0 <= (if 0 <? R + F
           then (Cost.perMillion F pi + Cost.perMillion R pc) / Qc_of_Z (R + F)
                * Qc_of_Z 1000000 else 0))%Qc
    ∧ ((if 0 <? R + F
        then (Cost.perMillion F pi + Cost.perMillion R pc) / Qc_of_Z (R + F)
             * Qc_of_Z 1000000 else 0) <= pi)%Qc).
  { destruct (Z.ltb_spec 0 (R + F)) as [Hpos|_].
    - split.
      + revert Hwith0. generalize (Cost.perMillion F pi + Cost.perMillion R pc)%Qc.
        intros with_ Hwith0. to_Q.
        apply Qmult_le_0_compat; [|done].
        apply Qle_shift_div_l; [|lra].
        change 0%Q with (inject_Z 0). by rewrite <- Zlt_Qlt.
      + unfold Cost.perMillion. to_Q. rewrite inject_Z_plus.
        assert (Hr : (0 <= inject_Z R)%Q)
          by (change 0%Q with (inject_Z 0); by rewrite <- Zle_Qle).
        assert (Hf : (0 <= inject_Z F)%Q)
          by (change 0%Q with (inject_Z 0); by rewrite <- Zle_Qle).
        assert (Ht : (0 < inject_Z R + inject_Z F)%Q).
        { rewrite <- inject_Z_plus. change 0%Q with (inject_Z 0).
          by rewrite <- Zlt_Qlt. }
        revert Hr Hf Ht. generalize (inject_Z R) (inject_Z F). intros r f Hr Hf Ht.
        setoid_replace ((f / inject_Z 1000000 * pi + r / inject_Z 1000000 * pc)
                        / (r + f) * inject_Z 1000000)%Q
          with ((f * pi + r * pc) / (r + f))%Q using relation Qeq by (field; lra).
        apply Qle_shift_div_r; [exact Ht|]. nra.
    - split; [apply Qcle_refl|]. to_Q. lra. }
  split; [exact HR|]. split; [exact HF|]. split; [reflexivity|].
  split; [apply Hhit|]. split; [apply Hhit|]. split; [reflexivity|].
  split; [exact Hsave0|]. split; [exact HwithLe|].
  split; [apply Hpercent|]. split; [apply Hpercent|].
  split; [apply Hrate|]. split; [apply Hrate|].
  intros Hzero. rewrite Hzero, perMillion_0. auto.
Qed.

Lemma cacheEfficiency_bounds_witness :
  let e := calculateCacheEfficiency (cachedTurn 9000 1000) (CostSpec.price 3 15 4 1) in
  eff_costSavings e = Cost.perMillion 9000 (Qc_of_Z 3 - Qc_of_Z 1)%Qc
  ∧ (eff_effectiveRate e <= eff_standardRate e)%Qc.
Proof.
  assert (Husage : nonnegUsage (cachedTurn 9000 1000)).
  { repeat constructor; injection H as <-; simpl; lia. }
  destruct (cacheEfficiency_bounds (cachedTurn 9000 1000) (CostSpec.price 3 15 4 1)
              Husage ltac:(done) ltac:(done))
    as (_ & _ & _ & _ & _ & Hsave & _ & _ & _ & _ & _ & Hrate & _).
  split; [exact Hsave|exact Hrate].
Defined.

(** *** Tool schema estimates *)










(** *** The system prompts of the export *)

Lemma elem_of_add prompts prompt x : x ∈ add prompts prompt ↔ x ∈ prompts ∨ x = prompt.
Proof.
  unfold add. case_bool_decide as Hin.
  - split; [auto|]. intros [?| ->]; assumption.
  - rewrite elem_of_app, list_elem_of_singleton. reflexivity.
Qed.

Lemma NoDup_add prompts prompt : NoDup prompts → NoDup (add prompts prompt).
Proof.
  intros H. unfold add. case_bool_decide as Hin; [exact H|].
  apply NoDup_app. split; [exact H|]. split; [|apply NoDup_singleton].
  intros x Hx ->%list_elem_of_singleton. contradiction.
Qed.

Lemma truthy_true s : Js.truthy s = true ↔ s ≠ "".
Proof. destruct s; simpl; split; congruence. Qed.

Lemma truthy_trimmed raw :
  Js.truthy raw && Js.truthy (Js.trim raw) = true ↔ Js.trim raw ≠ "".
Proof.
  rewrite andb_true_iff, !truthy_true. split; [tauto|].
  intros H. split; [|exact H]. intros ->. by apply H.
Qed.

Lemma prompts_of_message prompts (system : list string) :
  let after :=
    foldl (fun prompts prompt =>
             if Js.truthy prompt && Js.truthy (Js.trim prompt)
             then add prompts (Js.trim prompt) else prompts) prompts system in
  (NoDup prompts → NoDup after)
  ∧ ∀ x, x ∈ after ↔ x ∈ prompts ∨ (x ≠ "" ∧ ∃ raw, raw ∈ system ∧ Js.trim raw = x).
Proof.
  revert prompts. induction system as [|raw system IH]; intros prompts; cbn [foldl].
  - split; [auto|]. intros x. split; [auto|].
    intros [?|(_ & raw & Hraw & _)]; [assumption|]. by apply elem_of_nil in Hraw.
  - destruct (IH (if Js.truthy raw && Js.truthy (Js.trim raw)
                  then add prompts (Js.trim raw) else prompts)) as [Hdup Hin].
    split.
    + intros H. apply Hdup. destruct (_ && _); [by apply NoDup_add|exact H].
    + intros x. rewrite Hin. clear Hdup Hin IH.
      destruct (Js.truthy raw && Js.truthy (Js.trim raw)) eqn:Hraw.
      * apply truthy_trimmed in Hraw. rewrite elem_of_add. split.
        -- intros [[?| ->]|(Hx & raw' & Hin & Htrim)]; [auto| |].
           ++ right. split; [exact Hraw|]. exists raw. split; [apply list_elem_of_here|done].
           ++ right. split; [exact Hx|]. exists raw'.
              split; [by apply list_elem_of_further|done].
        -- intros [?|(Hx & raw' & Hin & Htrim)]; [auto|].
           apply elem_of_cons in Hin as [->|Hin]; [auto|].
           right. split; [exact Hx|]. eauto.
      * assert (Hblank : Js.trim raw = "").
        { destruct (decide (Js.trim raw = "")) as [|Hne]; [assumption|].
          apply truthy_trimmed in Hne. congruence. }
        split.
        -- intros [?|(Hx & raw' & Hin & Htrim)]; [auto|].
           right. split; [exact Hx|]. exists raw'.
           split; [by apply list_elem_of_further|done].
        -- intros [?|(Hx & raw' & Hin & Htrim)]; [auto|].
           apply elem_of_cons in Hin as [->|Hin]; [congruence|].
           right. split; [exact Hx|]. eauto.
Qed.

(** X6: the system prompts read from an export are a set: no prompt is
    listed twice, and a string is listed exactly when it is not empty and
    is the trimmed form of a prompt that some assistant message carries. *)
Theorem extractSystemPrompts_set (exported : ExportedSession) :
  NoDup (extractSystemPrompts exported)
  ∧ ∀ prompt, prompt ∈ extractSystemPrompts exported ↔
      prompt ≠ ""
      ∧ ∃ message system raw,
          message ∈ messages exported
          ∧ em_role (em_info message) = RoleAssistant
          ∧ em_system (em_info message) = Some system
          ∧ raw ∈ system ∧ Js.trim raw = prompt.
Proof.
  unfold extractSystemPrompts.
  assert (Hgen : ∀ msgs prompts,
    let after :=
      foldl (fun prompts message =>
               match em_role (em_info message), em_system (em_info message) with
               | RoleAssistant, Some system =>
                   foldl (fun prompts prompt =>
                            if Js.truthy prompt && Js.truthy (Js.trim prompt)
                            then add prompts (Js.trim prompt) else prompts)
                         prompts system
               | _, _ => prompts
               end) prompts msgs in
    (NoDup prompts → NoDup after)
    ∧ ∀ x, x ∈ after ↔
        x ∈ prompts
        ∨ (x ≠ "" ∧ ∃ message system raw,
             message ∈ msgs ∧ em_role (em_info message) = RoleAssistant
             ∧ em_system (em_info message) = Some system
             ∧ raw ∈ system ∧ Js.trim raw = x)).
  { induction msgs as [|m msgs IH]; intros prompts; cbn [foldl].
    - split; [auto|]. intros x. split; [auto|].
      intros [?|(_ & m & _ & _ & Hm & _)]; [assumption|]. by apply elem_of_nil in Hm.
    - match goal with |- context [foldl _ ?p msgs] => destruct (IH p) as [Hdup Hin] end.
      split.
      + intros H. apply Hdup.
        destruct (em_role (em_info m)); [exact H|].
        destruct (em_system (em_info m)) as [system|]; [|exact H].
        by apply prompts_of_message.
      + intros x. rewrite Hin. clear Hdup Hin IH.
        destruct (em_role (em_info m)) eqn:Hrole.
        * split.
          -- intros [?|(Hx & m' & system & raw & Hm' & Hr & Hs & Hraw)]; [auto|].
             right. split; [exact Hx|]. exists m', system, raw.
             split; [by apply list_elem_of_further|done].
          -- intros [?|(Hx & m' & system & raw & Hm' & Hr & Hs & Hraw)]; [auto|].
             apply elem_of_cons in Hm' as [->|Hm']; [congruence|].
             right. split; [exact Hx|]. exists m', system, raw. done.
        * destruct (em_system (em_info m)) as [system|] eqn:Hsystem.
          -- rewrite (proj2 (prompts_of_message prompts system)). split.
             ++ intros [[?|(Hx & raw & Hraw & Htrim)]
                       |(Hx & m' & system' & raw & Hm' & Hr & Hs & Hraw)]; [auto| |].
                ** right. split; [exact Hx|]. exists m, system, raw.
                   split; [apply list_elem_of_here|done].
                ** right. split; [exact Hx|]. exists m', system', raw.
                   split; [by apply list_elem_of_further|done].
             ++ intros [?|(Hx & m' & system' & raw & Hm' & Hr & Hs & Hraw)]; [auto|].
                apply elem_of_cons in Hm' as [->|Hm'].
                ** left. right. split; [exact Hx|]. exists raw.
                   rewrite Hsystem in Hs. injection Hs as <-. done.
                ** right. split; [exact Hx|]. exists m', system', raw. done.
          -- split.
             ++ intros [?|(Hx & m' & system & raw & Hm' & Hr & Hs & Hraw)]; [auto|].
                right. split; [exact Hx|]. exists m', system, raw.
                split; [by apply list_elem_of_further|done].
             ++ intros [?|(Hx & m' & system & raw & Hm' & Hr & Hs & Hraw)]; [auto|].
                apply elem_of_cons in Hm' as [->|Hm']; [congruence|].
                right. split; [exact Hx|]. exists m', system, raw. done. }
  destruct (Hgen (messages exported) []) as [Hdup Hin].
  split; [apply Hdup, NoDup_nil_2|].
  intros prompt. rewrite Hin. split; [|auto].
  intros [Hnil|?]; [by apply elem_of_nil in Hnil|assumption].
Qed.

End ContextToolsFacts.

(** ** The top contributors *)

Module FormatterFacts.
Import Types Formatter JsFacts.

(** X7: the top contributors of the report.  For a limit that is not
    negative (the report asks for 5) they are at most [limit] entries, each
    with a positive token count and each an entry of one of the five
    categories, in descending order of their token counts; and no entry
    with a positive count that was left out counts more tokens than one
    that is listed. *)
Theorem collectTopEntries_top (analysis : TokenAnalysis) (limit : Z) :
  0 ≤ limit →
  let cats := categories analysis in
  let pool := cs_allEntries (system cats) ++ cs_allEntries (user cats)
              ++ cs_allEntries (assistant cats) ++ cs_allEntries (tools cats)
              ++ cs_allEntries (reasoning cats) in
  let top := collectTopEntries analysis limit in
  (length top ≤ Z.to_nat limit)%nat
  ∧ StronglySorted (Js.desc ce_tokens) top
  ∧ Forall (fun entry => 0 < ce_tokens entry ∧ entry ∈ pool) top
  ∧ ∃ rest, top ++ rest ≡ₚ filter (fun entry => 0 < ce_tokens entry) pool
            ∧ ∀ listed left, listed ∈ top → left ∈ rest →
                ce_tokens left ≤ ce_tokens listed.
Proof.
  intros Hlimit cats pool top. subst top. unfold collectTopEntries.
  fold cats. fold pool.
  set (sorted := Js.sortDesc ce_tokens (filter (fun entry => 0 < ce_tokens entry) pool)).
  unfold Js.slice0. destruct (Z.ltb_spec limit 0) as [|_]; [lia|].
  pose proof (sortDesc_sorted ce_tokens
                (filter (fun entry => 0 < ce_tokens entry) pool)) as Hsorted.
  pose proof (sortDesc_perm ce_tokens
                (filter (fun entry => 0 < ce_tokens entry) pool)) as Hperm.
  fold sorted in Hsorted, Hperm.
  rewrite <- (take_drop (Z.to_nat limit) sorted) in Hsorted.
  apply StronglySorted_app in Hsorted as (Horder & Htake & _).
  split; [rewrite length_take; lia|]. split; [exact Htake|]. split.
  - apply Forall_forall. intros entry Hin.
    assert (Hin' : entry ∈ filter (fun entry => 0 < ce_tokens entry) pool).
    { rewrite <- Hperm. by apply (subseteq_take (Z.to_nat limit) sorted). }
    by apply list_elem_of_filter in Hin'.
  - exists (drop (Z.to_nat limit) sorted). split.
    + by rewrite take_drop.
    + intros listed left Hlisted Hleft. by apply (Horder listed left).
Qed.

Lemma collectTopEntries_top_witness :
  0 ≤ 5
  ∧ (length (collectTopEntries
               (Analyzer.localAnalysis "s" [] TokenizerSpec.approxModel
                  {| system := {| cs_label := "system"; cs_totalTokens := 6;
                                  cs_entries := []; cs_allEntries :=
                                    [{| ce_label := "System#1"; ce_tokens := 6 |}] |};
                     user := {| cs_label := "user"; cs_totalTokens := 0;
                                cs_entries := []; cs_allEntries := [] |};
                     assistant := {| cs_label := "assistant"; cs_totalTokens := 0;
                                     cs_entries := []; cs_allEntries := [] |};
                     tools := {| cs_label := "tools"; cs_totalTokens := 0;
                                 cs_entries := []; cs_allEntries := [] |};
                     reasoning := {| cs_label := "reasoning"; cs_totalTokens := 0;
                                     cs_entries := []; cs_allEntries := [] |} |})
               5) ≤ Z.to_nat 5)%nat.
Proof.
  split; [lia|].
  refine (proj1 (collectTopEntries_top _ 5 _)). lia.
Defined.

End FormatterFacts.

(** ** The content collector *)

Module CollectorFacts.
Import Types Analyzer CollectorSpec JsFacts.

(** *** Tool calls *)

Lemma callCount_countCallOf name toolName toolCounts :
  callCount name (countCallOf toolName toolCounts)
  = callCount name toolCounts + (if decide (toolName = name) then 1 else 0).
Proof.
  unfold callCount. induction toolCounts as [|[k n] toolCounts IH]; simpl.
  - rewrite bool_decide_decide. destruct (decide (toolName = name)); reflexivity.
  - destruct (bool_decide (k = toolName)) eqn:Hk; simpl.
    + apply bool_decide_eq_true in Hk as ->. rewrite !bool_decide_decide.
      destruct (decide (toolName = name)); simpl; lia.
    + apply bool_decide_eq_false in Hk. rewrite !bool_decide_decide.
      destruct (decide (k = name)) as [->|]; simpl.
      * rewrite decide_False by congruence. lia.
      * exact IH.
Qed.

Lemma keys_countCallOf toolName toolCounts :
  fst <$> countCallOf toolName toolCounts
  = if bool_decide (toolName ∈ fst <$> toolCounts) then fst <$> toolCounts
    else (fst <$> toolCounts) ++ [toolName].
Proof.
  induction toolCounts as [|[k n] toolCounts IH]; csimpl.
  - reflexivity.
  - destruct (bool_decide (k = toolName)) eqn:Hk; csimpl.
    + apply bool_decide_eq_true in Hk as ->.
      rewrite bool_decide_eq_true_2 by apply list_elem_of_here. reflexivity.
    + apply bool_decide_eq_false in Hk. rewrite IH.
      destruct (bool_decide (toolName ∈ fst <$> toolCounts)) eqn:Hin.
      * apply bool_decide_eq_true in Hin.
        rewrite bool_decide_eq_true_2 by (by apply list_elem_of_further). reflexivity.
      * apply bool_decide_eq_false in Hin.
        rewrite bool_decide_eq_false_2; [reflexivity|].
        intros [?|?]%elem_of_cons; congruence.
Qed.

Lemma sum_countCallOf toolName toolCounts :
  foldr Z.add 0 (snd <$> countCallOf toolName toolCounts)
  = foldr Z.add 0 (snd <$> toolCounts) + 1.
Proof.
  induction toolCounts as [|[k n] toolCounts IH]; csimpl; [reflexivity|].
  destruct (bool_decide (k = toolName)); csimpl; lia.
Qed.

Lemma positive_countCallOf toolName toolCounts :
  Forall (fun kv => 0 < kv.2) toolCounts →
  Forall (fun kv => 0 < kv.2) (countCallOf toolName toolCounts).
Proof.
  induction 1 as [|[k n] toolCounts Hn Hrest IH]; simpl.
  - repeat constructor.
  - destruct (bool_decide (k = toolName)); constructor; simpl in *; auto; lia.
Qed.

(** The counts after the calls [names], from the counts [toolCounts]. *)
Lemma collectToolCallCounts_fold msgs :
  collectToolCallCounts msgs = foldl (fun counts name => countCallOf name counts) []
                                     (toolCalls msgs).
Proof.
  unfold collectToolCallCounts, toolCalls.
  generalize (@nil (string * Z)) as counts.
  induction msgs as [|m msgs IH]; intros counts; [reflexivity|].
  cbn [foldl flat_map]. rewrite omap_app, foldl_app, IH. f_equal.
  generalize (sm_parts m) as parts. clear. intros parts. revert counts.
  induction parts as [|part parts IHp]; intros counts; [reflexivity|].
  cbn [foldl]. rewrite IHp. destruct part; reflexivity.
Qed.

Lemma counts_of_calls names :
  let counts := foldl (fun counts name => countCallOf name counts) [] names in
  NoDup (fst <$> counts)
  ∧ Forall (fun kv => 0 < kv.2) counts
  ∧ (∀ name, callCount name counts = occurrences name names)
  ∧ (∀ name, name ∈ fst <$> counts ↔ name ∈ names)
  ∧ foldr Z.add 0 (snd <$> counts) = Z.of_nat (length names).
Proof.
  induction names as [|x names IH] using rev_ind.
  - simpl. split; [apply NoDup_nil_2|]. split; [constructor|].
    split; [reflexivity|]. split; [|reflexivity]. intros name. reflexivity.
  - cbn zeta in *. rewrite foldl_snoc.
    destruct IH as (Hdup & Hpos & Hcount & Hkeys & Hsum).
    set (counts := foldl (fun counts name => countCallOf name counts) [] names) in *.
    split; [|split; [|split; [|split]]].
    + rewrite keys_countCallOf. case_bool_decide as Hin; [exact Hdup|].
      apply NoDup_app. split; [exact Hdup|]. split; [|apply NoDup_singleton].
      intros y Hy ->%list_elem_of_singleton. contradiction.
    + by apply positive_countCallOf.
    + intros name. rewrite callCount_countCallOf, Hcount. unfold occurrences.
      rewrite filter_app, length_app. cbn [filter list_filter].
      destruct (decide (x = name)); simpl; lia.
    + intros name. rewrite keys_countCallOf, elem_of_app, list_elem_of_singleton.
      case_bool_decide as Hin.
      * rewrite Hkeys. split; [auto|]. intros [?| ->]; [assumption|by apply Hkeys].
      * rewrite elem_of_app, list_elem_of_singleton, Hkeys. reflexivity.
    + rewrite sum_countCallOf, Hsum, length_app. simpl. lia.
Qed.

(** X8: the tool-call counts are the histogram of the tool parts of the
    transcript, whatever the state of a call: every tool is listed once,
    with the number of its calls, which is at least 1; a tool is listed
    exactly when it was called; the counts add up to the number of tool
    parts; and a part without a tool name is counted as "tool". *)
Theorem collectToolCallCounts_histogram (msgs : list SessionMessage) :
  let counts := collectToolCallCounts msgs in
  NoDup (fst <$> counts)
  ∧ Forall (fun kv => 1 ≤ kv.2) counts
  ∧ (∀ name, callCount name counts = occurrences name (toolCalls msgs))
  ∧ (∀ name, name ∈ fst <$> counts ↔ name ∈ toolCalls msgs)
  ∧ foldr Z.add 0 (snd <$> counts) = Z.of_nat (length (toolCalls msgs)).
Proof.
  intros counts. subst counts. rewrite collectToolCallCounts_fold.
  destruct (counts_of_calls (toolCalls msgs)) as (Hdup & Hpos & Hcount & Hkeys & Hsum).
  split; [exact Hdup|]. split; [|auto].
  eapply Forall_impl; [exact Hpos|]. intros kv; simpl; lia.
Qed.

(** *** The sorted tool names *)

Lemma ltb_leb (x y : string) : String.ltb y x = negb (String.leb x y).
Proof.
  unfold String.ltb, String.leb. rewrite (String.compare_antisym x y).
  destruct (String.compare y x); reflexivity.
Qed.

Lemma insertString_perm x l : insertString x l ≡ₚ x :: l.
Proof.
  induction l as [|y l IH]; simpl; [reflexivity|].
  destruct (String.ltb y x); [|reflexivity].
  rewrite IH. apply perm_swap.
Qed.

Lemma insertString_sorted x l :
  StronglySorted String.le l → StronglySorted String.le (insertString x l).
Proof.
  induction 1 as [|y l Hl IH Hy]; simpl; [repeat constructor|].
  rewrite ltb_leb. destruct (String.leb x y) eqn:Hxy; simpl.
  - constructor; [by constructor|].
    assert (Hle : String.le x y) by (unfold String.le; by rewrite Hxy).
    constructor; [exact Hle|].
    eapply Forall_impl; [exact Hy|]. intros z Hz. by etrans.
  - constructor; [exact IH|].
    rewrite (insertString_perm x l). constructor; [|exact Hy].
    destruct (total String.le x y) as [H|H]; [|exact H].
    unfold String.le in H. rewrite Hxy in H. done.
Qed.

(** X9: the list of all tools called is the list of the tools that have a
    call, each once, in ascending order of their names by code units. *)
Theorem collectAllToolsCalled_sorted (msgs : list SessionMessage) :
  let called := collectAllToolsCalled msgs in
  StronglySorted String.le called
  ∧ NoDup called
  ∧ ∀ name, name ∈ called ↔ name ∈ toolCalls msgs.
Proof.
  intros called. subst called. unfold collectAllToolsCalled.
  pose proof (counts_of_calls (toolCalls msgs)) as (Hdup & _ & _ & Hkeys & _).
  rewrite <- collectToolCallCounts_fold in Hdup, Hkeys.
  assert (Hperm : foldr insertString [] (fst <$> collectToolCallCounts msgs)
                  ≡ₚ fst <$> collectToolCallCounts msgs).
  { generalize (fst <$> collectToolCallCounts msgs). intros l.
    induction l as [|x l IH]; simpl; [reflexivity|].
    rewrite insertString_perm, IH. reflexivity. }
  split; [|split].
  - generalize (fst <$> collectToolCallCounts msgs). intros l.
    induction l as [|x l IH]; simpl; [constructor|]. by apply insertString_sorted.
  - by rewrite Hperm.
  - intros name. rewrite Hperm. apply Hkeys.
Qed.

(** *** Texts *)

Lemma extractText_join parts : extractText parts = joinBlank (omap textOf parts).
Proof. reflexivity. Qed.

Lemma joinBlank_snoc texts text :
  joinBlank (texts ++ [text])
  = match texts with
    | [] => text
    | _ => joinBlank texts +:+ blankLine +:+ text
    end.
Proof.
  destruct texts as [|first rest]; [reflexivity|].
  unfold joinBlank. cbn [app]. by rewrite foldl_snoc.
Qed.

Lemma append_empty (a b : string) : a +:+ b = "" → a = "" ∧ b = "".
Proof. destruct a; simpl; [auto|discriminate]. Qed.

Lemma joinBlank_empty texts :
  Forall (fun text => text ≠ "") texts → joinBlank texts = "" → texts = [].
Proof.
  induction texts as [|text texts IH] using rev_ind; [reflexivity|].
  intros [Hall Hlast]%Forall_app. rewrite Forall_singleton in Hlast.
  rewrite joinBlank_snoc. destruct texts as [|first rest]; [congruence|].
  intros [_ [Hnl _]%append_empty]%append_empty. discriminate.
Qed.

Lemma textOf_nonempty part text : textOf part = Some text → text ≠ "".
Proof.
  destruct part; simpl; try discriminate.
  destruct (Js.truthy _) eqn:Ht; [|discriminate].
  intros [= <-]. destruct (Js.trim _); [discriminate|congruence].
Qed.

(** X10: the text of a message is empty exactly when the message has no
    text part whose text is not blank; parts of other types never add to
    it, and what it joins are the trimmed texts, in order, separated by a
    blank line. *)
Theorem extractText_blank (parts : list SessionMessagePart) :
  extractText parts = joinBlank (omap textOf parts)
  ∧ (extractText parts = "" ↔
     Forall (fun part =>
               match part with
               | TextPart text => Js.allWhiteSpace (default "" text) = true
               | _ => True
               end) parts).
Proof.
  split; [reflexivity|]. rewrite extractText_join. split.
  - intros H. apply joinBlank_empty in H.
    + induction parts as [|part parts IH]; [constructor|].
      simpl in H. destruct (textOf part) as [text|] eqn:Hpart; [discriminate|].
      constructor; [|by apply IH].
      destruct part as [text| | |]; try exact I. simpl in Hpart.
      rewrite truthy_trim in Hpart.
      destruct (Js.allWhiteSpace (default "" text)); [reflexivity|discriminate].
    + apply Forall_forall. intros text (part & _ & Hpart)%list_elem_of_omap.
      by apply (textOf_nonempty part).
  - intros H. replace (omap textOf parts) with (@nil string); [reflexivity|].
    induction H as [|part parts Hpart _ IH]; [reflexivity|].
    cbn [omap list_omap]. fold (omap textOf parts). rewrite <- IH.
    destruct part as [text| | |]; try reflexivity.
    simpl. by rewrite truthy_trim, Hpart.
Qed.

Lemma imap_snoc {A B} (f : nat → A → B) (l : list A) (x : A) :
  imap f (l ++ [x]) = imap f l ++ [f (length l) x].
Proof.
  rewrite imap_app. simpl. by rewrite Nat.add_0_r.
Qed.

(** X11: the message texts of a role and the reasoning texts are numbered
    from 1 without gaps, in transcript order: the i-th message of the role
    that has a text is labelled Role#i (User#1, Assistant#2, ...), the i-th
    reasoning part that is not blank is labelled Reasoning#i; messages and
    parts without text take no number. *)
Theorem collected_texts_numbered (msgs : list SessionMessage) (role : string) :
  collectMessageTexts msgs role = numbered (capitalize role) (textsOf role msgs)
  ∧ collectReasoningTexts msgs = numbered "Reasoning" (reasoningOf msgs)
  ∧ Forall (fun text => text ≠ "") (textsOf role msgs)
  ∧ Forall (fun text => text ≠ "") (reasoningOf msgs).
Proof.
  split; [|split; [|split]].
  - unfold collectMessageTexts, textsOf, numbered.
    induction msgs as [|m msgs IH] using rev_ind; [reflexivity|].
    rewrite foldl_snoc, omap_app, IH. cbn [omap list_omap].
    case_bool_decide; [|by rewrite app_nil_r].
    destruct (Js.truthy (extractText (sm_parts m))); [|by rewrite app_nil_r].
    cbn [omap list_omap]. rewrite imap_snoc, length_imap. reflexivity.
  - unfold collectReasoningTexts, reasoningOf, numbered.
    induction msgs as [|m msgs IH] using rev_ind; [reflexivity|].
    rewrite foldl_snoc, flat_map_app, omap_app, IH. cbn [flat_map]. rewrite app_nil_r.
    generalize (omap (fun part =>
                        match part with
                        | ReasoningPart text =>
                            let trimmed := Js.trim (default "" text) in
                            if Js.truthy trimmed then Some trimmed else None
                        | _ => None
                        end) (flat_map sm_parts msgs)) as before.
    intros before. generalize (sm_parts m) as parts. clear. intros parts.
    induction parts as [|part parts IHp] using rev_ind; [by rewrite app_nil_r|].
    rewrite foldl_snoc, omap_app, IHp. cbn [omap list_omap].
    destruct part as [|text| |]; try by rewrite app_nil_r.
    cbn zeta. destruct (Js.truthy (Js.trim (default "" text))); [|by rewrite app_nil_r].
    cbn [app]. rewrite !app_assoc, imap_snoc, length_imap. reflexivity.
  - apply Forall_forall. intros text (m & _ & Hm)%list_elem_of_omap.
    case_bool_decide; [|discriminate]. cbn zeta in Hm.
    destruct (Js.truthy (extractText (sm_parts m))) eqn:Ht; [|discriminate].
    injection Hm as <-. destruct (extractText (sm_parts m)); [discriminate|congruence].
  - apply Forall_forall. intros text (part & _ & Hpart)%list_elem_of_omap.
    destruct part as [|raw| |]; try discriminate.
    cbn zeta in Hpart. destruct (Js.truthy (Js.trim (default "" raw))) eqn:Ht;
      [|discriminate].
    injection Hpart as <-. destruct (Js.trim (default "" raw)); [discriminate|congruence].
Qed.

(** *** Tool outputs *)

Lemma collectToolOutputs_fold msgs :
  collectToolOutputs msgs
  = (fun kv : string * string => {| src_label := kv.1; src_content := kv.2 |})
    <$> foldl (fun outputs (call : string * string) =>
                 appendOutput call.1 call.2 outputs) [] (completedOutputs msgs).
Proof.
  unfold collectToolOutputs, completedOutputs. f_equal.
  generalize (@nil (string * string)) as outputs.
  induction msgs as [|m msgs IH]; intros outputs; [reflexivity|].
  cbn [foldl flat_map]. rewrite omap_app, foldl_app, IH. f_equal.
  generalize (sm_parts m) as parts. clear. intros parts. revert outputs.
  induction parts as [|part parts IHp]; intros outputs; [reflexivity|].
  cbn [foldl]. rewrite IHp. destruct part as [| |tool state|]; try reflexivity.
  cbn [omap list_omap]. destruct (ts_status state); try reflexivity.
  cbn zeta. destruct (Js.truthy (Js.trim (default "" (ts_output state)))); reflexivity.
Qed.

Lemma keys_appendOutput name output outputs :
  fst <$> appendOutput name output outputs
  = if bool_decide (name ∈ fst <$> outputs) then fst <$> outputs
    else (fst <$> outputs) ++ [name].
Proof.
  induction outputs as [|[k existing] outputs IH]; csimpl.
  - reflexivity.
  - destruct (bool_decide (k = name)) eqn:Hk; csimpl.
    + apply bool_decide_eq_true in Hk as ->.
      rewrite bool_decide_eq_true_2 by apply list_elem_of_here. reflexivity.
    + apply bool_decide_eq_false in Hk. rewrite IH.
      destruct (bool_decide (name ∈ fst <$> outputs)) eqn:Hin.
      * apply bool_decide_eq_true in Hin.
        rewrite bool_decide_eq_true_2 by (by apply list_elem_of_further). reflexivity.
      * apply bool_decide_eq_false in Hin.
        rewrite bool_decide_eq_false_2; [reflexivity|].
        intros [?|?]%elem_of_cons; congruence.
Qed.

Lemma appendOutput_Forall (Q : string * string → Prop) name output outputs :
  NoDup (fst <$> outputs) →
  Forall (fun kv => kv.1 ≠ name → Q kv) outputs →
  Forall (fun kv => kv.1 = name →
            Q (kv.1, kv.2 +:+ (if Js.truthy kv.2 then blankLine else "") +:+ output))
         outputs →
  (name ∉ fst <$> outputs → Q (name, output)) →
  Forall Q (appendOutput name output outputs).
Proof.
  induction outputs as [|[k existing] outputs IH]; csimpl; intros Hdup Hother Hsame Hnew.
  - constructor; [|constructor]. apply Hnew, not_elem_of_nil.
  - apply NoDup_cons in Hdup as [Hk Hdup].
    apply Forall_cons in Hother as [Hother1 Hother].
    apply Forall_cons in Hsame as [Hsame1 Hsame]. simpl in *.
    case_bool_decide as Hname.
    + subst k. constructor; [by apply Hsame1|].
      rewrite Forall_forall in Hother. apply Forall_forall. intros kv Hkv.
      apply Hother; [exact Hkv|]. intros Heq. apply Hk.
      apply list_elem_of_fmap. by exists kv.
    + constructor; [by apply Hother1|].
      apply IH; try assumption. intros Hnot. apply Hnew.
      intros [?|?]%elem_of_cons; congruence.
Qed.

Lemma outputsOf_snoc name calls call :
  outputsOf name (calls ++ [call])
  = outputsOf name calls ++ (if decide (call.1 = name) then [call.2] else []).
Proof.
  unfold outputsOf. rewrite filter_app, fmap_app. f_equal.
  cbn [filter list_filter]. destruct (decide (call.1 = name)); reflexivity.
Qed.

Lemma outputsOf_absent name calls : name ∉ fst <$> calls → outputsOf name calls = [].
Proof.
  intros Hnot. unfold outputsOf. induction calls as [|[k v] calls IH]; [reflexivity|].
  rewrite fmap_cons in Hnot. apply not_elem_of_cons in Hnot as [Hne Hnot].
  simpl in Hne. rewrite filter_cons. cbn [fst].
  rewrite decide_False by congruence. by apply IH.
Qed.

Lemma outputs_of_calls (calls : list (string * string)) :
  Forall (fun call => call.2 ≠ "") calls →
  let outputs := foldl (fun outputs (call : string * string) =>
                          appendOutput call.1 call.2 outputs) [] calls in
  NoDup (fst <$> outputs)
  ∧ (∀ name, name ∈ fst <$> outputs ↔ name ∈ fst <$> calls)
  ∧ Forall (fun kv => kv.2 = joinBlank (outputsOf kv.1 calls) ∧ kv.2 ≠ "") outputs.
Proof.
  induction calls as [|[name output] calls IH] using rev_ind; intros Hall.
  - simpl. split; [apply NoDup_nil_2|]. split; [reflexivity|constructor].
  - apply Forall_app in Hall as [Hall Hlast]. rewrite Forall_singleton in Hlast.
    simpl in Hlast. cbn zeta in *. rewrite foldl_snoc. cbn [fst snd].
    destruct (IH Hall) as (Hdup & Hkeys & Hvalues). clear IH.
    set (outputs := foldl (fun outputs (call : string * string) =>
                             appendOutput call.1 call.2 outputs) [] calls) in *.
    split; [|split].
    + rewrite keys_appendOutput. case_bool_decide as Hin; [exact Hdup|].
      apply NoDup_app. split; [exact Hdup|]. split; [|apply NoDup_singleton].
      intros y Hy ->%list_elem_of_singleton. contradiction.
    + intros k. rewrite keys_appendOutput, fmap_app, elem_of_app. csimpl.
      rewrite list_elem_of_singleton, <- Hkeys. case_bool_decide as Hin.
      * split; [auto|]. intros [?| ->]; assumption.
      * rewrite elem_of_app, list_elem_of_singleton. reflexivity.
    + apply appendOutput_Forall; [exact Hdup| | |].
      * eapply Forall_impl; [exact Hvalues|]. intros [k v] [Hv Hne] Hk. simpl in *.
        rewrite outputsOf_snoc. simpl. rewrite decide_False by congruence.
        by rewrite app_nil_r.
      * eapply Forall_impl; [exact Hvalues|]. intros [k v] [Hv Hne] Hk. simpl in *.
        subst k. rewrite outputsOf_snoc. simpl. rewrite decide_True by reflexivity.
        rewrite joinBlank_snoc.
        destruct (outputsOf name calls) as [|first rest] eqn:Hout; [done|].
        rewrite <- Hv. destruct v; [done|]. split; [reflexivity|discriminate].
      * intros Hnot. simpl. rewrite outputsOf_snoc. simpl.
        rewrite decide_True by reflexivity.
        rewrite outputsOf_absent by (by rewrite <- Hkeys). done.
Qed.

Lemma completedOutputs_nonempty msgs :
  Forall (fun call : string * string => call.2 ≠ "") (completedOutputs msgs).
Proof.
  apply Forall_forall. intros [name output] (part & _ & Hpart)%list_elem_of_omap.
  destruct part as [| |tool state|]; try discriminate.
  destruct (ts_status state); try discriminate. cbn zeta in Hpart.
  destruct (Js.truthy (Js.trim (default "" (ts_output state)))) eqn:Ht; [|discriminate].
  injection Hpart as <- <-. simpl.
  destruct (Js.trim (default "" (ts_output state))); [discriminate|congruence].
Qed.

Lemma completedOutputs_called msgs name :
  name ∈ fst <$> completedOutputs msgs → name ∈ toolCalls msgs.
Proof.
  intros ([k v] & -> & (part & Hin & Hpart)%list_elem_of_omap)%list_elem_of_fmap.
  apply list_elem_of_omap. exists part. split; [exact Hin|].
  destruct part as [| |tool state|]; try discriminate.
  destruct (ts_status state); try discriminate. cbn zeta in Hpart.
  destruct (Js.truthy (Js.trim (default "" (ts_output state)))); [|discriminate].
  by injection Hpart as <- <-.
Qed.

(** X12: the tool outputs.  Every tool that has a completed call with an
    output that is not blank is listed once, under the name its calls are
    counted as; its content is the trimmed outputs of these calls, in
    transcript order, separated by blank lines, and is never empty; pending,
    running and failed calls and blank outputs add nothing; and every tool
    listed is among the tools called. *)
Theorem collectToolOutputs_joined (msgs : list SessionMessage) :
  let outputs := collectToolOutputs msgs in
  NoDup (src_label <$> outputs)
  ∧ (∀ name, name ∈ src_label <$> outputs ↔ name ∈ fst <$> completedOutputs msgs)
  ∧ Forall (fun source =>
              src_content source
              = joinBlank (outputsOf (src_label source) (completedOutputs msgs))
              ∧ src_content source ≠ ""
              ∧ src_label source ∈ toolCalls msgs)
           outputs.
Proof.
  intros outputs. subst outputs. rewrite collectToolOutputs_fold.
  destruct (outputs_of_calls (completedOutputs msgs) (completedOutputs_nonempty msgs))
    as (Hdup & Hkeys & Hvalues).
  rewrite <- list_fmap_compose.
  change (src_label ∘ (fun kv : string * string =>
                         {| src_label := kv.1; src_content := kv.2 |}))
    with (@fst string string).
  split; [exact Hdup|]. split; [exact Hkeys|].
  apply Forall_fmap. rewrite Forall_forall in Hvalues. apply Forall_forall.
  intros [k v] Hkv. destruct (Hvalues _ Hkv) as [Hv Hne]. simpl in *.
  split; [exact Hv|]. split; [exact Hne|].
  apply completedOutputs_called, Hkeys. apply list_elem_of_fmap. by exists (k, v).
Qed.

End CollectorFacts.

(** ** The telemetry reconciliation *)

Module TelemetryFacts.
Import Types Analyzer AnalyzerSpec TelemetrySpec.

Lemma analysis_ext (a b : TokenAnalysis) :
  sessionID a = sessionID b → model a = model b → categories a = categories b →
  totalTokens a = totalTokens b → inputTokens a = inputTokens b →
  outputTokens a = outputTokens b → reasoningTokens a = reasoningTokens b →
  cacheReadTokens a = cacheReadTokens b → cacheWriteTokens a = cacheWriteTokens b →
  assistantMessageCount a = assistantMessageCount b →
  mostRecentInput a = mostRecentInput b → mostRecentOutput a = mostRecentOutput b →
  mostRecentReasoning a = mostRecentReasoning b →
  mostRecentCacheRead a = mostRecentCacheRead b →
  mostRecentCacheWrite a = mostRecentCacheWrite b →
  sessionCost a = sessionCost b → mostRecentCost a = mostRecentCost b →
  allToolsCalled a = allToolsCalled b → toolCallCounts a = toolCallCounts b →
  a = b.
Proof. destruct a, b; simpl; intros; subst; reflexivity. Qed.

(** X13: the telemetry reconciliation is idempotent: applied a second time
    to its own result, with the same messages, it changes nothing (a system
    total that was inferred is not inferred again). *)
Theorem applyTelemetryAdjustments_idempotent (analysis : TokenAnalysis)
    (msgs : list SessionMessage) :
  applyTelemetryAdjustments (applyTelemetryAdjustments analysis msgs) msgs
  = applyTelemetryAdjustments analysis msgs.
Proof.
  set (once := applyTelemetryAdjustments analysis msgs).
  assert (Hcats : categories (applyTelemetryAdjustments once msgs) = categories once).
  { unfold applyTelemetryAdjustments at 1. cbn [categories].
    assert (Huser : user (categories once) = user (categories analysis)).
    { subst once. unfold applyTelemetryAdjustments. cbn [categories].
      destruct (_ && _); reflexivity. }
    assert (Htools : tools (categories once) = tools (categories analysis)).
    { subst once. unfold applyTelemetryAdjustments. cbn [categories].
      destruct (_ && _); reflexivity. }
    rewrite Huser, Htools. clear Huser Htools.
    subst once. unfold applyTelemetryAdjustments. cbn [categories].
    set (inferred := Z.max 0 _).
    destruct (Z.ltb_spec 0 inferred) as [Hpos|Hneg];
      destruct (Z.eqb_spec (cs_totalTokens (system (categories analysis))) 0)
        as [Hzero|Hlocal]; cbn [andb].
    - cbn [setSystem system cs_totalTokens].
      destruct (Z.ltb_spec 0 inferred); [|lia].
      destruct (Z.eqb_spec inferred 0); [lia|]. reflexivity.
    - destruct (Z.ltb_spec 0 inferred); [|lia].
      destruct (Z.eqb_spec (cs_totalTokens (system (categories analysis))) 0); [lia|].
      reflexivity.
    - destruct (Z.ltb_spec 0 inferred); [lia|]. reflexivity.
    - destruct (Z.ltb_spec 0 inferred); [lia|]. reflexivity. }
  assert (Htotal : totalTokens (applyTelemetryAdjustments once msgs) = totalTokens once).
  { assert (Hsum : ∀ a, totalTokens (applyTelemetryAdjustments a msgs)
              = cs_totalTokens (system (categories (applyTelemetryAdjustments a msgs)))
                + cs_totalTokens (user (categories (applyTelemetryAdjustments a msgs)))
                + cs_totalTokens (assistant (categories (applyTelemetryAdjustments a msgs)))
                + cs_totalTokens (tools (categories (applyTelemetryAdjustments a msgs)))
                + cs_totalTokens (reasoning (categories (applyTelemetryAdjustments a msgs))))
      by reflexivity.
    rewrite Hsum, Hcats. subst once. by rewrite Hsum. }
  apply analysis_ext; try exact Hcats; try exact Htotal; reflexivity.
Qed.

Lemma mostRecentWithUsage_elem assistants a :
  mostRecentWithUsage assistants = Some a → a ∈ assistants.
Proof.
  unfold mostRecentWithUsage.
  destruct (List.find _ (rev assistants)) as [found|] eqn:Hfind.
  - intros [= <-]. apply find_some in Hfind as [Hin _].
    apply in_rev in Hin. by apply list_elem_of_In.
  - intros Hlast. apply last_Some_elem_of in Hlast. exact Hlast.
Qed.

Lemma total_bounds (f : TokenUsage → option Z) (assistants : list Telemetry) :
  Forall (fun a => 0 ≤ Js.numOr0 (t_tokens a ≫= f)) assistants →
  0 ≤ foldl (fun sum a => sum + Js.numOr0 (t_tokens a ≫= f)) 0 assistants
  ∧ ∀ a, a ∈ assistants →
      Js.numOr0 (t_tokens a ≫= f)
      ≤ foldl (fun sum a => sum + Js.numOr0 (t_tokens a ≫= f)) 0 assistants.
Proof.
  induction assistants as [|x l IH] using rev_ind; intros Hall.
  - split; [reflexivity|]. intros a Ha. by apply elem_of_nil in Ha.
  - apply Forall_app in Hall as [Hl Hx]. rewrite Forall_singleton in Hx.
    destruct (IH Hl) as [H0 Hle]. rewrite foldl_snoc. split; [lia|].
    intros a [Ha| ->%list_elem_of_singleton]%elem_of_app; [|lia].
    specialize (Hle a Ha). lia.
Qed.

Lemma assistantsOf_nonneg msgs (f : TokenUsage → option Z) :
  (∀ tokens, (0 ≤ Js.numOr0 (tu_input tokens) ∧ 0 ≤ Js.numOr0 (tu_output tokens)
              ∧ 0 ≤ Js.numOr0 (tu_reasoning tokens)
              ∧ 0 ≤ Js.numOr0 (cacheRead tokens) ∧ 0 ≤ Js.numOr0 (cacheWrite tokens))
             → 0 ≤ Js.numOr0 (f tokens)) →
  nonnegTelemetry msgs →
  Forall (fun a => 0 ≤ Js.numOr0 (t_tokens a ≫= f)) (assistantsOf msgs).
Proof.
  intros Hf Hmsgs. apply Forall_forall.
  intros a (m & Hm & Ha)%list_elem_of_omap.
  cbn zeta in Ha. destruct (_ && _) in Ha; [|discriminate]. injection Ha as <-. simpl.
  destruct (mi_tokens (sm_info m)) as [tokens|] eqn:Ht; simpl; [|reflexivity].
  apply Hf. unfold nonnegTelemetry in Hmsgs. rewrite Forall_forall in Hmsgs.
  by apply (Hmsgs m Hm).
Qed.

Lemma recent_bounds (f : TokenUsage → option Z) (assistants : list Telemetry) :
  Forall (fun a => 0 ≤ Js.numOr0 (t_tokens a ≫= f)) assistants →
  0 ≤ Js.numOr0 (a ← mostRecentWithUsage assistants; t ← t_tokens a; f t)
  ≤ foldl (fun sum a => sum + Js.numOr0 (t_tokens a ≫= f)) 0 assistants.
Proof.
  intros Hall. destruct (total_bounds f assistants Hall) as [H0 Hle].
  destruct (mostRecentWithUsage assistants) as [a|] eqn:Hrecent; simpl; [|lia].
  apply mostRecentWithUsage_elem in Hrecent.
  rewrite Forall_forall in Hall. specialize (Hall a Hrecent). specialize (Hle a Hrecent).
  split; [exact Hall|exact Hle].
Qed.

(** X14: when no message reports a negative count, the figures of the most
    recent call never exceed the session totals of the same class (input,
    output, reasoning, cache read, cache write), and none of them is
    negative; the number of API calls is at most the number of messages;
    and the system total is never below its local count, when that is not
    negative. *)
Theorem applyTelemetryAdjustments_bounds (analysis : TokenAnalysis)
    (msgs : list SessionMessage) :
  nonnegTelemetry msgs →
  let after := applyTelemetryAdjustments analysis msgs in
  0 ≤ mostRecentInput after ≤ inputTokens after
  ∧ 0 ≤ mostRecentOutput after ≤ outputTokens after
  ∧ 0 ≤ mostRecentReasoning after ≤ reasoningTokens after
  ∧ 0 ≤ mostRecentCacheRead after ≤ cacheReadTokens after
  ∧ 0 ≤ mostRecentCacheWrite after ≤ cacheWriteTokens after
  ∧ 0 ≤ assistantMessageCount after ≤ Z.of_nat (length msgs)
  ∧ (0 ≤ cs_totalTokens (system (categories analysis)) →
     cs_totalTokens (system (categories analysis))
     ≤ cs_totalTokens (system (categories after))).
Proof.
  intros Hmsgs after. subst after. unfold applyTelemetryAdjustments.
  cbn [mostRecentInput inputTokens mostRecentOutput outputTokens mostRecentReasoning
       reasoningTokens mostRecentCacheRead cacheReadTokens mostRecentCacheWrite
       cacheWriteTokens assistantMessageCount categories].
  split; [apply recent_bounds, assistantsOf_nonneg; [tauto|exact Hmsgs]|].
  split; [apply recent_bounds, assistantsOf_nonneg; [tauto|exact Hmsgs]|].
  split; [apply recent_bounds, assistantsOf_nonneg; [tauto|exact Hmsgs]|].
  split; [apply recent_bounds, assistantsOf_nonneg; [tauto|exact Hmsgs]|].
  split; [apply recent_bounds, assistantsOf_nonneg; [tauto|exact Hmsgs]|].
  split.
  - split; [lia|]. apply inj_le. unfold assistantsOf.
    generalize msgs. clear. intros msgs.
    induction msgs as [|m msgs IH]; csimpl; [lia|]. destruct (_ && _); simpl; lia.
  - intros Hlocal. set (inferred := Z.max 0 _).
    destruct (Z.ltb_spec 0 inferred); destruct (Z.eqb_spec
      (cs_totalTokens (system (categories analysis))) 0); simpl; lia.
Qed.

Lemma applyTelemetryAdjustments_bounds_witness :
  let after := applyTelemetryAdjustments
                 (localAnalysis "s" scenarioA TokenizerSpec.approxModel
                    {| system := {| cs_label := "system"; cs_totalTokens := 6;
                                    cs_entries := []; cs_allEntries := [] |};
                       user := {| cs_label := "user"; cs_totalTokens := 2;
                                  cs_entries := []; cs_allEntries := [] |};
                       assistant := {| cs_label := "assistant"; cs_totalTokens := 2;
                                       cs_entries := []; cs_allEntries := [] |};
                       tools := {| cs_label := "tools"; cs_totalTokens := 0;
                                   cs_entries := []; cs_allEntries := [] |};
                       reasoning := {| cs_label := "reasoning"; cs_totalTokens := 0;
                                       cs_entries := []; cs_allEntries := [] |} |})
                 scenarioA in
  0 ≤ mostRecentInput after ≤ inputTokens after.
Proof.
  assert (Hmsgs : nonnegTelemetry scenarioA).
  { unfold nonnegTelemetry, scenarioA.
    repeat (apply List.Forall_cons;
            [intros tokens H; try discriminate; injection H as <-; simpl; lia|]).
    apply List.Forall_nil. }
  exact (proj1 (applyTelemetryAdjustments_bounds _ scenarioA Hmsgs)).
Defined.

End TelemetryFacts.

(** ** The entries of an analysis and the tool table *)

Module ReportFacts.
Import Types Promise Tokenizer Analyzer Formatter TokenizerSpec AnalyzerSpec PromiseFacts
  JsFacts AnalyzerFacts CollectorSpec CollectorFacts ReportSpec.

Lemma setStats_absent label stats toolStats :
  label ∉ fst <$> toolStats → setStats label stats toolStats = toolStats ++ [(label, stats)].
Proof.
  induction toolStats as [|[k v] toolStats IH]; csimpl; intros Hin; [reflexivity|].
  rewrite not_elem_of_cons in Hin. destruct Hin as [Hne Hin].
  rewrite bool_decide_eq_false_2 by congruence. by rewrite IH.
Qed.

Lemma setStats_calls label tokens toolStats :
  label ∈ fst <$> toolStats →
  callsOfStats
    (setStats label
       {| st_tokens := tokens;
          st_calls := st_calls (default {| st_tokens := 0; st_calls := 0 |}
                                        (getStats label toolStats)) |}
       toolStats)
  = callsOfStats toolStats.
Proof.
  unfold callsOfStats, getStats.
  induction toolStats as [|[k v] toolStats IH]; csimpl; intros Hin.
  - by apply elem_of_nil in Hin.
  - destruct (bool_decide (k = label)) eqn:Hk; csimpl; [reflexivity|].
    apply bool_decide_eq_false in Hk.
    apply elem_of_cons in Hin as [->|Hin]; [congruence|]. by rewrite IH.
Qed.

Lemma elem_of_setStats kv label stats toolStats :
  kv ∈ setStats label stats toolStats → kv ∈ toolStats ∨ kv = (label, stats).
Proof.
  induction toolStats as [|[k v] toolStats IH]; simpl.
  - intros ->%list_elem_of_singleton. by right.
  - case_bool_decide as Hk.
    + subst k. intros [->|Hin]%elem_of_cons; [by right|]. left. by apply list_elem_of_further.
    + intros [->|Hin]%elem_of_cons; [left; apply list_elem_of_here|].
      destruct (IH Hin) as [?|?]; [left; by apply list_elem_of_further|by right].
Qed.

Lemma setStats_other kv label stats toolStats :
  kv ∈ toolStats → kv.1 ≠ label → kv ∈ setStats label stats toolStats.
Proof.
  induction toolStats as [|[k v] toolStats IH]; simpl; intros Hin Hne.
  - by apply elem_of_nil in Hin.
  - case_bool_decide as Hk.
    + subst k. apply elem_of_cons in Hin as [->|Hin]; [by simpl in Hne|].
      by apply list_elem_of_further.
    + apply elem_of_cons in Hin as [->|Hin]; [apply list_elem_of_here|].
      apply list_elem_of_further. by apply IH.
Qed.

Lemma setStats_set label stats toolStats : (label, stats) ∈ setStats label stats toolStats.
Proof.
  induction toolStats as [|[k v] toolStats IH]; simpl.
  - apply list_elem_of_here.
  - case_bool_decide as Hk; [subst k; apply list_elem_of_here|].
    by apply list_elem_of_further.
Qed.

(** The first loop of [format]: one record per counted tool. *)
Lemma toolStats_counts (counts : list (string * Z)) :
  NoDup (fst <$> counts) →
  foldl (fun toolStats (counted : string * Z) =>
           setStats counted.1 {| st_tokens := 0; st_calls := counted.2 |} toolStats)
        [] counts
  = (fun counted : string * Z => (counted.1, {| st_tokens := 0; st_calls := counted.2 |}))
    <$> counts.
Proof.
  induction counts as [|[k n] counts IH] using rev_ind; [reflexivity|].
  rewrite fmap_app, NoDup_app. intros (Hdup & Hnot & _).
  rewrite foldl_snoc, IH by exact Hdup. rewrite fmap_app. simpl.
  apply setStats_absent. rewrite <- list_fmap_compose.
  intros Hin. apply (Hnot k); [exact Hin|]. apply list_elem_of_here.
Qed.

(** The second loop of [format]: the token counts of the tools entries. *)
Lemma toolStats_entries (entries : list CategoryEntry) (toolStats : list (string * ToolStats)) :
  Forall (fun kv => st_tokens kv.2 = 0) toolStats →
  ce_label <$> entries ⊆ fst <$> toolStats →
  NoDup (ce_label <$> entries) →
  let final :=
    foldl (fun toolStats entry =>
             let existing :=
               default {| st_tokens := 0; st_calls := 0 |}
                       (getStats (ce_label entry) toolStats) in
             setStats (ce_label entry)
                      {| st_tokens := ce_tokens entry; st_calls := st_calls existing |}
                      toolStats)
          toolStats entries in
  callsOfStats final = callsOfStats toolStats
  ∧ Forall (fun kv => st_tokens kv.2 = 0
                      ∨ ∃ entry, entry ∈ entries ∧ ce_label entry = kv.1
                                 ∧ ce_tokens entry = st_tokens kv.2) final
  ∧ ∀ entry, entry ∈ entries →
      ∃ kv, kv ∈ final ∧ kv.1 = ce_label entry ∧ st_tokens kv.2 = ce_tokens entry.
Proof.
  intros Hzero. induction entries as [|e entries IH] using rev_ind; intros Hsub Hdup.
  - simpl. split; [reflexivity|]. split.
    + eapply Forall_impl; [exact Hzero|]. intros kv Hkv; by left.
    + intros entry Hin. by apply elem_of_nil in Hin.
  - cbn zeta in *. rewrite foldl_snoc. rewrite fmap_app in Hsub, Hdup.
    apply NoDup_app in Hdup as (Hdup & Hnot & _).
    destruct IH as (Hcalls & Hrows & Hentries);
      [intros x Hx; apply Hsub, elem_of_app; by left|exact Hdup|].
    set (stats := foldl _ toolStats entries) in *.
    assert (Hkey : ce_label e ∈ fst <$> stats).
    { assert (Hk : fst <$> stats = fst <$> callsOfStats stats)
        by (unfold callsOfStats; rewrite <- list_fmap_compose; reflexivity).
      rewrite Hk, Hcalls. unfold callsOfStats. rewrite <- list_fmap_compose.
      apply Hsub, elem_of_app. right. apply list_elem_of_here. }
    split; [by rewrite setStats_calls|]. split.
    + apply Forall_forall. intros kv Hkv.
      apply elem_of_setStats in Hkv as [Hkv| ->].
      * rewrite Forall_forall in Hrows. destruct (Hrows kv Hkv) as [?|(entry & ? & ? & ?)];
          [by left|]. right. exists entry. split; [apply elem_of_app; by left|auto].
      * right. exists e. split; [apply elem_of_app; right; apply list_elem_of_here|auto].
    + intros entry [Hin| ->%list_elem_of_singleton]%elem_of_app.
      * destruct (Hentries entry Hin) as (kv & Hkv & Hlabel & Htokens).
        exists kv. split; [|auto]. apply setStats_other; [exact Hkv|].
        rewrite Hlabel. intros Heq. apply (Hnot (ce_label entry)).
        -- apply list_elem_of_fmap. by exists entry.
        -- rewrite Heq. apply list_elem_of_here.
      * eexists. split; [apply setStats_set|]. by simpl.
Qed.

Lemma toolEntries_rows (analysis : TokenAnalysis) :
  let entries := cs_allEntries (tools (categories analysis)) in
  NoDup (fst <$> toolCallCounts analysis) →
  ce_label <$> entries ⊆ fst <$> toolCallCounts analysis →
  NoDup (ce_label <$> entries) →
  let rows := toolEntries analysis in
  callsOfRows rows ≡ₚ toolCallCounts analysis
  ∧ Forall (fun row => te_tokens row = 0
                       ∨ ∃ entry, entry ∈ entries ∧ shows row entry) rows
  ∧ (∀ entry, entry ∈ entries → ∃ row, row ∈ rows ∧ shows row entry)
  ∧ StronglySorted (Js.desc te_tokens) rows.
Proof.
  intros entries Hcounts Hsub Hdup rows. subst rows. unfold toolEntries.
  rewrite toolStats_counts by exact Hcounts.
  set (initial := (fun counted : string * Z =>
                     (counted.1, {| st_tokens := 0; st_calls := counted.2 |}))
                  <$> toolCallCounts analysis).
  assert (Hzero : Forall (fun kv : string * ToolStats => st_tokens kv.2 = 0) initial).
  { apply Forall_fmap, Forall_forall. by intros. }
  assert (Hkeys : fst <$> initial = fst <$> toolCallCounts analysis).
  { unfold initial. rewrite <- list_fmap_compose. reflexivity. }
  assert (Hinitial : callsOfStats initial = toolCallCounts analysis).
  { unfold callsOfStats, initial. rewrite <- list_fmap_compose.
    rewrite <- (list_fmap_id (toolCallCounts analysis)) at 2.
    apply list_fmap_ext. by intros i [k n] _. }
  destruct (toolStats_entries entries initial Hzero) as (Hcalls & Hrows & Hentries);
    [by rewrite Hkeys|exact Hdup|].
  fold entries. set (final := foldl _ initial entries) in *.
  set (row := fun kv : string * ToolStats =>
                {| te_label := kv.1; te_tokens := st_tokens kv.2; te_calls := st_calls kv.2 |}).
  pose proof (sortDesc_perm te_tokens (row <$> final)) as Hperm.
  split; [|split; [|split]].
  - unfold callsOfRows. rewrite Hperm, <- list_fmap_compose.
    rewrite <- Hinitial, <- Hcalls. reflexivity.
  - apply Forall_forall. intros r Hr. rewrite Hperm in Hr.
    apply list_elem_of_fmap in Hr as (kv & -> & Hkv).
    rewrite Forall_forall in Hrows.
    destruct (Hrows kv Hkv) as [?|(entry & ? & ? & ?)]; [by left|].
    right. exists entry. unfold shows. simpl. auto.
  - intros entry Hentry. destruct (Hentries entry Hentry) as (kv & Hkv & Hlabel & Htokens).
    exists (row kv). split; [|by unfold shows].
    rewrite Hperm. apply list_elem_of_fmap. by exists kv.
  - apply sortDesc_sorted.
Qed.

Lemma callCount_elem name calls (counts : list (string * Z)) :
  NoDup (fst <$> counts) → (name, calls) ∈ counts → callCount name counts = calls.
Proof.
  unfold callCount. induction counts as [|[k n] counts IH]; csimpl; intros Hdup Hin.
  - by apply elem_of_nil in Hin.
  - apply NoDup_cons in Hdup as [Hk Hdup].
    apply elem_of_cons in Hin as [Heq|Hin].
    + injection Heq as <- <-. by rewrite bool_decide_eq_true_2.
    + rewrite bool_decide_eq_false_2; [by apply IH|].
      intros ->. apply Hk. apply list_elem_of_fmap. by exists (name, calls).
Qed.

Lemma SuspAll_and {St A} (P Q : A → Prop) (r : Susp St A) :
  SuspAll P r → SuspAll Q r → SuspAll (fun a => P a ∧ Q a) r.
Proof.
  induction r as [a|k IH] using Susp_induction; simpl; [tauto|].
  intros HP HQ s. specialize (IH s (HP s) (HQ s)). exact IH.
Qed.

Lemma AsyncAll_and {St A} (P Q : A → Prop) (t : Async St A) :
  AsyncAll P t → AsyncAll Q t → AsyncAll (fun a => P a ∧ Q a) t.
Proof. intros HP HQ s. apply SuspAll_and; [apply HP|apply HQ]. Qed.

Lemma sum_positive (entries : list CategoryEntry) :
  Forall (fun entry => 0 < ce_tokens entry) entries →
  0 ≤ foldr Z.add 0 (ce_tokens <$> entries)
  ∧ (foldr Z.add 0 (ce_tokens <$> entries) = 0 ↔ entries = []).
Proof.
  induction 1 as [|entry entries Hentry _ [IH _]]; csimpl; [done|].
  split; [lia|]. split; [lia|discriminate].
Qed.

Section Engine.
Variable vendor : Vendor.

Lemma buildCategory_total label sources tokenModel entryLimit :
  AsyncAll (fun c => cs_totalTokens c = foldr Z.add 0 (ce_tokens <$> cs_allEntries c))
           (buildCategory vendor label sources tokenModel entryLimit).
Proof.
  unfold buildCategory. eapply AsyncAll_bind; [apply AsyncAll_True|].
  intros entries _. apply AsyncAll_ret. simpl. rewrite foldl_sum. lia.
Qed.

Lemma buildCategory_lists label sources tokenModel entryLimit :
  AsyncAll (fun c => listsSources sources c ∧ sumsEntries c)
           (buildCategory vendor label sources tokenModel entryLimit).
Proof.
  eapply AsyncAll_mono;
    [|apply AsyncAll_and; [apply buildCategory_sources|apply buildCategory_total]].
  intros c [(raw & Hall & Hsub & Hpos) Htotal].
  assert (Hlists : listsSources sources c).
  { unfold listsSources. rewrite Hall.
    apply Forall_forall. intros entry Hentry.
    rewrite (sortDesc_perm ce_tokens raw) in Hentry.
    rewrite Forall_forall in Hpos. split; [by apply Hpos|].
    apply (sublist_subseteq _ _ Hsub). apply list_elem_of_fmap. by exists entry. }
  split; [exact Hlists|]. unfold sumsEntries. rewrite Htotal.
  apply sum_positive. eapply Forall_impl; [exact Hlists|]. by intros entry [? _].
Qed.

Lemma buildCategories_each (P : list CategoryEntrySource → CategorySummary → Prop)
    msgs tokenModel entryLimit :
  (∀ label sources,
     AsyncAll (P sources) (buildCategory vendor label sources tokenModel entryLimit)) →
  AsyncAll (fun cats =>
              P (collectSystemPrompts msgs) (system cats)
              ∧ P (collectMessageTexts msgs "user") (user cats)
              ∧ P (collectMessageTexts msgs "assistant") (assistant cats)
              ∧ P (collectToolOutputs msgs) (tools cats)
              ∧ P (collectReasoningTexts msgs) (reasoning cats))
           (buildCategories vendor msgs tokenModel entryLimit).
Proof.
  intros Hbuild. unfold buildCategories.
  eapply AsyncAll_bind.
  - apply AsyncAll_await. unfold all5. eapply AsyncAll_bind.
    + apply AsyncAll_all2; [apply Hbuild|].
      apply AsyncAll_all2; [apply Hbuild|].
      apply AsyncAll_all2; [apply Hbuild|].
      apply AsyncAll_all2; apply Hbuild.
    + intros (a & b & c & d & e) (Ha & Hb & Hc & Hd & He); simpl in *.
      apply AsyncAll_ret.
      instantiate (1 := fun built =>
        let '(a, b, c, d, e) := built in
        P (collectSystemPrompts msgs) a
        ∧ P (collectMessageTexts msgs "user") b
        ∧ P (collectMessageTexts msgs "assistant") c
        ∧ P (collectToolOutputs msgs) d
        ∧ P (collectReasoningTexts msgs) e).
      simpl. tauto.
  - intros ((((a & b) & c) & d) & e) H. apply AsyncAll_ret. exact H.
Qed.

Lemma analyze_categories (P : list CategoryEntrySource → CategorySummary → Prop)
    sessionID msgs tokenModel entryLimit :
  (∀ label sources,
     AsyncAll (P sources) (buildCategory vendor label sources tokenModel entryLimit)) →
  AsyncAll (fun analysis =>
              ∃ cats,
                analysis = applyTelemetryAdjustments
                             (localAnalysis sessionID msgs tokenModel cats) msgs
                ∧ P (collectSystemPrompts msgs) (system cats)
                ∧ P (collectMessageTexts msgs "user") (user cats)
                ∧ P (collectMessageTexts msgs "assistant") (assistant cats)
                ∧ P (collectToolOutputs msgs) (tools cats)
                ∧ P (collectReasoningTexts msgs) (reasoning cats))
           (analyze vendor sessionID msgs tokenModel entryLimit).
Proof.
  intros Hbuild. unfold analyze.
  eapply AsyncAll_bind; [apply (buildCategories_each P), Hbuild|].
  intros cats Hcats. apply AsyncAll_ret. by exists cats.
Qed.

End Engine.

Lemma adjusted_tools analysis msgs :
  tools (categories (applyTelemetryAdjustments analysis msgs)) = tools (categories analysis).
Proof.
  unfold applyTelemetryAdjustments; simpl.
  match goal with |- context [if ?c then _ else _] => destruct c end; reflexivity.
Qed.

(** X15: the tool table of the report of an analysis.  It has one row for
    every tool called in the transcript and no other row; the row gives the
    number of calls of the tool, which is at least 1; its token count is
    that of the tool's entry in the tools category, or 0 when the tool has
    no entry there (no completed call with an output that counts tokens);
    every entry of the tools category is shown by a row; and the rows are
    in descending order of their token counts. *)
Theorem format_tool_rows (vendor : Vendor) (sessionID : string)
    (msgs : list SessionMessage) (tokenModel : TokenModel) (entryLimit : Z)
    (manager : TokenizerManager) :
  let analysis := (run (analyze vendor sessionID msgs tokenModel entryLimit) manager).1 in
  let entries := cs_allEntries (tools (categories analysis)) in
  let rows := toolEntries analysis in
  NoDup (te_label <$> rows)
  ∧ (∀ name, name ∈ te_label <$> rows ↔ name ∈ toolCalls msgs)
  ∧ Forall (fun row =>
              te_calls row = occurrences (te_label row) (toolCalls msgs)
              ∧ 1 ≤ te_calls row
              ∧ (te_tokens row = 0
                 ∨ 0 < te_tokens row ∧ ∃ entry, entry ∈ entries ∧ shows row entry))
           rows
  ∧ (∀ entry, entry ∈ entries → ∃ row, row ∈ rows ∧ shows row entry)
  ∧ StronglySorted (Js.desc te_tokens) rows.
Proof.
  intros analysis.
  apply (AsyncAll_run
           (fun analysis =>
              let entries := cs_allEntries (tools (categories analysis)) in
              let rows := toolEntries analysis in
              NoDup (te_label <$> rows)
              ∧ (∀ name, name ∈ te_label <$> rows ↔ name ∈ toolCalls msgs)
              ∧ Forall (fun row =>
                          te_calls row = occurrences (te_label row) (toolCalls msgs)
                          ∧ 1 ≤ te_calls row
                          ∧ (te_tokens row = 0
                             ∨ 0 < te_tokens row
                               ∧ ∃ entry, entry ∈ entries ∧ shows row entry))
                       rows
              ∧ (∀ entry, entry ∈ entries → ∃ row, row ∈ rows ∧ shows row entry)
              ∧ StronglySorted (Js.desc te_tokens) rows)).
  clear analysis.
  eapply AsyncAll_mono;
    [|apply analyze_categories; intros label sources; apply buildCategory_sources].
  intros analysis (cats & -> & _ & _ & _ & (raw & Hall & Hsub & Hpos) & _).
  set (analysis := applyTelemetryAdjustments _ msgs).
  assert (Hentries : cs_allEntries (tools (categories analysis)) = Js.sortDesc ce_tokens raw)
    by (unfold analysis; rewrite adjusted_tools; exact Hall).
  assert (Hcounts : toolCallCounts analysis
                    = foldl (fun counts name => countCallOf name counts) [] (toolCalls msgs))
    by (unfold analysis; simpl; apply collectToolCallCounts_fold).
  destruct (counts_of_calls (toolCalls msgs)) as (Hdup & Hone & Hcount & Hkeys & _).
  cbn zeta in Hdup, Hone, Hcount, Hkeys. rewrite <- Hcounts in Hdup, Hone, Hcount, Hkeys.
  pose proof (collectToolOutputs_fold msgs) as Hfold.
  destruct (outputs_of_calls (completedOutputs msgs) (completedOutputs_nonempty msgs))
    as (Hdup' & Hkeys' & _). cbn zeta in Hdup', Hkeys'.
  assert (Hlabels : src_label <$> collectToolOutputs msgs
                    = fst <$> foldl (fun outputs (call : string * string) =>
                                       appendOutput call.1 call.2 outputs)
                                    [] (completedOutputs msgs)).
  { rewrite Hfold, <- list_fmap_compose. reflexivity. }
  rewrite <- Hlabels in Hdup', Hkeys'.
  assert (Hperm : ce_label <$> cs_allEntries (tools (categories analysis))
                  ≡ₚ ce_label <$> raw)
    by (rewrite Hentries; apply fmap_Permutation, sortDesc_perm).
  destruct (toolEntries_rows analysis) as (Hrows & Htokens & Hshown & Hsorted).
  - exact Hdup.
  - intros name Hname. rewrite Hperm in Hname. apply Hkeys.
    apply completedOutputs_called, Hkeys'. by apply (sublist_subseteq _ _ Hsub).
  - rewrite Hperm. eapply sublist_NoDup; [exact Hdup'|exact Hsub].
  - cbn zeta.
    assert (Hnames : te_label <$> toolEntries analysis ≡ₚ fst <$> toolCallCounts analysis).
    { rewrite <- Hrows. unfold callsOfRows. rewrite <- list_fmap_compose. reflexivity. }
    split; [by rewrite Hnames|].
    split; [intros name; by rewrite Hnames|].
    split; [|split; [exact Hshown|exact Hsorted]].
    apply Forall_forall. intros row Hrow.
    assert (Hin : (te_label row, te_calls row) ∈ toolCallCounts analysis).
    { rewrite <- Hrows. apply list_elem_of_fmap. by exists row. }
    rewrite <- Hcount, (callCount_elem _ _ _ Hdup Hin).
    split; [reflexivity|]. split.
    + rewrite Forall_forall in Hone. apply (Hone _) in Hin. simpl in Hin. lia.
    + rewrite Forall_forall in Htokens.
      destruct (Htokens row Hrow) as [?|(entry & Hentry & Hshows)]; [by left|].
      right. split; [|by exists entry].
      destruct Hshows as [_ ->]. rewrite Hentries, sortDesc_perm in Hentry.
      rewrite Forall_forall in Hpos. by apply Hpos.
Qed.

(** X16: the entries of an analysis.  Every entry of the user, assistant,
    tools and reasoning categories is a collected source of its category
    with a positive token count, and so is every system entry, unless it is
    the one entry inferred from the telemetry, which is positive as well; a
    source that counts no token is not listed.  The total of every category
    is not negative and is 0 exactly when the category lists nothing.  The
    top contributors of the report are therefore the first [limit] of all
    entries in descending order: the report's filter drops none. *)
Theorem analyze_entries_positive (vendor : Vendor) (sessionID : string)
    (msgs : list SessionMessage) (tokenModel : TokenModel) (entryLimit : Z)
    (manager : TokenizerManager) :
  let analysis := (run (analyze vendor sessionID msgs tokenModel entryLimit) manager).1 in
  let cats := categories analysis in
  (listsSources (collectSystemPrompts msgs) (system cats)
   ∨ ∃ inferred, 0 < inferred ∧ cs_allEntries (system cats) = [inferredEntry inferred])
  ∧ listsSources (collectMessageTexts msgs "user") (user cats)
  ∧ listsSources (collectMessageTexts msgs "assistant") (assistant cats)
  ∧ listsSources (collectToolOutputs msgs) (tools cats)
  ∧ listsSources (collectReasoningTexts msgs) (reasoning cats)
  ∧ Forall sumsEntries [system cats; user cats; assistant cats; tools cats; reasoning cats]
  ∧ Forall (fun entry => 0 < ce_tokens entry) (allEntries analysis)
  ∧ ∀ limit, collectTopEntries analysis limit
             = Js.slice0 limit (Js.sortDesc ce_tokens (allEntries analysis)).
Proof.
  intros analysis.
  apply (AsyncAll_run
           (fun analysis =>
              let cats := categories analysis in
              (listsSources (collectSystemPrompts msgs) (system cats)
               ∨ ∃ inferred, 0 < inferred
                             ∧ cs_allEntries (system cats) = [inferredEntry inferred])
              ∧ listsSources (collectMessageTexts msgs "user") (user cats)
              ∧ listsSources (collectMessageTexts msgs "assistant") (assistant cats)
              ∧ listsSources (collectToolOutputs msgs) (tools cats)
              ∧ listsSources (collectReasoningTexts msgs) (reasoning cats)
              ∧ Forall sumsEntries
                       [system cats; user cats; assistant cats; tools cats; reasoning cats]
              ∧ Forall (fun entry => 0 < ce_tokens entry) (allEntries analysis)
              ∧ ∀ limit, collectTopEntries analysis limit
                         = Js.slice0 limit (Js.sortDesc ce_tokens (allEntries analysis)))).
  clear analysis.
  eapply AsyncAll_mono;
    [|apply (analyze_categories vendor (fun sources c => listsSources sources c ∧ sumsEntries c));
      intros label sources; apply buildCategory_lists].
  intros analysis (cats & -> & [Hs Hs'] & [Hu Hu'] & [Ha Ha'] & [Ht Ht'] & [Hr Hr']).
  set (analysis := applyTelemetryAdjustments _ msgs). cbn zeta.
  assert (Hsystem :
    (system (categories analysis) = system cats
     ∨ ∃ inferred, 0 < inferred
         ∧ cs_totalTokens (system (categories analysis)) = inferred
         ∧ cs_allEntries (system (categories analysis)) = [inferredEntry inferred])
    ∧ user (categories analysis) = user cats
    ∧ assistant (categories analysis) = assistant cats
    ∧ tools (categories analysis) = tools cats
    ∧ reasoning (categories analysis) = reasoning cats).
  { unfold analysis, applyTelemetryAdjustments; simpl.
    match goal with |- context [if (?a <? ?b) && ?c then _ else _] =>
      destruct (Z.ltb_spec a b); destruct c end; simpl; repeat split; auto.
    right. eexists. split; [eassumption|]. by split. }
  destruct Hsystem as (Hsys & Euser & Eassistant & Etools & Ereasoning).
  rewrite Euser, Eassistant, Etools, Ereasoning.
  assert (Hpos : ∀ sources c, listsSources sources c →
                   Forall (fun entry => 0 < ce_tokens entry) (cs_allEntries c)).
  { intros sources c Hc. eapply Forall_impl; [exact Hc|]. by intros entry [? _]. }
  assert (Hsystem : Forall (fun entry => 0 < ce_tokens entry)
                           (cs_allEntries (system (categories analysis)))
                    ∧ sumsEntries (system (categories analysis))).
  { destruct Hsys as [->|(inferred & Hinferred & Htotal & Hentries)]; [by eauto|].
    unfold sumsEntries. rewrite Htotal, Hentries.
    split; [by repeat constructor|]. split; [lia|]. split; [lia|intros [=]]. }
  destruct Hsystem as [Hsystem Hsystem'].
  assert (Hall : Forall (fun entry => 0 < ce_tokens entry) (allEntries analysis)).
  { unfold allEntries. rewrite Euser, Eassistant, Etools, Ereasoning, !Forall_app.
    eauto 10. }
  split; [|split; [exact Hu|split; [exact Ha|split; [exact Ht|split; [exact Hr|]]]]].
  { destruct Hsys as [->|(inferred & Hinferred & _ & ->)]; [by left|]. right. by exists inferred. }
  split; [repeat (apply Forall_cons; split; [assumption|]); apply Forall_nil_2|].
  split; [exact Hall|].
  intros limit. unfold collectTopEntries. fold (allEntries analysis).
  f_equal. f_equal. clear -Hall.
  induction Hall as [|entry entries Hentry _ IH]; [reflexivity|].
  rewrite filter_cons_True by exact Hentry. by rewrite IH.
Qed.

End ReportFacts.

(** ** Prices and the cost estimate *)

Module PricingFacts.
Import Types Cost CostSpec PricingSpec QcFacts CostFacts.

(** X17: the vendor prefix of a model name does not matter to the price:
    [vendor/name] is priced as [name], whatever the vendor (which may have
    slashes of its own), for a name that is not empty and has no slash. *)
Theorem getPricing_vendor_prefix (pricingData : list (string * ModelPricing))
    (vendor name : string) :
  Js.includes name "/" = false → name ≠ "" →
  getPricing pricingData (vendor +:+ "/" +:+ name) = getPricing pricingData name.
Proof.
  intros Hname Hne. unfold getPricing.
  change (vendor +:+ "/" +:+ name) with (vendor +:+ String "/" name).
  by rewrite normalizeModelName_strips, normalizeModelName_plain.
Qed.

Lemma getPricing_vendor_prefix_witness :
  getPricing gptCatalog ("openai" +:+ "/" +:+ "gpt-4o") = getPricing gptCatalog "gpt-4o".
Proof.
  apply (getPricing_vendor_prefix gptCatalog "openai" "gpt-4o"); [reflexivity|discriminate].
Defined.

Lemma find_elem {A} (p : A → bool) (l : list A) (x : A) :
  List.find p l = Some x → x ∈ l ∧ p x = true.
Proof.
  induction l as [|y l IH]; simpl; [discriminate|].
  destruct (p y) eqn:Hy.
  - intros [= ->]. split; [apply list_elem_of_here|exact Hy].
  - intros H. destruct (IH H). split; [by apply list_elem_of_further|assumption].
Qed.

Lemma entry_elem pricingData key pricing :
  entry pricingData key = Some pricing → (key, pricing) ∈ pricingData.
Proof.
  unfold entry. destruct (List.find _ pricingData) as [[k v]|] eqn:Hfind; [|discriminate].
  intros [= <-]. apply find_elem in Hfind as [Hin Hk].
  apply bool_decide_eq_true in Hk. simpl in Hk. by subst k.
Qed.

(** The pricing of a model is an entry of the catalog, or the built-in one. *)
Lemma getPricing_range pricingData modelName :
  getPricing pricingData modelName = builtinPricing
  ∨ ∃ key, (key, getPricing pricingData modelName) ∈ pricingData.
Proof.
  unfold getPricing.
  destruct (entry pricingData (normalizeModelName modelName)) as [pricing|] eqn:He.
  - right. eexists. by apply entry_elem.
  - destruct (List.find _ pricingData) as [[k v]|] eqn:Hfind.
    + right. exists k. by apply find_elem in Hfind as [Hin _].
    + destruct (entry pricingData "default") as [pricing|] eqn:Hd; simpl.
      * right. eexists. by apply entry_elem.
      * by left.
Qed.

Lemma nonneg_builtin : nonnegPricing builtinPricing.
Proof. repeat split; discriminate. Qed.

Lemma Qcplus_nonneg (a b : Qc) : (0 <= a)%Qc → (0 <= b)%Qc → (0 <= a + b)%Qc.
Proof. intros Ha Hb. to_Q. lra. Qed.

(** X18: the cost estimate, for a model whose normalized name is no name
    of a member of [Object.prototype] (for such a name the catalog object
    answers with the inherited member, which has no prices).  The prices it
    reports are those of an entry of the catalog or the built-in ones
    (input 1, output 3, cache 0); with a catalog that has no negative price
    and an analysis that has no negative total, no estimated cost is
    negative, every class costs at most the whole session, and a session
    without any token costs 0. *)
Theorem calculateCost_nonneg (pricingData : list (string * ModelPricing))
    (analysis : TokenAnalysis) :
  plainName (normalizeModelName (tm_name (model analysis))) = true →
  Forall (fun kv => nonnegPricing kv.2) pricingData →
  nonnegTotals analysis →
  let estimate := calculateCost pricingData analysis in
  let pricing :=
    {| mp_input := pricePerMillionInput estimate;
       mp_output := pricePerMillionOutput estimate;
       mp_cacheWrite := pricePerMillionCacheWrite estimate;
       mp_cacheRead := pricePerMillionCacheRead estimate |} in
  (pricing = builtinPricing ∨ ∃ key, (key, pricing) ∈ pricingData)
  ∧ (0 <= estimatedInputCost estimate <= estimatedSessionCost estimate)%Qc
  ∧ (0 <= estimatedOutputCost estimate <= estimatedSessionCost estimate)%Qc
  ∧ (0 <= estimatedCacheReadCost estimate <= estimatedSessionCost estimate)%Qc
  ∧ (0 <= estimatedCacheWriteCost estimate <= estimatedSessionCost estimate)%Qc
  ∧ (inputTokens analysis = 0 → outputTokens analysis = 0 →
     reasoningTokens analysis = 0 → cacheReadTokens analysis = 0 →
     cacheWriteTokens analysis = 0 → estimatedSessionCost estimate = 0%Qc).
Proof.
  intros _ Hcatalog (Hi & Ho & Hr & Hcr & Hcw) estimate pricing.
  subst pricing estimate. unfold calculateCost; simpl.
  set (pricing := getPricing pricingData (tm_name (model analysis))).
  assert (Hpricing : {| mp_input := mp_input pricing; mp_output := mp_output pricing;
                        mp_cacheWrite := mp_cacheWrite pricing;
                        mp_cacheRead := mp_cacheRead pricing |} = pricing)
    by (by destruct pricing).
  rewrite Hpricing.
  pose proof (getPricing_range pricingData (tm_name (model analysis))) as Hrange.
  fold pricing in Hrange.
  assert (Hnonneg : nonnegPricing pricing).
  { destruct Hrange as [->|[key Hkey]]; [apply nonneg_builtin|].
    rewrite Forall_forall in Hcatalog. apply (Hcatalog _ Hkey). }
  destruct Hnonneg as (Hpi & Hpo & Hpw & Hpr).
  pose proof (perMillion_nonneg (inputTokens analysis) _ Hi Hpi) as Ci.
  pose proof (perMillion_nonneg (outputTokens analysis + reasoningTokens analysis) _
                ltac:(lia) Hpo) as Co.
  pose proof (perMillion_nonneg (cacheReadTokens analysis) _ Hcr Hpr) as Cr.
  pose proof (perMillion_nonneg (cacheWriteTokens analysis) _ Hcw Hpw) as Cw.
  split; [exact Hrange|].
  assert (Hzero : inputTokens analysis = 0 → outputTokens analysis = 0 →
                  reasoningTokens analysis = 0 → cacheReadTokens analysis = 0 →
                  cacheWriteTokens analysis = 0 →
                  (perMillion (inputTokens analysis) (mp_input pricing)
                   + perMillion (outputTokens analysis + reasoningTokens analysis)
                                (mp_output pricing)
                   + perMillion (cacheReadTokens analysis) (mp_cacheRead pricing)
                   + perMillion (cacheWriteTokens analysis) (mp_cacheWrite pricing))%Qc
                  = 0%Qc).
  { intros -> -> -> -> ->. simpl. rewrite !perMillion_0. apply Qc_is_canon. reflexivity. }
  revert Hzero Ci Co Cr Cw.
  generalize (perMillion (inputTokens analysis) (mp_input pricing)) as ci.
  generalize (perMillion (outputTokens analysis + reasoningTokens analysis)
                         (mp_output pricing)) as co.
  generalize (perMillion (cacheReadTokens analysis) (mp_cacheRead pricing)) as cr.
  generalize (perMillion (cacheWriteTokens analysis) (mp_cacheWrite pricing)) as cw.
  intros cw cr co ci Hzero Ci Co Cr Cw.
  repeat split; try assumption; try (to_Q; lra).
Qed.

Lemma calculateCost_nonneg_witness :
  let analysis :=
    (Promise.run (Analyzer.analyze TokenizerSpec.noVendor "s" AnalyzerSpec.scenarioA
                    TokenizerSpec.approxModel 3) Tokenizer.newTokenizerManager).1 in
  plainName (normalizeModelName (tm_name (model analysis))) = true
  ∧ Forall (fun kv => nonnegPricing kv.2) gptCatalog
  ∧ nonnegTotals analysis
  ∧ (0 <= estimatedSessionCost (calculateCost gptCatalog analysis))%Qc.
Proof.
  intros analysis.
  assert (Hplain : plainName (normalizeModelName (tm_name (model analysis))) = true)
    by (vm_compute; reflexivity).
  assert (Hcatalog : Forall (fun kv : string * ModelPricing => nonnegPricing kv.2) gptCatalog).
  { repeat (apply List.Forall_cons; [repeat split; discriminate|]). apply List.Forall_nil. }
  assert (Htotals : nonnegTotals analysis) by (repeat split; vm_compute; discriminate).
  split; [exact Hplain|]. split; [exact Hcatalog|]. split; [exact Htotals|].
  destruct (calculateCost_nonneg gptCatalog analysis Hplain Hcatalog Htotals)
    as (_ & [Hinput Hsession] & _).
  eapply Qcle_trans; [exact Hinput|exact Hsession].
Defined.

End PricingFacts.

(** ** Strings *)

Module StringFacts.
Import StringSpec.

Lemma span_forall (p : ascii → bool) (s : string) : forallChars p (Js.span p s).1 = true.
Proof.
  induction s as [|c r IH]; simpl; [reflexivity|].
  destruct (p c) eqn:Hc; [|reflexivity].
  destruct (Js.span p r) as [a b]. simpl in *. by rewrite Hc, IH.
Qed.

(** A run of characters that satisfy [p], followed by one that does not. *)
Lemma span_app (p : ascii → bool) (a b : string) :
  forallChars p a = true →
  match b with String c _ => p c = false | EmptyString => True end →
  Js.span p (a +:+ b) = (a, b).
Proof.
  intros Ha Hb. induction a as [|c a IH]; simpl in *.
  - destruct b as [|c b]; simpl; [reflexivity|]. by rewrite Hb.
  - apply andb_true_iff in Ha as [Hc Ha]. by rewrite Hc, (IH Ha).
Qed.

Lemma toLowerCase_app (a b : string) :
  Js.toLowerCase (a +:+ b) = Js.toLowerCase a +:+ Js.toLowerCase b.
Proof. induction a as [|c a IH]; simpl; [reflexivity|]. by rewrite IH. Qed.

Lemma startsWith_app (p s : string) : Js.startsWith (p +:+ s) p = true.
Proof.
  induction p as [|c p IH]; simpl; [by destruct s|].
  by rewrite decide_True.
Qed.

Lemma forallChars_impl (p q : ascii → bool) (s : string) :
  (∀ c, p c = true → q c = true) → forallChars p s = true → forallChars q s = true.
Proof.
  intros Hpq. induction s as [|c r IH]; simpl; [reflexivity|].
  intros [Hc Hr]%andb_true_iff. by rewrite (Hpq c Hc), (IH Hr).
Qed.

Lemma forallChars_toLowerCase (p : ascii → bool) (s : string) :
  (∀ c, p c = true → p (Js.lowerChar c) = true) →
  forallChars p s = true → forallChars p (Js.toLowerCase s) = true.
Proof.
  intros Hp. induction s as [|c r IH]; simpl; [reflexivity|].
  intros [Hc Hr]%andb_true_iff. by rewrite (Hp c Hc), (IH Hr).
Qed.

Lemma wordChar_not_space (c : ascii) :
  Js.isWordChar c = true → negb (Js.isWhiteSpace c) = true.
Proof. destruct c as [[] [] [] [] [] [] [] []]; vm_compute; congruence. Qed.

Lemma lowerChar_not_space (c : ascii) :
  negb (Js.isWhiteSpace c) = true → negb (Js.isWhiteSpace (Js.lowerChar c)) = true.
Proof. destruct c as [[] [] [] [] [] [] [] []]; vm_compute; congruence. Qed.

Lemma lowerChar_s (c : ascii) :
  Js.lowerChar c = "s"%char → Js.isWhiteSpace c = false ∧ Js.isWordChar c = true.
Proof. destruct c as [[] [] [] [] [] [] [] []]; vm_compute; intros [=]; auto. Qed.

Lemma space_not_wordChar (c : ascii) :
  Js.isWhiteSpace c = true → Js.isWordChar c = false.
Proof. destruct c as [[] [] [] [] [] [] [] []]; vm_compute; congruence. Qed.

End StringFacts.

(** ** The agent type of a subagent session *)

Module AgentTypeFacts.
Import Types Subagent StringSpec StringFacts.

Lemma matchAgentTag_word title word :
  matchAgentTag title = Some word →
  word ≠ "" ∧ forallChars Js.isWordChar word = true.
Proof.
  induction title as [|c rest IH]; simpl; [discriminate|].
  destruct (decide (c = "@"%char)) as [_|_]; [|exact IH].
  pose proof (span_forall Js.isWordChar rest) as Hword.
  destruct (Js.span Js.isWordChar rest) as [w afterWord].
  destruct (Js.span Js.isWhiteSpace afterWord) as [space afterSpace].
  destruct (Js.truthy w && Js.truthy space
            && Js.startsWith (Js.toLowerCase afterSpace) "subagent") eqn:Hmatch;
    [|exact IH].
  intros [= <-]. split; [|exact Hword].
  destruct w; [discriminate|congruence].
Qed.

(** X19: the agent type of a session title is never empty and has no white
    space: it is the word of the title's first [@word subagent] tag, or
    else the title's first word in lower case, or else "subagent". *)
Theorem extractAgentType_word (title : string) :
  let agentType := extractAgentType title in
  agentType ≠ ""
  ∧ forallChars (fun c => negb (Js.isWhiteSpace c)) agentType = true
  ∧ (∀ tag, matchAgentTag title = Some tag → agentType = tag)
  ∧ (matchAgentTag title = None →
     agentType = "subagent"
     ∨ agentType
       = Js.toLowerCase (Js.span (fun c => negb (Js.isWhiteSpace c)) title).1).
Proof.
  intros agentType. subst agentType. unfold extractAgentType.
  destruct (matchAgentTag title) as [tag|] eqn:Htag.
  - apply matchAgentTag_word in Htag as [Hne Hword].
    split; [exact Hne|]. split; [|split; [by intros ? [= ->]|discriminate]].
    eapply forallChars_impl; [|exact Hword]. apply wordChar_not_space.
  - pose proof (span_forall (fun c => negb (Js.isWhiteSpace c)) title) as Hfirst.
    destruct (Js.truthy (Js.toLowerCase _)) eqn:Htruthy.
    + split; [by destruct (Js.toLowerCase _)|].
      split; [|split; [discriminate|by right]].
      apply forallChars_toLowerCase; [apply lowerChar_not_space|exact Hfirst].
    + split; [discriminate|]. split; [reflexivity|]. split; [discriminate|by left].
Qed.

Lemma matchAgentTag_tag prefix word space sub rest :
  Js.includes prefix "@" = false →
  word ≠ "" → forallChars Js.isWordChar word = true →
  space ≠ "" → forallChars Js.isWhiteSpace space = true →
  Js.toLowerCase sub = "subagent" →
  matchAgentTag (prefix +:+ "@" +:+ word +:+ space +:+ sub +:+ rest) = Some word.
Proof.
  intros Hprefix Hne Hword Hspace Hwhite Hsub.
  induction prefix as [|c prefix IH].
  - change ("" +:+ "@" +:+ word +:+ space +:+ sub +:+ rest)
      with (String "@" (word +:+ (space +:+ (sub +:+ rest)))).
    cbn [matchAgentTag]. rewrite decide_True by reflexivity.
    rewrite (span_app Js.isWordChar word (space +:+ (sub +:+ rest)) Hword).
    2:{ destruct space as [|s space]; [congruence|]. simpl in *.
        apply andb_true_iff in Hwhite as [Hs _]. by apply space_not_wordChar. }
    rewrite (span_app Js.isWhiteSpace space (sub +:+ rest) Hwhite).
    2:{ destruct sub as [|s sub]; [discriminate|]. simpl in *.
        injection Hsub as Hs _. by apply lowerChar_s in Hs as [? _]. }
    rewrite toLowerCase_app, Hsub, startsWith_app.
    destruct word; [congruence|]. destruct space; [congruence|]. reflexivity.
  - change (String c prefix +:+ "@" +:+ word +:+ space +:+ sub +:+ rest)
      with (String c (prefix +:+ "@" +:+ word +:+ space +:+ sub +:+ rest)).
    cbn [matchAgentTag]. cbn [Js.includes Js.startsWith] in Hprefix.
    apply orb_false_iff in Hprefix as [Hc Hprefix].
    destruct (decide (c = "@"%char)) as [->|_].
    + rewrite decide_True in Hc by reflexivity. by destruct prefix.
    + by apply IH.
Qed.

(** X20: a title with a tag.  When the title's first [@] begins
    [@word subagent], with a word of word characters, white space after it
    and [subagent] in any case, the agent type is that word as written,
    whatever comes before and after the tag. *)
Theorem extractAgentType_tag (prefix word space sub rest : string) :
  Js.includes prefix "@" = false →
  word ≠ "" → forallChars Js.isWordChar word = true →
  space ≠ "" → forallChars Js.isWhiteSpace space = true →
  Js.toLowerCase sub = "subagent" →
  extractAgentType (prefix +:+ "@" +:+ word +:+ space +:+ sub +:+ rest) = word.
Proof.
  intros Hprefix Hne Hword Hspace Hwhite Hsub. unfold extractAgentType.
  by rewrite (matchAgentTag_tag prefix word space sub rest).
Qed.

Lemma extractAgentType_tag_witness :
  extractAgentType ("Review the diff (" +:+ "@" +:+ "Code_Reviewer" +:+ " " +:+ "SubAgent"
                    +:+ ")")
  = "Code_Reviewer".
Proof.
  apply (extractAgentType_tag "Review the diff (" "Code_Reviewer" " " "SubAgent" ")");
    first [reflexivity|discriminate].
Defined.

End AgentTypeFacts.

(** ** The list of loaded skills *)

Module SkillListFacts.
Import Types Promise Tokenizer Skill TokenizerSpec SkillSpec SkillListSpec
  PromiseFacts JsFacts TokenizerFacts SkillFacts.

Lemma length_append (a b : string) :
  String.length (a +:+ b) = (String.length a + String.length b)%nat.
Proof. induction a as [|c a IH]; simpl; [reflexivity|]. by rewrite IH. Qed.

Lemma length_substring0 n s : (String.length (Js.substring0 n s) ≤ n)%nat.
Proof.
  revert s. induction n as [|n IH]; intros s; simpl; [lia|].
  destruct s as [|c s]; simpl; [lia|]. specialize (IH s). lia.
Qed.

Lemma length_preview content : (String.length (preview content) ≤ 503)%nat.
Proof.
  unfold preview. destruct (Nat.ltb_spec 500 (String.length content)); [|lia].
  rewrite length_append. pose proof (length_substring0 500 content) as Hcut.
  change (String.length "...") with 3%nat. lia.
Qed.

Lemma sum_Permutation (l1 l2 : list Z) :
  l1 ≡ₚ l2 → foldr Z.add 0 l1 = foldr Z.add 0 l2.
Proof. induction 1; simpl; lia. Qed.

Section Loaded.
Variable vendor : Vendor.
Variable tokenModel : TokenModel.

(** A skill already in the map keeps its content. *)
Lemma fold_present_content s parts skillMap d :
  getSkill s skillMap = Some d →
  ∃ d', getSkill s (foldl (stepIndexed vendor tokenModel) skillMap parts) = Some d'
        ∧ sd_content d' = sd_content d.
Proof.
  revert skillMap d. induction parts as [|[idx part] parts IH]; intros skillMap d Hd.
  - exists d. by simpl.
  - rewrite stepIndexed_cons.
    destruct (skillCall part) as [[n c]|]; cbn [fst snd]; [|by apply IH].
    unfold stepSkill; cbn [fst snd]. destruct (decide (n = s)) as [->|Hne].
    + rewrite Hd.
      destruct (IH _ _ (getSkill_bump_same s skillMap d Hd)) as (d' & H1 & H2).
      exists d'. by split.
    + apply IH. destruct (getSkill n skillMap).
      * by rewrite getSkill_bump_other.
      * by rewrite getSkill_snoc, Hd.
Qed.

(** The content of a skill is the preview of the output of its first call. *)
Lemma fold_absent_content s parts skillMap :
  getSkill s skillMap = None →
  ∀ d, getSkill s (foldl (stepIndexed vendor tokenModel) skillMap parts) = Some d →
    ∃ first rest, callsFor s parts = first :: rest ∧ sd_content d = preview first.
Proof.
  revert skillMap. induction parts as [|[idx part] parts IH]; intros skillMap Hnone d.
  - simpl. by rewrite Hnone.
  - rewrite stepIndexed_cons, callsFor_cons.
    destruct (skillCall part) as [[n c]|]; cbn [fst snd]; [|by apply IH].
    unfold stepSkill; cbn [fst snd]. destruct (decide (n = s)) as [->|Hne].
    + rewrite Hnone. intros Hd.
      destruct (fold_present_content s parts (skillMap ++ [(s, firstLoad vendor tokenModel idx (s, c))])
                  (firstLoad vendor tokenModel idx (s, c))) as (d' & H1 & H2);
        [rewrite getSkill_snoc, Hnone, decide_True by reflexivity; reflexivity|].
      rewrite H1 in Hd. injection Hd as <-. exists c, (callsFor s parts).
      split; [reflexivity|]. exact H2.
    + apply IH. destruct (getSkill n skillMap).
      * by rewrite getSkill_bump_other.
      * by rewrite getSkill_snoc, Hnone, decide_False.
Qed.

Lemma getSkill_elem s d (skillMap : list (string * SkillData)) :
  NoDup (fst <$> skillMap) → (s, d) ∈ skillMap → getSkill s skillMap = Some d.
Proof.
  induction skillMap as [|[k d0] skillMap IH]; csimpl; intros Hdup Hin.
  - by apply elem_of_nil in Hin.
  - apply NoDup_cons in Hdup as [Hk Hdup]. rewrite getSkill_cons.
    apply elem_of_cons in Hin as [[= -> ->]|Hin].
    + by rewrite decide_True.
    + rewrite decide_False; [by apply IH|].
      intros ->. apply Hk. apply list_elem_of_fmap. by exists (s, d).
Qed.

Lemma getSkill_Some s d (skillMap : list (string * SkillData)) :
  getSkill s skillMap = Some d → (s, d) ∈ skillMap.
Proof.
  induction skillMap as [|[k d0] skillMap IH]; [discriminate|].
  rewrite getSkill_cons. destruct (decide (k = s)) as [->|_].
  - intros [= ->]. apply list_elem_of_here.
  - intros H. by apply list_elem_of_further, IH.
Qed.

End Loaded.

(** X21: the loaded skills of a transcript.  Each skill is listed once; a
    skill is listed exactly when the transcript has a completed call of the
    skill tool for it with an output that is not blank; an entry gives the
    number of these calls, the total as tokens per call times that number,
    and as content the trimmed output of the first of them, cut to 500
    characters and marked with three dots when it is longer; the entries
    are in
    descending order of their totals; and the total of the analysis is the
    sum of the totals of the entries. *)
Theorem loaded_skills_listing (vendor : Vendor) (msgs : list SessionMessage)
    (tokenModel : TokenModel) (manager : TokenizerManager) :
  consistent vendor manager →
  let result := run (getLoadedSkills vendor msgs tokenModel) manager in
  let skills := result.1.1 in
  NoDup (ls_name <$> skills)
  ∧ (∀ s, s ∈ ls_name <$> skills ↔ invocationsOf s msgs ≠ [])
  ∧ Forall (fun skill =>
              ∃ first rest,
                invocationsOf (ls_name skill) msgs = first :: rest
                ∧ ls_callCount skill = Z.of_nat (length (first :: rest))
                ∧ ls_totalTokens skill = ls_tokens skill * ls_callCount skill
                ∧ ls_content skill = preview first
                ∧ (String.length (ls_content skill) ≤ 503)%nat)
           skills
  ∧ StronglySorted (Js.desc ls_totalTokens) skills
  ∧ result.1.2 = foldr Z.add 0 (ls_totalTokens <$> skills).
Proof.
  intros Hm result skills. subst skills result.
  destruct (Runs_getLoadedSkills vendor tokenModel msgs manager Hm)
    as (manager' & -> & _ & _). cbn [fst snd].
  set (skillMap := stepMessages vendor tokenModel 0 [] msgs).
  assert (Hwell : wellKeyed skillMap).
  { unfold skillMap. rewrite stepMessages_indexed. apply wellKeyed_fold.
    split; [apply NoDup_nil_2|constructor]. }
  destruct Hwell as [Hdup Hnames].
  assert (Hkeys : ls_name <$> ((fun kv : string * SkillData => toLoadedSkill kv.2)
                               <$> skillMap) = fst <$> skillMap).
  { rewrite <- list_fmap_compose. apply Forall_fmap_ext_1.
    eapply Forall_impl; [exact Hnames|]. by intros [k d]. }
  assert (Hcalls : ∀ s, match invocationsOf s msgs with
                        | [] => getSkill s skillMap = None
                        | first :: rest =>
                            ∃ d, getSkill s skillMap = Some d
                                 ∧ sd_callCount d = Z.of_nat (length (first :: rest))
                                 ∧ sd_tokens d = tokenCount vendor first tokenModel
                        end).
  { intros s.
    pose proof (fold_absent vendor tokenModel s (indexedParts 0 msgs) [] eq_refl) as Hs.
    by rewrite callsFor_indexed, <- stepMessages_indexed in Hs. }
  pose proof (sortDesc_perm ls_totalTokens
                ((fun kv : string * SkillData => toLoadedSkill kv.2) <$> skillMap)) as Hperm.
  split; [by rewrite Hperm, Hkeys|]. split; [|split; [|split]].
  - intros s. rewrite Hperm, Hkeys. specialize (Hcalls s).
    destruct (invocationsOf s msgs) as [|first rest].
    + split; [|congruence]. intros Hin. by apply getSkill_None in Hcalls.
    + split; [discriminate|]. intros _. destruct Hcalls as (d & Hd & _).
      apply getSkill_Some in Hd. apply list_elem_of_fmap. by exists (s, d).
  - rewrite Hperm. apply Forall_fmap, Forall_forall. intros [k d] Hkd. simpl.
    rewrite Forall_forall in Hnames. pose proof (Hnames _ Hkd) as Hname. simpl in Hname.
    rewrite Hname. pose proof (getSkill_elem k d skillMap Hdup Hkd) as Hget.
    destruct (fold_absent_content vendor tokenModel k (indexedParts 0 msgs) [] eq_refl d)
      as (first & rest & Hfirst & Hcontent).
    { by rewrite <- stepMessages_indexed. }
    rewrite callsFor_indexed in Hfirst. specialize (Hcalls k). rewrite Hfirst in Hcalls.
    destruct Hcalls as (d' & Hd' & Hcount & _). rewrite Hget in Hd'. injection Hd' as <-.
    exists first, rest. split; [exact Hfirst|]. split; [exact Hcount|].
    split; [reflexivity|]. split; [exact Hcontent|].
    rewrite Hcontent. apply length_preview.
  - apply sortDesc_sorted.
  - rewrite foldl_sum, (sum_Permutation _ _ (fmap_Permutation ls_totalTokens _ _ Hperm)).
    lia.
Qed.

Lemma loaded_skills_listing_witness :
  consistent noVendor newTokenizerManager
  ∧ NoDup (ls_name <$> (run (getLoadedSkills noVendor scenarioC approxModel)
                            newTokenizerManager).1.1).
Proof.
  split; [apply consistent_new|].
  apply (loaded_skills_listing noVendor scenarioC approxModel newTokenizerManager
           (consistent_new noVendor)).
Defined.

End SkillListFacts.

(** ** The tokenizer cache *)

Module CacheFacts.
Import Types Promise Tokenizer TokenizerSpec PromiseFacts JsFacts TokenizerFacts.

(** X22: the count is a function of the installed packages.  From a
    manager whose caches hold what the packages give, [countTokens] returns
    the same number whatever is cached, and leaves such a manager behind.
    For content that is not blank the number is the approximation
    ceil(length / 4) when the package of the model's backend is not
    installed, and when the tokenizer of the hub cannot be loaded. *)
Theorem countTokens_fallback (vendor : Vendor) (manager : TokenizerManager)
    (tokenModel : TokenModel) (content : string) :
  consistent vendor manager →
  Js.allWhiteSpace content = false →
  let result := run (countTokens vendor content tokenModel) manager in
  consistent vendor result.2
  ∧ (∀ other, consistent vendor other →
       (run (countTokens vendor content tokenModel) other).1 = result.1)
  ∧ (∀ name, tm_spec tokenModel = Tiktoken name → js_tiktoken vendor = None →
       result.1 = Js.ceilDiv4 (String.length content))
  ∧ (∀ hub, tm_spec tokenModel = Transformers hub →
       hf_transformers vendor = None
       ∨ (∃ transformers, hf_transformers vendor = Some transformers
                          ∧ from_pretrained transformers hub = None) →
       result.1 = Js.ceilDiv4 (String.length content)).
Proof.
  intros Hm Hblank result. subst result.
  destruct (Runs_countTokens vendor content tokenModel manager Hm) as (m' & -> & Hm' & _).
  cbn [fst snd]. split; [exact Hm'|]. split.
  { intros other Hother.
    by destruct (Runs_countTokens vendor content tokenModel other Hother) as (? & -> & _). }
  unfold tokenCount. rewrite truthy_trim, Hblank. cbn [negb]. split.
  - intros name -> Hmissing. unfold loadedEncoder. by rewrite Hmissing.
  - intros hub -> Hmissing. unfold loadedTokenizer.
    destruct Hmissing as [->|(transformers & -> & Hload)]; [reflexivity|].
    simpl. by rewrite Hload.
Qed.

Lemma countTokens_fallback_witness :
  consistent noVendor newTokenizerManager
  ∧ Js.allWhiteSpace "Hello, world" = false
  ∧ (run (countTokens noVendor "Hello, world" claudeModel) newTokenizerManager).1
    = Js.ceilDiv4 (String.length "Hello, world").
Proof.
  split; [apply consistent_new|]. split; [reflexivity|].
  destruct (countTokens_fallback noVendor newTokenizerManager claudeModel "Hello, world"
              (consistent_new noVendor) eq_refl) as (_ & _ & _ & Hhub).
  apply (Hhub "Xenova/claude-tokenizer"); [reflexivity|by left].
Defined.

Ltac run_count :=
  cbv [run countTokens bind act await yield ret bindSusp drive
       countWithTransformers loadTransformersTokenizer loadTransformersModule
       tm_spec countCall record setTransformersModule setTransformerCache
       tiktokenCache transformerCache tiktokenModule transformersModule events calls
       fst snd mbind option_bind tk_encode].

(** A request that finds its hub in the cache. *)
Lemma countTokens_cache_hit vendor name hub content manager :
  is_Some (transformerCache manager !! hub) →
  let after :=
    (run (countTokens vendor content {| tm_name := name; tm_spec := Transformers hub |})
         manager).2 in
  transformerCache after = transformerCache manager
  ∧ transformersModule after = transformersModule manager
  ∧ (events after = events manager
     ∨ events after = TransformersEncode content :: events manager).
Proof.
  intros [cached Hcached] after. subst after.
  destruct manager as [tiktokens tokenizers tiktoken transformers backend n].
  cbn [transformerCache] in Hcached. run_count.
  destruct (Js.truthy (Js.trim content)); [|by auto].
  run_count. rewrite Hcached.
  destruct cached as [[[enc|]]|]; run_count; auto.
Qed.

(** A request for content that is not blank leaves its hub in the cache. *)
Lemma countTokens_caches vendor name hub content manager :
  Js.allWhiteSpace content = false →
  is_Some (transformerCache
             (run (countTokens vendor content
                     {| tm_name := name; tm_spec := Transformers hub |}) manager).2
           !! hub).
Proof.
  intros Hblank.
  destruct manager as [tiktokens tokenizers tiktoken imported backend n].
  run_count. rewrite truthy_trim, Hblank. cbn [negb]. run_count.
  destruct (tokenizers !! hub) as [cached|] eqn:Hcached; run_count.
  - destruct cached as [[[enc|]]|]; run_count; by rewrite Hcached.
  - destruct imported as [[transformers|]|]; run_count.
    + destruct (from_pretrained transformers hub) as [[[enc|]]|]; run_count;
        by rewrite lookup_insert_eq.
    + by rewrite lookup_insert_eq.
    + destruct (hf_transformers vendor) as [transformers|]; run_count.
      * destruct (from_pretrained transformers hub) as [[[enc|]]|]; run_count;
          by rewrite lookup_insert_eq.
      * by rewrite lookup_insert_eq.
Qed.

(** X23: the tokenizer of a hub is loaded at most once by requests made
    one after the other.  After a request for content that is not blank has
    returned, from whatever manager, the hub is cached, also when its load
    failed; every later request for the hub, one at a time, imports no
    package and loads no tokenizer, and leaves the cache as it is. *)
Theorem transformers_loaded_once (vendor : Vendor) (manager : TokenizerManager)
    (name hub first : string) (later : list string) :
  Js.allWhiteSpace first = false →
  let tokenModel := {| tm_name := name; tm_spec := Transformers hub |} in
  let loaded := (run (countTokens vendor first tokenModel) manager).2 in
  let after :=
    foldl (fun m content => (run (countTokens vendor content tokenModel) m).2)
          loaded later in
  is_Some (transformerCache loaded !! hub)
  ∧ transformerCache after = transformerCache loaded
  ∧ (∀ h, loads (FromPretrained h) after = loads (FromPretrained h) loaded)
  ∧ (∀ pkg, loads (ImportFromVendor pkg) after = loads (ImportFromVendor pkg) loaded).
Proof.
  intros Hblank tokenModel loaded after.
  pose proof (countTokens_caches vendor name hub first manager Hblank) as Hcached.
  fold tokenModel in Hcached. fold loaded in Hcached. split; [exact Hcached|].
  subst after. clearbody loaded. clear Hblank.
  induction later as [|content later IH] using rev_ind; [by simpl|].
  rewrite foldl_snoc. destruct IH as (Hcache & Hload & Himport).
  set (before := foldl _ loaded later) in *.
  destruct (countTokens_cache_hit vendor name hub content before) as (Hc & _ & He).
  { by rewrite Hcache. }
  cbn zeta in Hc, He. fold tokenModel in Hc, He.
  split; [by rewrite Hc|].
  split; [intros h; rewrite <- Hload|intros pkg; rewrite <- Himport];
    unfold loads; destruct He as [->| ->]; try reflexivity;
    by rewrite filter_cons, decide_False by discriminate.
Qed.

Lemma transformers_loaded_once_witness :
  Js.allWhiteSpace "Hello" = false
  ∧ loads (FromPretrained "Xenova/claude-tokenizer")
      (foldl (fun m content => (run (countTokens installed content claudeModel) m).2)
             (run (countTokens installed "Hello" claudeModel) newTokenizerManager).2
             ["Hi there"; "Bye"])
    = loads (FromPretrained "Xenova/claude-tokenizer")
        (run (countTokens installed "Hello" claudeModel) newTokenizerManager).2.
Proof.
  split; [reflexivity|].
  apply (transformers_loaded_once installed newTokenizerManager "claude-sonnet-4"
           "Xenova/claude-tokenizer" "Hello" ["Hi there"; "Bye"] eq_refl).
Defined.

End CacheFacts.

(** ** The system prompts of a transcript *)

Module PromptFacts.
Import Types Analyzer PromptSpec.

Lemma elem_of_addPrompt prompts content x :
  x ∈ addPrompt prompts content ↔ x ∈ prompts ∨ x = content.
Proof.
  unfold addPrompt. case_bool_decide as Hin.
  - split; [auto|]. intros [?| ->]; assumption.
  - rewrite elem_of_app, list_elem_of_singleton. reflexivity.
Qed.

Lemma NoDup_addPrompt prompts content : NoDup prompts → NoDup (addPrompt prompts content).
Proof.
  intros H. unfold addPrompt. case_bool_decide as Hin; [exact H|].
  apply NoDup_app. split; [exact H|]. split; [|apply NoDup_singleton].
  intros x Hx ->%list_elem_of_singleton. contradiction.
Qed.

Lemma addAll_set candidates prompts :
  (NoDup prompts → NoDup (addAll prompts candidates))
  ∧ ∀ x, x ∈ addAll prompts candidates ↔ x ∈ prompts ∨ (x ≠ "" ∧ x ∈ candidates).
Proof.
  revert prompts. induction candidates as [|c candidates IH]; intros prompts.
  - split; [auto|]. intros x. simpl. split; [auto|].
    intros [?|[_ H]]; [assumption|]. by apply elem_of_nil in H.
  - unfold addAll. cbn [foldl]. fold (addAll (if Js.truthy c then addPrompt prompts c
                                                else prompts) candidates).
    destruct (IH (if Js.truthy c then addPrompt prompts c else prompts)) as [Hdup Hin].
    split.
    + intros H. apply Hdup. destruct (Js.truthy c); [by apply NoDup_addPrompt|exact H].
    + intros x. rewrite Hin, elem_of_cons. clear Hdup Hin IH.
      destruct c as [|a c]; cbn [Js.truthy].
      * split; [tauto|]. intros [?|[Hx [->|?]]]; [auto|congruence|auto].
      * rewrite elem_of_addPrompt. split; [|tauto].
        intros [[?| ->]|[? ?]]; [auto| |auto]. right. split; [discriminate|by left].
Qed.

Lemma elem_of_flat_map {A B} (f : A → list B) (l : list A) (x : B) :
  x ∈ flat_map f l ↔ ∃ y, y ∈ l ∧ x ∈ f y.
Proof.
  induction l as [|a l IH]; cbn [flat_map].
  - split; [by intros ?%elem_of_nil|]. by intros (y & ?%elem_of_nil & _).
  - rewrite elem_of_app, IH. split.
    + intros [?|(y & ? & ?)]; [exists a|exists y]; split; auto using list_elem_of_here.
      by apply list_elem_of_further.
    + intros (y & [->|?]%elem_of_cons & ?); [by left|right; by exists y].
Qed.

Lemma collectSystemPrompts_contents msgs :
  src_content <$> collectSystemPrompts msgs = addAll [] (flat_map promptCandidates msgs).
Proof.
  unfold collectSystemPrompts.
  rewrite fmap_imap. unfold compose. cbn [src_content].
  assert (Hid : ∀ l : list string, imap (fun _ content => content) l = l).
  { induction l as [|x l IH]; [reflexivity|]. cbn [imap]. f_equal.
    rewrite <- IH at 2. apply imap_ext. by intros. }
  rewrite Hid. clear Hid.
  match goal with |- foldl ?f [] msgs = _ => set (step := f) end.
  assert (Hgen : ∀ prompts,
            foldl step prompts msgs = addAll prompts (flat_map promptCandidates msgs));
    [|apply Hgen].
  induction msgs as [|m msgs IH]; intros prompts; [reflexivity|].
  cbn [foldl flat_map]. unfold addAll in *. rewrite foldl_app, IH. f_equal.
  unfold step, promptCandidates. rewrite foldl_app.
  destruct (bool_decide (mi_role (sm_info m) = "system")); cbn [foldl];
    (destruct (bool_decide (mi_role (sm_info m) = "assistant")); [|reflexivity]);
    rewrite foldl_fmap; reflexivity.
Qed.

(** X24: the system prompts of a transcript are a set.  No content is
    listed twice, however often a prompt is repeated, and none is empty; a
    content is listed exactly when it is the text of a system message or
    the trimmed form of a prompt carried by an assistant message.  The
    entries are numbered from 1 in the order of the list. *)
Theorem collectSystemPrompts_set (msgs : list SessionMessage) :
  let sources := collectSystemPrompts msgs in
  NoDup (src_content <$> sources)
  ∧ (∀ content, content ∈ src_content <$> sources ↔
       content ≠ "" ∧ ∃ message, message ∈ msgs ∧ content ∈ promptCandidates message)
  ∧ ∀ index source, sources !! index = Some source →
      src_label source = identifySystemPrompt (src_content source) (index + 1).
Proof.
  intros sources. subst sources. rewrite collectSystemPrompts_contents.
  destruct (addAll_set (flat_map promptCandidates msgs) []) as [Hdup Hin].
  split; [apply Hdup, NoDup_nil_2|]. split.
  - intros content. rewrite Hin, elem_of_flat_map. split.
    + intros [Hnil|?]; [by apply elem_of_nil in Hnil|assumption].
    + auto.
  - intros index source. unfold collectSystemPrompts. rewrite list_lookup_imap.
    destruct (_ !! index); [|discriminate]. by intros [= <-].
Qed.

End PromptFacts.
